(** * shopper-price: the price-monitoring engine of [server.js]

    A shallow embedding of [scrapePrice], [sendNotification], the
    [POST /api/products] handler and [checkPrices], followed by the
    properties of the written specification that concern them.  Further
    on come the other product routes, the savings analytics, the account
    routes and the token middleware, with the properties the code shows
    of them.

    Modelling conventions.
    - A JavaScript Number is a [number]: [NaN], the two infinities, or a
      finite value kept as a rational.  [parseFloat] and the arithmetic
      operators round their result to binary64 ([JS.round64]: to the
      nearest, ties to even, with gradual underflow and overflow to an
      infinity), so the finite Numbers the program computes are binary64
      values.  The sign of zero is not modelled.
    - A JavaScript string is a [string] of the code units below 256.
    - The outside world (the HTTP responses, the clock, the outcome of the
      database and mail calls) is a [World] of oracles; everything the
      program does to it is recorded in a trace of [Event]s. *)

From Stdlib Require Import ZArith QArith Qround Qpower Qabs Bool List String.
From Stdlib Require Import Ascii DecimalString Lia Lqa.
From ExtLib Require Import Structures.Monad.
Import ListNotations.

(* ===================================================================== *)
(** * JavaScript values *)
(* ===================================================================== *)

Module JS.

(** ** Numbers *)

Inductive number : Type :=
| NaN
| Infinity (negative : bool)
| Fin (q : Q).

Definition Qltb (p q : Q) : bool := negb (Qle_bool q p).

Definition is_zero (q : Q) : bool := Qeq_bool q 0.

(** ToBoolean on a Number: [0] and [NaN] are falsy. *)
Definition truthy (n : number) : bool :=
  match n with
  | NaN => false
  | Infinity _ => true
  | Fin q => negb (is_zero q)
  end.

(** [a < b] *)
Definition lt (a b : number) : bool :=
  match a, b with
  | NaN, _ | _, NaN => false
  | _, Infinity true => false
  | Infinity true, _ => true
  | Infinity false, _ => false
  | Fin _, Infinity false => true
  | Fin p, Fin q => Qltb p q
  end.

(** [a <= b] *)
Definition le (a b : number) : bool :=
  match a, b with
  | NaN, _ | _, NaN => false
  | Infinity true, _ => true
  | _, Infinity false => true
  | Infinity false, _ => false
  | Fin _, Infinity true => false
  | Fin p, Fin q => Qle_bool p q
  end.

(** ** binary64 *)

(** [2^z] *)
Definition pow2 (z : Z) : Q := Qpower 2 z.

(** For a positive [q], the integer [e] with [2^e <= q < 2^(e+1)]. *)
Definition floor_log2 (q : Q) : Z :=
  let e := (Z.log2 (Qnum q) - Z.log2 (Zpos (Qden q)))%Z in
  if Qle_bool (pow2 e) q then e else (e - 1)%Z.

(** The integer nearest to [q], the even one of two that are as near. *)
Definition nearest_even (q : Q) : Z :=
  let f := Qfloor q in
  match Qcompare (q - inject_Z f) (1 # 2) with
  | Lt => f
  | Gt => (f + 1)%Z
  | Eq => if Z.even f then f else (f + 1)%Z
  end.

(** The exponent of the unit in the last place of the binary64 numbers
    of the magnitude of [q]: 53 significant bits, and no exponent below
    -1074. *)
Definition ulp_exponent (q : Q) : Z := Z.max (floor_log2 q - 52) (-1074).

(** The multiple of that unit nearest to a positive [q]. *)
Definition nearest (q : Q) : Q :=
  let u := pow2 (ulp_exponent q) in inject_Z (nearest_even (q / u)) * u.

(** The Number value for a rational: the binary64 value nearest to it,
    an infinity from [2^1024] on. *)
Definition round64 (q : Q) : number :=
  let q := Qred q in
  if is_zero q then Fin 0 else
  let v := nearest (Qabs q) in
  if Qle_bool (pow2 1024) v then Infinity (Qltb q 0)
  else Fin (Qred (if Qltb q 0 then - v else v)).

(** ** Arithmetic *)

(** [a + b] *)
Definition add (a b : number) : number :=
  match a, b with
  | NaN, _ | _, NaN => NaN
  | Infinity s, Infinity t => if Bool.eqb s t then Infinity s else NaN
  | Infinity s, Fin _ | Fin _, Infinity s => Infinity s
  | Fin p, Fin q => round64 (p + q)
  end.

(** [a - b] *)
Definition sub (a b : number) : number :=
  match a, b with
  | NaN, _ | _, NaN => NaN
  | Infinity s, Infinity t => if Bool.eqb s t then NaN else Infinity s
  | Infinity s, Fin _ => Infinity s
  | Fin _, Infinity t => Infinity (negb t)
  | Fin p, Fin q => round64 (p - q)
  end.

(** [a * b] *)
Definition mul (a b : number) : number :=
  match a, b with
  | NaN, _ | _, NaN => NaN
  | Infinity s, Infinity t => Infinity (xorb s t)
  | Infinity s, Fin q | Fin q, Infinity s =>
      if is_zero q then NaN else Infinity (xorb s (Qltb q 0))
  | Fin p, Fin q => round64 (p * q)
  end.

(** [a / b]: a division by zero does not throw, it yields an infinity or
    [NaN]. *)
Definition div (a b : number) : number :=
  match a, b with
  | NaN, _ | _, NaN => NaN
  | Infinity _, Infinity _ => NaN
  | Infinity s, Fin q => Infinity (xorb s (Qltb q 0))
  | Fin _, Infinity _ => Fin 0
  | Fin p, Fin q =>
      if is_zero q
      then (if is_zero p then NaN else Infinity (Qltb p 0))
      else round64 (p / q)
  end.

(** [Math.round(x)]: the integer nearest to [x], ties towards +Infinity. *)
Definition Math_round (x : number) : number :=
  match x with
  | Fin q => Fin (inject_Z (Qfloor (q + (1 # 2))))
  | _ => x
  end.

Definition of_Z (z : Z) : number := Fin (inject_Z z).

(** ** Strings *)

Local Open Scope string_scope.

Definition is_digit (c : ascii) : bool :=
  let n := nat_of_ascii c in (48 <=? n)%nat && (n <=? 57)%nat.

Definition is_dot (c : ascii) : bool := Ascii.eqb c ".".

(** White space of [String.prototype.trim] and of [parseFloat], among the
    code units below 256: TAB, LF, VT, FF, CR, SP and NBSP. *)
Definition is_space (c : ascii) : bool :=
  let n := nat_of_ascii c in
  ((9 <=? n)%nat && (n <=? 13)%nat) || (n =? 32)%nat || (n =? 160)%nat.

Definition is_empty (s : string) : bool :=
  match s with EmptyString => true | String _ _ => false end.

(** [a || b] on strings: the empty string is falsy. *)
Definition or_else (a b : string) : string := if is_empty a then b else a.

(** [s.replace(/[^\d.]/g, '')] *)
Fixpoint replace_non_numeric (s : string) : string :=
  match s with
  | EmptyString => EmptyString
  | String c r =>
      if is_digit c || is_dot c
      then String c (replace_non_numeric r)
      else replace_non_numeric r
  end.

Fixpoint trimStart (s : string) : string :=
  match s with
  | String c r => if is_space c then trimStart r else s
  | EmptyString => EmptyString
  end.

(** [trimEnd] keeps a character when it is not a space or when something
    is kept after it. *)
Fixpoint trimEnd (s : string) : string :=
  match s with
  | EmptyString => EmptyString
  | String c r =>
      let r' := trimEnd r in
      if is_space c && is_empty r' then EmptyString else String c r'
  end.

Definition trim (s : string) : string := trimEnd (trimStart s).

Fixpoint startsWith (p s : string) : bool :=
  match p, s with
  | EmptyString, _ => true
  | String a p', String b s' => Ascii.eqb a b && startsWith p' s'
  | String _ _, EmptyString => false
  end.

(** [s.includes(p)] *)
Fixpoint includes (s p : string) : bool :=
  startsWith p s ||
  match s with
  | EmptyString => false
  | String _ r => includes r p
  end.

(** ** parseFloat *)

(** The longest prefix of decimal digits, and what follows it. *)
Fixpoint span_digits (s : string) : string * string :=
  match s with
  | String c r =>
      if is_digit c
      then let '(d, rest) := span_digits r in (String c d, rest)
      else (EmptyString, s)
  | EmptyString => (EmptyString, EmptyString)
  end.

Definition digit_value (c : ascii) : Z := Z.of_nat (nat_of_ascii c) - 48.

(** The value of a digit string read in base ten, most significant digit
    first, continuing from [acc]. *)
Fixpoint digits_value (acc : Z) (s : string) : Z :=
  match s with
  | EmptyString => acc
  | String c r => digits_value (10 * acc + digit_value c) r
  end.

(** An optional sign at the head of [s]: whether it is [-], and the rest. *)
Definition split_sign (s : string) : bool * string :=
  match s with
  | String c r =>
      if Ascii.eqb c "+" then (false, r)
      else if Ascii.eqb c "-" then (true, r)
      else (false, s)
  | EmptyString => (false, s)
  end.

(** The ExponentPart at the head of [s], when there is a complete one:
    [e] or [E], an optional sign, and at least one digit. *)
Definition exponent_part (s : string) : Z :=
  match s with
  | String c r =>
      if Ascii.eqb c "e" || Ascii.eqb c "E" then
        let '(neg, r') := split_sign r in
        let '(d, _) := span_digits r' in
        if is_empty d then 0%Z
        else if neg then (- digits_value 0 d)%Z else digits_value 0 d
      else 0%Z
  | EmptyString => 0%Z
  end.

(** The fraction at the head of [s], when [s] starts with a dot: its
    digits and what follows them. *)
Definition fraction_part (s : string) : string * string :=
  match s with
  | String c r => if is_dot c then span_digits r else (EmptyString, s)
  | EmptyString => (EmptyString, s)
  end.

(** [parseFloat(s)]: leading white space is skipped, then the longest
    prefix that is a StrDecimalLiteral is read, and the result is the
    Number value for the decimal it denotes; [NaN] when there is none. *)
Definition parseFloat (s : string) : number :=
  let '(neg, u) := split_sign (trimStart s) in
  if startsWith "Infinity" u then Infinity neg else
  let '(ip, r1) := span_digits u in
  let '(fp, r2) := fraction_part r1 in
  if is_empty ip && is_empty fp then NaN else
  let m := digits_value 0 (ip ++ fp) in
  let e := (exponent_part r2 - Z.of_nat (String.length fp))%Z in
  let v := (inject_Z m * Qpower (10 # 1) e)%Q in
  round64 (if neg then - v else v).

Arguments round64 : simpl never.

End JS.

(* ===================================================================== *)
(** * Documents as cheerio sees them *)
(* ===================================================================== *)

Module Cheerio.

(** The selections the program builds: [$(css)], [.first()], [.parent()]. *)
Inductive selection : Type :=
| select (css : string)
| first (s : selection)
| parent (s : selection).

(** A loaded document, observed through the two accessors the program
    uses: [.text()] (the empty string when nothing is selected) and
    [.attr(name)] ([None] for [undefined]). *)
Record Document : Type := {
  text : selection -> string;
  attr : selection -> string -> option string
}.

End Cheerio.

(* ===================================================================== *)
(** * Data model: the Mongoose schemas *)
(* ===================================================================== *)

Definition ObjectId := nat.
Definition Date := Z.

Module User.
(** [userSchema]; the password and creation date play no part here. *)
Record t : Type := {
  _id : ObjectId;
  username : string;
  email : string;
  notifications : bool
}.
End User.

Module PricePoint.
(** An element of [priceHistory]. *)
Record t : Type := { price : JS.number; date : Date }.
End PricePoint.

Module Product.
(** [productSchema]. *)
Record t : Type := {
  _id : ObjectId;
  userId : ObjectId;
  url : string;
  title : string;
  currentPrice : JS.number;
  targetPrice : option JS.number;
  image : string;
  store : string;
  priceHistory : list PricePoint.t;
  isActive : bool;
  createdAt : Date;
  lastChecked : Date
}.

Definition set_currentPrice (v : JS.number) (p : t) : t :=
  {| _id := _id p; userId := userId p; url := url p; title := title p;
     currentPrice := v; targetPrice := targetPrice p; image := image p;
     store := store p; priceHistory := priceHistory p;
     isActive := isActive p; createdAt := createdAt p;
     lastChecked := lastChecked p |}.

Definition set_lastChecked (v : Date) (p : t) : t :=
  {| _id := _id p; userId := userId p; url := url p; title := title p;
     currentPrice := currentPrice p; targetPrice := targetPrice p;
     image := image p; store := store p; priceHistory := priceHistory p;
     isActive := isActive p; createdAt := createdAt p; lastChecked := v |}.

Definition set_priceHistory (v : list PricePoint.t) (p : t) : t :=
  {| _id := _id p; userId := userId p; url := url p; title := title p;
     currentPrice := currentPrice p; targetPrice := targetPrice p;
     image := image p; store := store p; priceHistory := v;
     isActive := isActive p; createdAt := createdAt p;
     lastChecked := lastChecked p |}.

Definition set_targetPrice (v : option JS.number) (p : t) : t :=
  {| _id := _id p; userId := userId p; url := url p; title := title p;
     currentPrice := currentPrice p; targetPrice := v; image := image p;
     store := store p; priceHistory := priceHistory p;
     isActive := isActive p; createdAt := createdAt p;
     lastChecked := lastChecked p |}.

Definition set_isActive (v : bool) (p : t) : t :=
  {| _id := _id p; userId := userId p; url := url p; title := title p;
     currentPrice := currentPrice p; targetPrice := targetPrice p;
     image := image p; store := store p; priceHistory := priceHistory p;
     isActive := v; createdAt := createdAt p;
     lastChecked := lastChecked p |}.
End Product.

Module Scraped.
(** The object [scrapePrice] returns; [price = None] is [null]. *)
Record t : Type := {
  price : option JS.number;
  title : string;
  image : string;
  store : string
}.
End Scraped.

(** The two collections the program reads and writes. *)
Record DB : Type := {
  products : list Product.t;
  users : list User.t
}.

(* ===================================================================== *)
(** * Effects *)
(* ===================================================================== *)

(** A piece of a template literal: static text, an interpolated string,
    or an interpolated number, standing for its conversion to a string. *)
Inductive piece : Type :=
| Lit (s : string)
| Str (s : string)
| Num (n : JS.number).

(** The decimal digits of a natural number. *)
Definition decimal (n : Z) : string :=
  NilZero.string_of_uint (N.to_uint (Z.to_N n)).

Definition digit (d : Z) : ascii := ascii_of_nat (48 + Z.to_nat d).

(** [n] hundredths, written with two decimals. *)
Definition hundredths (n : Z) : string :=
  (decimal (n / 100)
   ++ String "." (String (digit (n mod 100 / 10))
                    (String (digit (n mod 10)) EmptyString)))%string.

(** [x.toFixed(2)]: for a finite [x] below [10^21] in magnitude, the sign
    and the number of hundredths nearest to the magnitude, the larger of
    two that are as near; otherwise the conversion of [x] to a string. *)
Definition toFixed2 (x : JS.number) : piece :=
  match x with
  | JS.Fin q =>
      if Qle_bool (inject_Z (10 ^ 21)) (Qabs q) then Num x
      else
        let n := Qfloor (Qabs q * 100 + (1 # 2)) in
        Str ((if JS.Qltb q 0 then "-" else EmptyString) ++ hundredths n)%string
  | _ => Num x
  end.

Record MailOptions : Type := {
  to : string;
  subject : string;
  html : list piece
}.

(** What is written on the console. *)
Inductive Line : Type :=
| StartingPriceCheck
| PriceCheckCompleted
| Updated (title : string) (oldPrice newPrice : JS.number)
| NotificationSentTo (email : string)
| ScrapingError (message : string)
| EmailError (message : string)
| ErrorChecking (title message : string)
| PriceCheckError (message : string).

(** What the program does to the outside world, in order of occurrence.
    [Notify] marks a call of [sendNotification]. *)
Inductive Event : Type :=
| Get (url : string)
| SetTimeout (ms : Z)
| Notify (user : User.t) (product : Product.t) (oldPrice newPrice : JS.number)
| SendMail (m : MailOptions)
| ConsoleLog (l : Line)
| ConsoleError (l : Line).

(** The outside world.  Within one run, [k] numbers the requests: in a
    sweep it is the position of the item being processed.  An oracle that
    answers [Some message] makes the call reject with that message. *)
Record World : Type := {
  axios_get : nat -> string -> Cheerio.Document + string;
  Date_now : nat -> Date;
  new_ObjectId : nat -> ObjectId;
  find_rejects : option string;
  save_rejects : nat -> option string;
  findById_rejects : nat -> option string;
  sendMail_rejects : nat -> option string
}.

Inductive Outcome (A : Type) : Type :=
| Returned (a : A)
| Thrown (message : string).
Arguments Returned {A} a.
Arguments Thrown {A} message.

(** A computation reads and writes the database, appends to the trace,
    and returns or throws.  What was written before a throw stays
    written. *)
Definition Eff (A : Type) : Type := DB -> Outcome A * DB * list Event.

Definition Eff_ret {A} (a : A) : Eff A := fun db => (Returned a, db, []).

Definition Eff_bind {A B} (c : Eff A) (f : A -> Eff B) : Eff B :=
  fun db =>
    match c db with
    | (Returned a, db1, t1) =>
        let '(r, db2, t2) := f a db1 in (r, db2, t1 ++ t2)
    | (Thrown m, db1, t1) => (Thrown m, db1, t1)
    end.

#[global] Instance Monad_Eff : Monad Eff :=
  {| ret := @Eff_ret; bind := @Eff_bind |}.

Definition throw {A} (message : string) : Eff A :=
  fun db => (Thrown message, db, []).

(** [try { c } catch (error) { h(error.message) }] *)
Definition try_catch {A} (c : Eff A) (h : string -> Eff A) : Eff A :=
  fun db =>
    match c db with
    | (Returned a, db1, t1) => (Returned a, db1, t1)
    | (Thrown m, db1, t1) =>
        let '(r, db2, t2) := h m db1 in (r, db2, t1 ++ t2)
    end.

Definition emit (e : Event) : Eff unit := fun db => (Returned tt, db, [e]).

Definition console_log (l : Line) : Eff unit := emit (ConsoleLog l).
Definition console_error (l : Line) : Eff unit := emit (ConsoleError l).

(** [await c] for an oracle: resolve with [a] or reject. *)
Definition settle {A} (rejects : option string) (a : A) : Eff A :=
  match rejects with
  | Some message => throw message
  | None => ret a
  end.

(* ===================================================================== *)
(** * The program *)
(* ===================================================================== *)

Import MonadNotation.
Local Open Scope monad_scope.
Local Open Scope string_scope.

(** [a || b] where [a] may be [undefined]. *)
Definition or_undefined (a b : option string) : option string :=
  match a with
  | Some s => if JS.is_empty s then b else a
  | None => b
  end.

(** The part of [scrapePrice] that follows [cheerio.load]: the store is
    chosen by the first host fragment the URL includes, and the price text
    is what [replace] leaves of the first selector, or of the second when
    that is empty.  The local [price] is [None] while it is [null].  The
    selectors are written without their inner quotation marks. *)
Definition extract (url : string) (doc : Cheerio.Document) : Scraped.t :=
  let text s := Cheerio.text doc s in
  let src s := Cheerio.attr doc s "src" in
  let sel := Cheerio.select in
  let first := Cheerio.first in
  let numeric s := JS.replace_non_numeric (text s) in
  let '(price, title, image, store) :=
    if JS.includes url "amazon." then
      (Some (JS.or_else (numeric (first (sel ".a-price-whole")))
                        (numeric (first (sel ".a-offscreen")))),
       JS.trim (text (sel "#productTitle")),
       or_undefined (src (sel "#landingImage"))
                    (src (first (sel ".a-dynamic-image"))),
       "Amazon")
    else if JS.includes url "ebay." then
      (Some (JS.or_else (numeric (sel ".price-current"))
                        (numeric (first (sel ".notranslate")))),
       JS.trim (text (sel ".x-item-title-label")),
       src (sel "#icImg"),
       "eBay")
    else if JS.includes url "walmart." then
      (Some (JS.or_else (numeric (sel "[data-testid=price-current]"))
                        (numeric (sel ".price-current"))),
       JS.trim (text (sel "h1[data-testid=product-title]")),
       src (sel "img[data-testid=hero-image-container]"),
       "Walmart")
    else if JS.includes url "bestbuy." then
      (Some (JS.or_else
               (numeric (Cheerio.parent (sel ".sr-only:contains(current price)")))
               (numeric (first (sel ".pricing-price__range")))),
       JS.trim (text (sel ".sku-title h1")),
       src (sel ".primary-image"),
       "Best Buy")
    else if JS.includes url "target." then
      (Some (numeric (sel "[data-test=product-price]")),
       JS.trim (text (sel "[data-test=product-title]")),
       src (sel "img[data-test=hero-image]"),
       "Target")
    else (None, EmptyString, Some EmptyString, EmptyString) in
  {| Scraped.price :=
       match price with
       | Some s => if JS.is_empty s then None else Some (JS.parseFloat s)
       | None => None
       end;
     Scraped.title := JS.or_else title "Unknown Product";
     Scraped.image :=
       match or_undefined image (Some EmptyString) with
       | Some s => s
       | None => EmptyString
       end;
     Scraped.store := JS.or_else store "Unknown Store" |}.

(** [!scrapedData || !scrapedData.price] is false: the guard both callers
    put on a scrape.  [null], [0] and [NaN] are all falsy. *)
Definition usable_price (scrapedData : option Scraped.t) : option JS.number :=
  match scrapedData with
  | Some d =>
      match Scraped.price d with
      | Some n => if JS.truthy n then Some n else None
      | None => None
      end
  | None => None
  end.

(** [x && ...] for an optional Number. *)
Definition truthy_opt (x : option JS.number) : bool :=
  match x with Some n => JS.truthy n | None => false end.

(** [newPrice <= product.targetPrice]; a missing target compares false. *)
Definition le_opt (a : JS.number) (b : option JS.number) : bool :=
  match b with Some n => JS.le a n | None => false end.

(** [a.slice(-n)] *)
Definition slice_last {A} (n : nat) (a : list A) : list A :=
  skipn (List.length a - n) a.

(** [priceHistory.push(o)] followed by the cut to the last 30. *)
Definition push_capped (h : list PricePoint.t) (o : PricePoint.t)
  : list PricePoint.t :=
  let h' := (h ++ [o])%list in
  if (30 <? List.length h')%nat then slice_last 30 h' else h'.

(** The three assignments and the cut [checkPrices] applies to the
    in-memory product before saving it. *)
Definition observe (newPrice : JS.number) (now : Date) (product : Product.t)
  : Product.t :=
  let product := Product.set_currentPrice newPrice product in
  let product := Product.set_lastChecked now product in
  Product.set_priceHistory
    (push_capped (Product.priceHistory product)
                 {| PricePoint.price := newPrice; PricePoint.date := now |})
    product.

(** The condition under which [checkPrices] looks up the owner to notify. *)
Definition price_dropped_below_target
  (product : Product.t) (oldPrice newPrice : JS.number) : bool :=
  truthy_opt (Product.targetPrice product)
  && le_opt newPrice (Product.targetPrice product)
  && JS.lt newPrice oldPrice.

(** [Math.round(((oldPrice - newPrice) / oldPrice) * 100)] *)
Definition percent_off (oldPrice newPrice : JS.number) : JS.number :=
  JS.Math_round
    (JS.mul (JS.div (JS.sub oldPrice newPrice) oldPrice) (JS.of_Z 100)).

(** The template of the mail body; the static markup is abbreviated to
    its text. *)
Definition mail_html (product : Product.t) (oldPrice newPrice : JS.number)
  : list piece :=
  [ Lit "Great News! Price Drop Alert ";
    Str (Product.title product);
    Lit " "; Str (Product.image product);
    Lit " Store: "; Str (Product.store product);
    Lit " Previous Price: $"; Num oldPrice;
    Lit " New Price: $"; Num newPrice;
    Lit " You Save: $"; toFixed2 (JS.sub oldPrice newPrice);
    Lit " ("; Num (percent_off oldPrice newPrice); Lit "% off) ";
    Str (Product.url product);
    Lit " View Product Happy shopping!" ].

(** The [mailOptions] of [sendNotification]. *)
Definition mailOptions (user : User.t) (product : Product.t)
  (oldPrice newPrice : JS.number) : MailOptions :=
  {| to := User.email user;
     subject := "Price Drop Alert: " ++ Product.title product;
     html := mail_html product oldPrice newPrice |}.

(** A key of [req.body] as a handler reads it: missing ([undefined]), or
    present, with [None] for [null]. *)
Inductive Field (A : Type) : Type :=
| Missing
| Present (value : option A).
Arguments Missing {A}.
Arguments Present {A} value.

(** The update [{ targetPrice }] of the retargeting route: Mongoose drops
    from an update a key whose value is [undefined], and nothing is left to
    update. *)
Definition update_targetPrice (targetPrice : Field JS.number)
  (product : Product.t) : Product.t :=
  match targetPrice with
  | Missing => product
  | Present value => Product.set_targetPrice value product
  end.

Fixpoint replace_by_id (doc : Product.t) (l : list Product.t)
  : list Product.t :=
  match l with
  | [] => []
  | p :: r =>
      if (Product._id p =? Product._id doc)%nat
      then doc :: r
      else p :: replace_by_id doc r
  end.

Definition set_products (ps : list Product.t) (db : DB) : DB :=
  {| products := ps; users := users db |}.

Section Program.

Variable w : World.

(** [axios.get(url)], then [cheerio.load(response.data)]. *)
Definition get_document (k : nat) (url : string) : Eff Cheerio.Document :=
  emit (Get url) ;;
  match axios_get w k url with
  | inl doc => ret doc
  | inr message => throw message
  end.

(** [scrapePrice(url)]: [None] is the [null] of the catch clause. *)
Definition scrapePrice (k : nat) (url : string) : Eff (option Scraped.t) :=
  try_catch
    (doc <- get_document k url ;;
     ret (Some (extract url doc)))
    (fun message =>
       console_error (ScrapingError message) ;;
       ret None).

(** [transporter.sendMail(mailOptions)] *)
Definition sendMail (k : nat) (m : MailOptions) : Eff unit :=
  emit (SendMail m) ;;
  settle (sendMail_rejects w k) tt.

(** [sendNotification(user, product, oldPrice, newPrice)] *)
Definition sendNotification (k : nat) (user : User.t) (product : Product.t)
  (oldPrice newPrice : JS.number) : Eff unit :=
  emit (Notify user product oldPrice newPrice) ;;
  if negb (User.notifications user) then ret tt else
  try_catch
    (sendMail k (mailOptions user product oldPrice newPrice) ;;
     console_log (NotificationSentTo (User.email user)))
    (fun message => console_error (EmailError message)).

(** [Product.find({ isActive: true })] *)
Definition Product_find_active : Eff (list Product.t) :=
  fun db =>
    settle (find_rejects w) (filter Product.isActive (products db)) db.

(** [User.findById(id)] *)
Definition User_findById (k : nat) (id : ObjectId) : Eff (option User.t) :=
  fun db =>
    settle (findById_rejects w k)
           (find (fun u => (User._id u =? id)%nat) (users db)) db.

(** [product.save()] on a document loaded from the collection. *)
Definition save (k : nat) (product : Product.t) : Eff unit :=
  fun db =>
    match save_rejects w k with
    | Some message => (Thrown message, db, [])
    | None =>
        (Returned tt,
         set_products (replace_by_id product (products db)) db, [])
    end.

(** [product.save()] on a document made by [new Product]. *)
Definition save_new (k : nat) (product : Product.t) : Eff unit :=
  fun db =>
    match save_rejects w k with
    | Some message => (Thrown message, db, [])
    | None => (Returned tt, set_products (products db ++ [product]) db, [])
    end.

(** The body of the loop of [checkPrices] for the [k]-th product. *)
Definition check_product (k : nat) (product : Product.t) : Eff unit :=
  try_catch
    (scrapedData <- scrapePrice k (Product.url product) ;;
     match usable_price scrapedData with
     | Some newPrice =>
         let oldPrice := Product.currentPrice product in
         let product := observe newPrice (Date_now w k) product in
         save k product ;;
         (if price_dropped_below_target product oldPrice newPrice then
            user <- User_findById k (Product.userId product) ;;
            match user with
            | Some user => sendNotification k user product oldPrice newPrice
            | None => ret tt
            end
          else ret tt) ;;
         console_log (Updated (Product.title product) oldPrice newPrice)
     | None => ret tt
     end ;;
     emit (SetTimeout 2000))
    (fun message =>
       console_error (ErrorChecking (Product.title product) message)).

(** [for (const product of products)], counting the products from [k]. *)
Fixpoint for_each (k : nat) (ps : list Product.t) : Eff unit :=
  match ps with
  | [] => ret tt
  | product :: rest => check_product k product ;; for_each (S k) rest
  end.

(** [checkPrices()] *)
Definition checkPrices : Eff unit :=
  console_log StartingPriceCheck ;;
  try_catch
    (ps <- Product_find_active ;;
     for_each 0 ps ;;
     console_log PriceCheckCompleted)
    (fun message => console_error (PriceCheckError message)).

(** The answer of a route: a status and a JSON body. *)
Inductive Body : Type :=
| ErrorBody (error : string)
| ProductBody (product : Product.t)
| MessageBody (message : string).

Definition Response : Type := (Z * Body)%type.

(** [new Product({ ... })] in the registration route; the schema defaults
    fill [isActive], [createdAt], [lastChecked] and the date of the first
    price point. *)
Definition new_Product (k : nat) (userId : ObjectId) (url : string)
  (targetPrice : option JS.number) (price : JS.number) (d : Scraped.t)
  : Product.t :=
  {| Product._id := new_ObjectId w k;
     Product.userId := userId;
     Product.url := url;
     Product.title := Scraped.title d;
     Product.currentPrice := price;
     Product.targetPrice := targetPrice;
     Product.image := Scraped.image d;
     Product.store := Scraped.store d;
     Product.priceHistory :=
       [ {| PricePoint.price := price; PricePoint.date := Date_now w k |} ];
     Product.isActive := true;
     Product.createdAt := Date_now w k;
     Product.lastChecked := Date_now w k |}.

Definition unable_to_scrape : string :=
  "Unable to scrape product data. Please check the URL.".

(** [app.post('/api/products')], behind [authenticateToken]: [userId] is
    [req.user.userId], [url] and [targetPrice] come from the body;
    [targetPrice] is [None] when the body has none or [null], which both
    leave the new product without a target. *)
Definition post_api_products (k : nat) (userId : ObjectId) (url : string)
  (targetPrice : option JS.number) : Eff Response :=
  try_catch
    (scrapedData <- scrapePrice k url ;;
     match usable_price scrapedData, scrapedData with
     | Some price, Some d =>
         let product := new_Product k userId url targetPrice price d in
         save_new k product ;;
         ret (201%Z, ProductBody product)
     | _, _ => ret (400%Z, ErrorBody unable_to_scrape)
     end)
    (fun message => ret (500%Z, ErrorBody message)).

(** [Product.findOneAndUpdate({ _id: id, userId }, update, { new: true })]:
    the first document of that id and owner is updated and returned. *)
Fixpoint update_first (id userId : ObjectId) (f : Product.t -> Product.t)
  (l : list Product.t) : option Product.t * list Product.t :=
  match l with
  | [] => (None, [])
  | p :: r =>
      if ((Product._id p =? id) && (Product.userId p =? userId))%nat
      then (Some (f p), f p :: r)
      else let '(found, r') := update_first id userId f r in (found, p :: r')
  end.

Definition Product_findOneAndUpdate (k : nat) (id userId : ObjectId)
  (f : Product.t -> Product.t) : Eff (option Product.t) :=
  fun db =>
    match save_rejects w k with
    | Some message => (Thrown message, db, [])
    | None =>
        let '(found, ps) := update_first id userId f (products db) in
        (Returned found, set_products ps db, [])
    end.

Definition found_or_404 (found : option Product.t) (body : Product.t -> Body)
  : Response :=
  match found with
  | Some product => (200%Z, body product)
  | None => (404%Z, ErrorBody "Product not found")
  end.

(** [app.put('/api/products/:id')], for a body whose [targetPrice], when
    it has one, is a number or [null]. *)
Definition put_api_products_id (k : nat) (userId id : ObjectId)
  (targetPrice : Field JS.number) : Eff Response :=
  try_catch
    (product <- Product_findOneAndUpdate k id userId
                  (update_targetPrice targetPrice) ;;
     ret (found_or_404 product ProductBody))
    (fun message => ret (500%Z, ErrorBody message)).

(** [app.delete('/api/products/:id')] *)
Definition delete_api_products_id (k : nat) (userId id : ObjectId)
  : Eff Response :=
  try_catch
    (product <- Product_findOneAndUpdate k id userId
                  (Product.set_isActive false) ;;
     ret (found_or_404 product
            (fun _ => MessageBody "Product removed from tracking")))
    (fun message => ret (500%Z, ErrorBody message)).

End Program.

(* ===================================================================== *)
(** * Vocabulary of the statements *)
(* ===================================================================== *)

Definition result_of {A} (x : Outcome A * DB * list Event) : Outcome A :=
  fst (fst x).
Definition db_of {A} (x : Outcome A * DB * list Event) : DB := snd (fst x).
Definition trace_of {A} (x : Outcome A * DB * list Event) : list Event :=
  snd x.

(** What [scrapePrice] returns in world [w] for request [k]. *)
Definition scraped (w : World) (k : nat) (url : string) : option Scraped.t :=
  match axios_get w k url with
  | inl doc => Some (extract url doc)
  | inr _ => None
  end.

(** The document of a given id, as stored. *)
Definition stored (id : ObjectId) (db : DB) : option Product.t :=
  find (fun p => (Product._id p =? id)%nat) (products db).

Definition ids (db : DB) : list ObjectId := map Product._id (products db).

(** The products a sweep goes through, in order. *)
Definition active (db : DB) : list Product.t :=
  filter Product.isActive (products db).

Definition is_delay (e : Event) : bool :=
  match e with SetTimeout _ => true | _ => false end.

Definition is_get (e : Event) : bool :=
  match e with Get _ => true | _ => false end.


Definition is_notify (e : Event) : bool :=
  match e with Notify _ _ _ _ => true | _ => false end.

Definition count (f : Event -> bool) (t : list Event) : nat :=
  List.length (filter f t).

(** The URL includes none of the five host fragments [scrapePrice] knows. *)
Definition unrecognized_store (url : string) : bool :=
  negb (JS.includes url "amazon." || JS.includes url "ebay."
        || JS.includes url "walmart." || JS.includes url "bestbuy."
        || JS.includes url "target.").

(** One request served by the program changes the database. *)
Inductive step : DB -> DB -> Prop :=
| step_register w k userId url targetPrice db :
    step db (db_of (post_api_products w k userId url targetPrice db))
| step_retarget w k userId id targetPrice db :
    step db (db_of (put_api_products_id w k userId id targetPrice db))
| step_remove w k userId id db :
    step db (db_of (delete_api_products_id w k userId id db))
| step_sweep w db :
    step db (db_of (checkPrices w db)).

(** The databases the program can bring about, from an empty collection
    of products. *)
Inductive reachable : DB -> Prop :=
| reachable_empty us : reachable {| products := []; users := us |}
| reachable_step db db' : reachable db -> step db db' -> reachable db'.

(** The history bound of the specification. *)
Definition history_bounded (p : Product.t) : Prop :=
  (1 <= List.length (Product.priceHistory p) <= 30)%nat.


(** The database after the sweeps of the worlds [ws], one after the
    other. *)
Definition sweeps (ws : list World) (db : DB) : DB :=
  fold_left (fun db w => db_of (checkPrices w db)) ws db.

(** A string of decimal digits; a string of digits and dots. *)
Fixpoint only_digits (s : string) : bool :=
  match s with
  | EmptyString => true
  | String c r => JS.is_digit c && only_digits r
  end.

Fixpoint only_numeric (s : string) : bool :=
  match s with
  | EmptyString => true
  | String c r => (JS.is_digit c || JS.is_dot c) && only_numeric r
  end.

(** A Number that is finite and not negative. *)
Definition nonneg_decimal (n : JS.number) : Prop :=
  match n with
  | JS.Fin q => 0 <= q
  | _ => False
  end.

(** A value a Number can take: [NaN], an infinity, or a rational that is
    a binary64 value, written in lowest terms. *)
Definition binary64 (n : JS.number) : Prop :=
  match n with
  | JS.Fin q => JS.round64 q = JS.Fin q
  | _ => True
  end.


(** ** The runs of the program, spelled out *)

(** The price a sweep or a registration goes on with: what request [k]
    scraped for the product, when both callers accept it. *)
Definition new_price (w : World) (k : nat) (url : string) : option JS.number :=
  usable_price (scraped w k url).

Definition scrape_trace (w : World) (k : nat) (url : string) : list Event :=
  Get url ::
  match axios_get w k url with
  | inl _ => []
  | inr message => [ConsoleError (ScrapingError message)]
  end.

Definition notification_trace (w : World) (k : nat) (user : User.t)
  (product : Product.t) (oldPrice newPrice : JS.number) : list Event :=
  Notify user product oldPrice newPrice ::
  if User.notifications user then
    SendMail (mailOptions user product oldPrice newPrice) ::
    match sendMail_rejects w k with
    | None => [ConsoleLog (NotificationSentTo (User.email user))]
    | Some message => [ConsoleError (EmailError message)]
    end
  else [].

(** The user record of the owner of a product. *)
Definition owner (db : DB) (product : Product.t) : option User.t :=
  find (fun u => (User._id u =? Product.userId product)%nat) (users db).

Definition after_save_trace (w : World) (k : nat) (db : DB)
  (product : Product.t) (oldPrice newPrice : JS.number) : list Event :=
  let done :=
    [ConsoleLog (Updated (Product.title product) oldPrice newPrice);
     SetTimeout 2000] in
  if price_dropped_below_target product oldPrice newPrice then
    match findById_rejects w k with
    | Some message =>
        [ConsoleError (ErrorChecking (Product.title product) message)]
    | None =>
        match owner db product with
        | Some user =>
            notification_trace w k user product oldPrice newPrice ++ done
        | None => done
        end
    end
  else done.

(** What [check_product] leaves in the trace and in the database. *)
Definition check_trace (w : World) (k : nat) (product : Product.t) (db : DB)
  : list Event :=
  scrape_trace w k (Product.url product) ++
  match new_price w k (Product.url product) with
  | None => [SetTimeout 2000]
  | Some newPrice =>
      match save_rejects w k with
      | Some message =>
          [ConsoleError (ErrorChecking (Product.title product) message)]
      | None =>
          after_save_trace w k db
            (observe newPrice (Date_now w k) product)
            (Product.currentPrice product) newPrice
      end
  end.

(** The document the [k]-th step of a sweep leaves stored for its
    product: the observed one when a price was accepted and saved. *)
Definition swept (w : World) (k : nat) (product : Product.t) : Product.t :=
  match new_price w k (Product.url product), save_rejects w k with
  | Some newPrice, None => observe newPrice (Date_now w k) product
  | _, _ => product
  end.

Definition saved (w : World) (k : nat) (product : Product.t) : bool :=
  match new_price w k (Product.url product), save_rejects w k with
  | Some _, None => true
  | _, _ => false
  end.

Definition check_db (w : World) (k : nat) (product : Product.t) (db : DB)
  : DB :=
  if saved w k product
  then set_products (replace_by_id (swept w k product) (products db)) db
  else db.

Fixpoint sweep_db (w : World) (k : nat) (ps : list Product.t) (db : DB) : DB :=
  match ps with
  | [] => db
  | p :: r => sweep_db w (S k) r (check_db w k p db)
  end.

Fixpoint sweep_trace (w : World) (k : nat) (ps : list Product.t) (db : DB)
  : list Event :=
  match ps with
  | [] => []
  | p :: r => check_trace w k p db ++ sweep_trace w (S k) r (check_db w k p db)
  end.

(** What the sweeps of [ws] observe of the product at position [i] among
    the active ones, whose URL is [url]: one point for each sweep that
    found the products, got a usable price and saved it. *)
Definition observations (ws : list World) (i : nat) (url : string)
  : list PricePoint.t :=
  flat_map
    (fun w =>
       match find_rejects w, new_price w i url, save_rejects w i with
       | None, Some n, None =>
           [ {| PricePoint.price := n; PricePoint.date := Date_now w i |} ]
       | _, _, _ => []
       end)
    ws.

(** The notification rule of the specification, for a product as it was
    before the update and the newly observed price: a target is set, the
    new price is at most the target, and it is below the old price. *)
Definition qualifies (product : Product.t) (newPrice : JS.number) : Prop :=
  (exists target,
      Product.targetPrice product = Some target
      /\ JS.le newPrice target = true)
  /\ JS.lt newPrice (Product.currentPrice product) = true.

(** A fetch or extraction failure for request [k]: the request throws, or
    the page yields a [null] price. *)
Definition scrape_failed (w : World) (k : nat) (url : string) : Prop :=
  (exists message, axios_get w k url = inr message)
  \/ (exists doc,
        axios_get w k url = inl doc
        /\ Scraped.price (extract url doc) = None).

(** Whether the [k]-th step of a sweep calls [sendNotification], given
    the price [newPrice] it observed. *)
Definition notified (w : World) (k : nat) (db : DB) (product : Product.t)
  (newPrice : JS.number) : bool :=
  match save_rejects w k, findById_rejects w k, owner db product with
  | None, None, Some _ =>
      price_dropped_below_target
        (observe newPrice (Date_now w k) product)
        (Product.currentPrice product) newPrice
  | _, _, _ => false
  end.

(* ===================================================================== *)
(** * Sample data *)
(* ===================================================================== *)

Module Sample.

Local Open Scope nat_scope.

(** An eBay page whose price element reads [price]. *)
Definition page (price : string) : Cheerio.Document :=
  {| Cheerio.text := fun s =>
       match s with
       | Cheerio.select css =>
           if String.eqb css ".price-current" then price
           else if String.eqb css ".x-item-title-label" then " Desk lamp "
           else EmptyString
       | _ => EmptyString
       end;
     Cheerio.attr := fun _ _ => None |}.

Definition lamp : string := "https://www.ebay.com/itm/1".
Definition chair : string := "https://www.ebay.com/itm/2".
Definition laptop : string := "https://www.ebay.com/itm/3".
Definition elsewhere : string := "https://shop.example.com/p/1".

Definition item (id : ObjectId) (url : string) (price : Z)
  (target : option Z) : Product.t :=
  {| Product._id := id;
     Product.userId := 7;
     Product.url := url;
     Product.title := "Desk lamp";
     Product.currentPrice := JS.of_Z price;
     Product.targetPrice := option_map JS.of_Z target;
     Product.image := EmptyString;
     Product.store := "eBay";
     Product.priceHistory :=
       [ {| PricePoint.price := JS.of_Z price; PricePoint.date := 0%Z |} ];
     Product.isActive := true;
     Product.createdAt := 0%Z;
     Product.lastChecked := 0%Z |}.

Definition alice (notifications : bool) : User.t :=
  {| User._id := 7; User.username := "alice";
     User.email := "alice@example.org";
     User.notifications := notifications |}.

Definition item1 : Product.t := item 1 lamp 100 (Some 90%Z).
Definition item2 : Product.t := item 2 chair 50 None.
Definition item3 : Product.t := item 3 laptop 1500 None.

Definition db (us : list User.t) : DB :=
  {| products := [item1; item2; item3]; users := us |}.

(** The lamp now costs $85.00, the request for the chair times out, the
    laptop now costs $1,299.99. *)
Definition responses (k : nat) (url : string) : Cheerio.Document + string :=
  match k with
  | 0 => inl (page "$85.00")
  | 1 => inr "timeout of 10000ms exceeded"
  | _ => inl (page "$1,299.99")
  end.

Definition never (k : nat) : option string := None.

Definition world (get : nat -> string -> Cheerio.Document + string)
  (save mail : nat -> option string) : World :=
  {| axios_get := get;
     Date_now := fun k => (1000 + Z.of_nat k)%Z;
     new_ObjectId := fun k => 100 + k;
     find_rejects := None;
     save_rejects := save;
     findById_rejects := never;
     sendMail_rejects := mail |}.

(** The world of the three requests above, where nothing else fails. *)
Definition calm : World := world responses never never.

(** The same, with a mail channel that is down. *)
Definition mail_down : World :=
  world responses never (fun _ => Some "connect ECONNREFUSED").

(** Every page shows $85.00, and the database refuses the first two
    writes. *)
Definition writes_refused : World :=
  world (fun _ _ => inl (page "$85.00"))
        (fun k => if (k <? 2)%nat then Some "write failed" else None) never.

(** A world where every page shows the given price text. *)
Definition showing (price : string) : World :=
  world (fun _ _ => inl (page price)) never never.

(** 1299.99 as a Number: the binary64 value nearest to it. *)
Definition laptop_price : JS.number :=
  JS.Fin (5717416483970089 # 4398046511104).

(** A world whose clock reads [t] at the first product, where every page
    shows the given price text and nothing fails. *)
Definition at_time (t : Z) (price : string) : World :=
  {| axios_get := fun _ _ => inl (page price);
     Date_now := fun k => (t + Z.of_nat k)%Z;
     new_ObjectId := fun k => 100 + k;
     find_rejects := None;
     save_rejects := never;
     findById_rejects := never;
     sendMail_rejects := never |}.

(** Thirty-one sweeps, at the times 2001 to 2031. *)
Definition month : list World :=
  map (fun j => at_time (2000 + Z.of_nat j)%Z "$85.00") (seq 1 31).

(** The lamp as registration leaves it in an empty collection, at time
    1000 and at the price 85. *)
Definition registered_lamp : DB :=
  db_of (post_api_products calm 0 7 lamp None
           {| products := []; users := [] |}).

(** The document registration made of the lamp. *)
Definition fresh_lamp : Product.t :=
  {| Product._id := 100;
     Product.userId := 7;
     Product.url := lamp;
     Product.title := "Desk lamp";
     Product.currentPrice := JS.of_Z 85;
     Product.targetPrice := None;
     Product.image := EmptyString;
     Product.store := "eBay";
     Product.priceHistory :=
       [ {| PricePoint.price := JS.of_Z 85; PricePoint.date := 1000%Z |} ];
     Product.isActive := true;
     Product.createdAt := 1000%Z;
     Product.lastChecked := 1000%Z |}.

(** A price text of [n] nines. *)
Fixpoint nines (n : nat) : string :=
  match n with
  | O => EmptyString
  | S k => String "9" (nines k)
  end.

End Sample.

(* ===================================================================== *)
(** * Further vocabulary: sweeps *)
(* ===================================================================== *)

(** The URLs requested, the delays taken and the mails handed to the
    transporter, in order of occurrence. *)
Definition requests (t : list Event) : list string :=
  flat_map (fun e => match e with Get url => [url] | _ => [] end) t.

Definition delays (t : list Event) : list Z :=
  flat_map (fun e => match e with SetTimeout ms => [ms] | _ => [] end) t.

Definition mails (t : list Event) : list MailOptions :=
  flat_map (fun e => match e with SendMail m => [m] | _ => [] end) t.

(** Two documents that differ at most in the three fields a sweep
    assigns. *)
Definition same_apart_from_price (p p' : Product.t) : Prop :=
  Product._id p' = Product._id p
  /\ Product.userId p' = Product.userId p
  /\ Product.url p' = Product.url p
  /\ Product.title p' = Product.title p
  /\ Product.targetPrice p' = Product.targetPrice p
  /\ Product.image p' = Product.image p
  /\ Product.store p' = Product.store p
  /\ Product.isActive p' = Product.isActive p
  /\ Product.createdAt p' = Product.createdAt p.

(** The collection after a sweep, document by document: the active ones
    are counted from [k] and each is left as its own step leaves it. *)
Fixpoint sweep_list (w : World) (k : nat) (l : list Product.t)
  : list Product.t :=
  match l with
  | [] => []
  | p :: r =>
      if Product.isActive p
      then swept w k p :: sweep_list w (S k) r
      else p :: sweep_list w k r
  end.

(** A sweep in which no database call of a step throws. *)
Definition nothing_throws (w : World) : Prop :=
  (forall k, save_rejects w k = None)
  /\ (forall k, findById_rejects w k = None).

(* ===================================================================== *)
(** * Further vocabulary: what holds of every tracked product *)
(* ===================================================================== *)

(** A finite, positive Number: a binary64 value above zero. *)
Definition positive (n : JS.number) : Prop :=
  exists q, n = JS.Fin q /\ 0 < q /\ JS.round64 q = JS.Fin q.

(** A Number above zero, [Infinity] included. *)
Definition above_zero (n : JS.number) : Prop :=
  JS.lt (JS.Fin 0) n = true /\ binary64 n.

Definition prices_above_zero (p : Product.t) : Prop :=
  above_zero (Product.currentPrice p)
  /\ Forall (fun o => above_zero (PricePoint.price o)) (Product.priceHistory p).

Definition prices_positive (p : Product.t) : Prop :=
  positive (Product.currentPrice p)
  /\ Forall (fun o => positive (PricePoint.price o)) (Product.priceHistory p).

(** The last point of the history carries the current price. *)
Definition current_is_latest (p : Product.t) : Prop :=
  exists older o,
    Product.priceHistory p = (older ++ [o])%list
    /\ PricePoint.price o = Product.currentPrice p.

(** The store [scrapePrice] assigns to a URL: the first of the five host
    fragments it includes decides. *)
Definition store_label (url : string) : option string :=
  if JS.includes url "amazon." then Some "Amazon"
  else if JS.includes url "ebay." then Some "eBay"
  else if JS.includes url "walmart." then Some "Walmart"
  else if JS.includes url "bestbuy." then Some "Best Buy"
  else if JS.includes url "target." then Some "Target"
  else None.

Definition store_recognized (p : Product.t) : Prop :=
  store_label (Product.url p) = Some (Product.store p)
  /\ Product.title p <> EmptyString.

(* ===================================================================== *)
(** * The read routes and the analytics *)
(* ===================================================================== *)

(** The answer of a route whose body is not one of [Body]: a status with
    the JSON payload, or with the message of [{ error }]. *)
Definition Answer (A : Type) : Type := (Z * (A + string))%type.

Module BestDeal.
(** The [bestDeal] object of the savings analytics. *)
Record t : Type := {
  title : string;
  originalPrice : JS.number;
  currentPrice : JS.number;
  savings : JS.number;
  savingsPercent : JS.number
}.
End BestDeal.

(** The three variables the analytics loop updates. *)
Record Tally : Type := {
  totalSavings : JS.number;
  bestDeal : option BestDeal.t;
  bestDealSavings : JS.number
}.

Definition no_savings : Tally :=
  {| totalSavings := JS.Fin 0; bestDeal := None; bestDealSavings := JS.Fin 0 |}.

(** The body of [products.forEach] in the savings analytics. *)
Definition tally (acc : Tally) (product : Product.t) : Tally :=
  if (1 <? List.length (Product.priceHistory product))%nat then
    match Product.priceHistory product with
    | first :: _ =>
        let originalPrice := PricePoint.price first in
        let currentPrice := Product.currentPrice product in
        let savings := JS.sub originalPrice currentPrice in
        if JS.lt (JS.Fin 0) savings then
          let total := JS.add (totalSavings acc) savings in
          if JS.lt (bestDealSavings acc) savings then
            {| totalSavings := total;
               bestDeal :=
                 Some {| BestDeal.title := Product.title product;
                         BestDeal.originalPrice := originalPrice;
                         BestDeal.currentPrice := currentPrice;
                         BestDeal.savings := savings;
                         BestDeal.savingsPercent :=
                           JS.Math_round
                             (JS.mul (JS.div savings originalPrice)
                                     (JS.of_Z 100)) |};
               bestDealSavings := savings |}
          else
            {| totalSavings := total;
               bestDeal := bestDeal acc;
               bestDealSavings := bestDealSavings acc |}
        else acc
    | [] => acc
    end
  else acc.

(** The JSON of the savings analytics; [totalSavings] is the string
    [toFixed(2)] makes of the total. *)
Record SavingsReport : Type := {
  report_totalSavings : piece;
  trackedProducts : nat;
  report_bestDeal : option BestDeal.t
}.

Definition savings_report (ps : list Product.t) : SavingsReport :=
  let t := fold_left tally ps no_savings in
  {| report_totalSavings := toFixed2 (totalSavings t);
     trackedProducts := List.length ps;
     report_bestDeal := bestDeal t |}.

Section ReadRoutes.

Variable w : World.

(** [Product.find(filter)] and [Product.findOne(filter)]; they reject as
    [find_rejects] says. *)
Definition Product_find (test : Product.t -> bool) : Eff (list Product.t) :=
  fun db => settle (find_rejects w) (filter test (products db)) db.




(** [app.get('/api/analytics/savings')] *)
Definition get_api_analytics_savings (userId : ObjectId)
  : Eff (Answer SavingsReport) :=
  try_catch
    (ps <- Product_find (fun p => (Product.userId p =? userId)%nat) ;;
     ret (200%Z, inl (savings_report ps)))
    (fun message => ret (500%Z, inr message)).

End ReadRoutes.

(** The saving the analytics sees on a product: the first price of the
    history less the current price, when the history has more than one
    point. *)
Definition saving_of (p : Product.t) : option JS.number :=
  match Product.priceHistory p with
  | first :: _ :: _ =>
      Some (JS.sub (PricePoint.price first) (Product.currentPrice p))
  | _ => None
  end.

(** Not [NaN] and not below zero. *)
Definition nonneg (n : JS.number) : Prop := JS.le (JS.Fin 0) n = true.

(** What the analytics loop keeps true of its three variables: the total
    and the best saving are Numbers that are not negative, the best is at
    most the total, and the best deal, when there is one, is of that
    positive saving. *)
Definition tally_ok (acc : Tally) : Prop :=
  nonneg (totalSavings acc)
  /\ binary64 (totalSavings acc)
  /\ nonneg (bestDealSavings acc)
  /\ JS.le (bestDealSavings acc) (totalSavings acc) = true
  /\ match bestDeal acc with
     | None =>
         totalSavings acc = JS.Fin 0 /\ bestDealSavings acc = JS.Fin 0
     | Some b =>
         BestDeal.savings b = bestDealSavings acc
         /\ JS.lt (JS.Fin 0) (bestDealSavings acc) = true
     end.

(** The best deal the analytics makes of a product. *)
Definition deal_of (p : Product.t) (first : PricePoint.t) : BestDeal.t :=
  let savings := JS.sub (PricePoint.price first) (Product.currentPrice p) in
  {| BestDeal.title := Product.title p;
     BestDeal.originalPrice := PricePoint.price first;
     BestDeal.currentPrice := Product.currentPrice p;
     BestDeal.savings := savings;
     BestDeal.savingsPercent :=
       JS.Math_round
         (JS.mul (JS.div savings (PricePoint.price first)) (JS.of_Z 100)) |}.

Module Tracked.

(** The sample collection after the sweep of [Sample.calm]: the lamp went
    from 100 to 85 and the laptop from 1500 to 1299.99. *)
Definition db : DB := db_of (checkPrices Sample.calm (Sample.db [])).

Definition lamp : Product.t := observe (JS.of_Z 85) 1000%Z Sample.item1.

Definition report : SavingsReport := savings_report (products db).

(** A product tracked from 1.001 whose price is now 1. *)
Definition trinket : Product.t :=
  {| Product._id := 9%nat;
     Product.userId := 7%nat;
     Product.url := Sample.lamp;
     Product.title := "Trinket";
     Product.currentPrice := JS.of_Z 1;
     Product.targetPrice := None;
     Product.image := EmptyString;
     Product.store := "eBay";
     Product.priceHistory :=
       [ {| PricePoint.price := JS.parseFloat "1.001";
            PricePoint.date := 0%Z |};
         {| PricePoint.price := JS.of_Z 1; PricePoint.date := 1%Z |} ];
     Product.isActive := true;
     Product.createdAt := 0%Z;
     Product.lastChecked := 1%Z |}.

End Tracked.

(* ===================================================================== *)
(** * Accounts and the token middleware *)
(* ===================================================================== *)

Module Account.
(** A document of the User collection with everything [userSchema] has:
    the fields of [User.t], the stored password and the creation date. *)
Record t : Type := {
  user : User.t;
  password : string;
  createdAt : Date
}.
Definition email (a : t) : string := User.email (user a).
Definition username (a : t) : string := User.username (user a).
Definition _id (a : t) : ObjectId := User._id (user a).
End Account.

(** What the account routes and the middleware call outside the program,
    at one request: bcrypt, which draws a salt and rejects what it cannot
    hash or compare; jsonwebtoken with the configured secret, which stamps
    the payload with the time of issue [jwt_now]; and the outcome of the
    calls on the User collection. *)
Record Crypto : Type := {
  bcrypt_hash : option string -> Outcome string;
  bcrypt_compare : option string -> string -> Outcome bool;
  jwt_sign : ObjectId -> Date -> string;
  jwt_verify : string -> option ObjectId;
  jwt_now : Date;
  user_ObjectId : ObjectId;
  user_createdAt : Date;
  findOne_rejects : option string;
  user_save_rejects : option string
}.

(** The JSON both account routes answer with:
    [{ token, user: { id, username, email } }]. *)
Record Session : Type := {
  token : string;
  session_id : ObjectId;
  session_username : string;
  session_email : string
}.

(** [app.post('/api/auth/register')]: the answer and the collection
    after it, for a body whose [username] and [email] are strings;
    [password] is [None] when the body has none or one that is not a
    string. *)
Definition post_api_auth_register (c : Crypto)
  (username email : string) (password : option string)
  (accounts : list Account.t) : Answer Session * list Account.t :=
  match findOne_rejects c with
  | Some message => ((500%Z, inr message), accounts)
  | None =>
      match find (fun a => String.eqb (Account.email a) email
                           || String.eqb (Account.username a) username)
                 accounts with
      | Some _ => ((400%Z, inr "User already exists"), accounts)
      | None =>
          match bcrypt_hash c password with
          | Thrown message => ((500%Z, inr message), accounts)
          | Returned hashedPassword =>
              let user :=
                {| Account.user :=
                     {| User._id := user_ObjectId c;
                        User.username := username;
                        User.email := email;
                        User.notifications := true |};
                   Account.password := hashedPassword;
                   Account.createdAt := user_createdAt c |} in
              match user_save_rejects c with
              | Some message => ((500%Z, inr message), accounts)
              | None =>
                  ((201%Z,
                    inl {| token := jwt_sign c (Account._id user) (jwt_now c);
                           session_id := Account._id user;
                           session_username := username;
                           session_email := email |}),
                   (accounts ++ [user])%list)
              end
          end
      end
  end.

(** [app.post('/api/auth/login')], for a body whose [email] is a string. *)
Definition post_api_auth_login (c : Crypto) (email : string)
  (password : option string) (accounts : list Account.t) : Answer Session :=
  match findOne_rejects c with
  | Some message => (500%Z, inr message)
  | None =>
      match find (fun a => String.eqb (Account.email a) email) accounts with
      | None => (400%Z, inr "Invalid credentials")
      | Some user =>
          match bcrypt_compare c password (Account.password user) with
          | Thrown message => (500%Z, inr message)
          | Returned isMatch =>
              if negb isMatch
              then (400%Z, inr "Invalid credentials")
              else
                (200%Z,
                 inl {| token := jwt_sign c (Account._id user) (jwt_now c);
                        session_id := Account._id user;
                        session_username := Account.username user;
                        session_email := Account.email user |})
          end
      end
  end.

Definition is_blank (c : ascii) : bool := Ascii.eqb c " ".

(** [s.split(' ')] *)
Fixpoint split_on_space (s : string) : list string :=
  match s with
  | EmptyString => [EmptyString]
  | String c r =>
      if is_blank c then EmptyString :: split_on_space r
      else
        match split_on_space r with
        | h :: t => String c h :: t
        | [] => [String c EmptyString]
        end
  end.

(** What the middleware does with a request: answer it, or call [next]
    with [req.user.userId] set. *)
Inductive Passage : Type :=
| Refused (status : Z) (error : string)
| Next (userId : ObjectId).

(** [authenticateToken]; [authHeader = None] is a request without the
    header. *)
Definition authenticateToken (c : Crypto) (authHeader : option string)
  : Passage :=
  let token :=
    match authHeader with
    | Some h => if JS.is_empty h then None else nth_error (split_on_space h) 1
    | None => None
    end in
  match token with
  | Some t =>
      if JS.is_empty t then Refused 401 "Access token required"
      else
        match jwt_verify c t with
        | Some userId => Next userId
        | None => Refused 403 "Invalid token"
        end
  | None => Refused 401 "Access token required"
  end.

(** The collections of accounts registration can bring about. *)
Inductive registered : list Account.t -> Prop :=
| registered_none : registered []
| registered_more c username email (password : option string) accounts :
    registered accounts ->
    registered
      (snd (post_api_auth_register c username email password accounts)).

Fixpoint no_blank (s : string) : bool :=
  match s with
  | EmptyString => true
  | String c r => negb (is_blank c) && no_blank r
  end.

Module Keys.

Fixpoint ones (n : nat) : string :=
  match n with
  | O => EmptyString
  | S k => String "1" (ones k)
  end.

Fixpoint leading_ones (s : string) : nat :=
  match s with
  | String c r => if Ascii.eqb c "1" then S (leading_ones r) else O
  | EmptyString => O
  end.

(** A toy bcrypt and jsonwebtoken for the examples.  The hash of a
    password is the password after a mark, and what is not a string is
    rejected; the token of an id is the id in unary after a mark,
    followed by the time of issue in unary. *)
Definition crypto_at (now : Date) : Crypto :=
  {| bcrypt_hash := fun p =>
       match p with
       | Some p => Returned (String "#" p)
       | None => Thrown "Illegal arguments: undefined, number"
       end;
     bcrypt_compare := fun p h =>
       match p with
       | Some p => Returned (String.eqb (String "#" p) h)
       | None => Thrown "Illegal arguments: undefined, string"
       end;
     jwt_sign := fun id iat =>
       String "j" (ones id ++ String "." (ones (Z.to_nat iat)));
     jwt_verify := fun t =>
       match t with
       | String _ r => Some (leading_ones r)
       | EmptyString => None
       end;
     jwt_now := now;
     user_ObjectId := 7%nat;
     user_createdAt := 0%Z;
     findOne_rejects := None;
     user_save_rejects := None |}.

Definition alice : Account.t :=
  {| Account.user := Sample.alice true;
     Account.password := "#secret";
     Account.createdAt := 0%Z |}.

Definition crypto : Crypto := crypto_at 2%Z.

Definition session : Session :=
  {| token := "j1111111.11";
     session_id := 7%nat;
     session_username := "alice";
     session_email := "alice@example.org" |}.

End Keys.

(* ===================================================================== *)
(** * Properties of the JavaScript layer *)
(* ===================================================================== *)

Section Pow2.

Lemma pow2_pos z : 0 < JS.pow2 z.
Proof. apply Qpower_0_lt. reflexivity. Qed.

Lemma pow2_add a b : JS.pow2 (a + b) == JS.pow2 a * JS.pow2 b.
Proof. apply Qpower_plus. discriminate. Qed.

Lemma pow2_succ a : JS.pow2 (a + 1) == 2 * JS.pow2 a.
Proof. rewrite pow2_add. change (JS.pow2 1) with 2. ring. Qed.

Lemma pow2_le a b : (a <= b)%Z -> JS.pow2 a <= JS.pow2 b.
Proof. intros H. apply Qpower_le_compat_l; [exact H | discriminate]. Qed.

Lemma pow2_lt a b : (a < b)%Z -> JS.pow2 a < JS.pow2 b.
Proof. intros H. apply Qpower_lt_compat_l; [exact H | reflexivity]. Qed.

Lemma pow2_lt_inv a b : JS.pow2 a < JS.pow2 b -> (a < b)%Z.
Proof. intros H. apply (Qpower_lt_compat_l_inv 2); [exact H | reflexivity]. Qed.

Lemma pow2_Z k : (0 <= k)%Z -> JS.pow2 k == inject_Z (2 ^ k).
Proof. intros H. symmetry. apply (Zpower_Qpower 2 k H). Qed.

End Pow2.

Section FloorLog2.

Lemma Zlog2_bounds n :
  (0 < n)%Z ->
  JS.pow2 (Z.log2 n) <= inject_Z n /\ inject_Z n < 2 * JS.pow2 (Z.log2 n).
Proof.
  intros H. destruct (Z.log2_spec n H) as [L U].
  pose proof (Z.log2_nonneg n) as N.
  split.
  - rewrite pow2_Z by exact N. now rewrite <- Zle_Qle.
  - pose proof (pow2_succ (Z.log2 n)) as S.
    rewrite (pow2_Z (Z.log2 n + 1)) in S by lia. rewrite <- S.
    rewrite <- Zlt_Qlt. now rewrite <- Z.add_1_r in U.
Qed.

Lemma floor_log2_spec q :
  0 < q ->
  JS.pow2 (JS.floor_log2 q) <= q /\ q < JS.pow2 (JS.floor_log2 q + 1).
Proof.
  intros H. unfold JS.floor_log2.
  destruct q as [n d]. cbn [Qnum Qden].
  assert (Hn : (0 < n)%Z) by (unfold Qlt in H; cbn in H; lia).
  destruct (Zlog2_bounds n Hn) as [A1 A2].
  destruct (Zlog2_bounds (Zpos d) eq_refl) as [B1 B2].
  set (a := Z.log2 n) in *. set (b := Z.log2 (Zpos d)) in *.
  pose proof (pow2_pos a) as Pa. pose proof (pow2_pos b) as Pb.
  assert (E : JS.pow2 (a - b) * JS.pow2 b == JS.pow2 a).
  { rewrite <- pow2_add. now replace (a - b + b)%Z with a by lia. }
  assert (Q : n # d == inject_Z n / inject_Z (Zpos d)) by apply Qmake_Qdiv.
  assert (D : 0 < inject_Z (Zpos d)) by reflexivity.
  pose proof (pow2_pos (a - b)) as Pe.
  assert (L : JS.pow2 (a - b - 1) < n # d).
  { rewrite Q. apply Qlt_shift_div_l; [exact D |].
    assert (X : 2 * JS.pow2 (a - b - 1) == JS.pow2 (a - b)).
    { rewrite <- pow2_succ. now replace (a - b - 1 + 1)%Z with (a - b)%Z by lia. }
    pose proof (pow2_pos (a - b - 1)) as Pe1.
    nra. }
  assert (U : n # d < JS.pow2 (a - b + 1)).
  { rewrite Q. apply Qlt_shift_div_r; [exact D |]. rewrite pow2_succ. nra. }
  destruct (Qle_bool (JS.pow2 (a - b)) (n # d)) eqn:C.
  - apply Qle_bool_iff in C. now split.
  - split; [now apply Qlt_le_weak |].
    replace (a - b - 1 + 1)%Z with (a - b)%Z by lia.
    apply Qnot_le_lt. intros C'. apply Qle_bool_iff in C'. congruence.
Qed.

Lemma floor_log2_unique q e :
  JS.pow2 e <= q -> q < JS.pow2 (e + 1) -> JS.floor_log2 q = e.
Proof.
  intros L U.
  assert (H : 0 < q) by (pose proof (pow2_pos e); lra).
  destruct (floor_log2_spec q H) as [L' U'].
  assert (JS.floor_log2 q < e + 1)%Z by (apply pow2_lt_inv; lra).
  assert (e < JS.floor_log2 q + 1)%Z by (apply pow2_lt_inv; lra).
  lia.
Qed.

Lemma floor_log2_mono p q :
  0 < p -> p <= q -> (JS.floor_log2 p <= JS.floor_log2 q)%Z.
Proof.
  intros Hp H.
  destruct (floor_log2_spec p Hp) as [L U].
  destruct (floor_log2_spec q) as [L' U']; [lra |].
  assert (JS.floor_log2 p < JS.floor_log2 q + 1)%Z by (apply pow2_lt_inv; lra).
  lia.
Qed.

Lemma floor_log2_comp p q : 0 < p -> p == q -> JS.floor_log2 p = JS.floor_log2 q.
Proof.
  intros Hp E. symmetry.
  destruct (floor_log2_spec p Hp) as [L U].
  apply floor_log2_unique; lra.
Qed.

End FloorLog2.

Section NearestEven.

Lemma nearest_even_cases q :
  (JS.nearest_even q = Qfloor q
   /\ (q - inject_Z (Qfloor q) < 1 # 2
       \/ q - inject_Z (Qfloor q) == 1 # 2 /\ Z.even (Qfloor q) = true))
  \/ (JS.nearest_even q = (Qfloor q + 1)%Z
      /\ (1 # 2 < q - inject_Z (Qfloor q)
          \/ q - inject_Z (Qfloor q) == 1 # 2 /\ Z.even (Qfloor q) = false)).
Proof.
  unfold JS.nearest_even.
  destruct (Qcompare_spec (q - inject_Z (Qfloor q)) (1 # 2)) as [E | L | G].
  - destruct (Z.even (Qfloor q)); [left | right]; auto.
  - left. auto.
  - right. auto.
Qed.

Lemma floor_bounds q : inject_Z (Qfloor q) <= q /\ q < inject_Z (Qfloor q) + 1.
Proof.
  split; [apply Qfloor_le |].
  pose proof (Qlt_floor q) as H. rewrite inject_Z_plus in H. exact H.
Qed.

Lemma nearest_even_mono p q :
  p <= q -> (JS.nearest_even p <= JS.nearest_even q)%Z.
Proof.
  intros H. pose proof (Qfloor_resp_le p q H) as F.
  destruct (floor_bounds p) as [P1 P2]. destruct (floor_bounds q) as [Q1 Q2].
  destruct (nearest_even_cases p) as [[-> Cp] | [-> Cp]];
    destruct (nearest_even_cases q) as [[-> Cq] | [-> Cq]]; try lia.
  destruct (Z.eq_dec (Qfloor p) (Qfloor q)) as [E | E]; [| lia].
  exfalso. rewrite E in *.
  destruct Cp as [Cp | [Cp Op]], Cq as [Cq | [Cq Oq]]; try lra. congruence.
Qed.

Lemma nearest_even_Z z : JS.nearest_even (inject_Z z) = z.
Proof.
  destruct (nearest_even_cases (inject_Z z)) as [[-> _] | [_ C]];
    [apply Qfloor_Z |].
  rewrite Qfloor_Z in C. exfalso. destruct C as [C | [C _]]; lra.
Qed.

Lemma nearest_even_comp p q : p == q -> JS.nearest_even p = JS.nearest_even q.
Proof.
  intros E. apply Z.le_antisymm; apply nearest_even_mono; lra.
Qed.


End NearestEven.

Section Nearest.

Lemma ulp_exponent_mono p q :
  0 < p -> p <= q -> (JS.ulp_exponent p <= JS.ulp_exponent q)%Z.
Proof.
  intros Hp H. unfold JS.ulp_exponent.
  pose proof (floor_log2_mono p q Hp H). lia.
Qed.

Lemma nearest_comp p q : 0 < p -> p == q -> JS.nearest p == JS.nearest q.
Proof.
  intros Hp E. unfold JS.nearest, JS.ulp_exponent.
  rewrite (floor_log2_comp p q Hp E).
  set (u := JS.pow2 _).
  assert (X : p / u == q / u) by now rewrite E.
  now rewrite (nearest_even_comp _ _ X).
Qed.

Lemma nearest_nonneg q : 0 < q -> 0 <= JS.nearest q.
Proof.
  intros H. unfold JS.nearest.
  set (u := JS.pow2 _). assert (U : 0 < u) by apply pow2_pos.
  apply Qmult_le_0_compat; [| lra].
  change 0 with (inject_Z 0). rewrite <- Zle_Qle.
  rewrite <- (nearest_even_Z 0). apply nearest_even_mono.
  apply Qle_shift_div_l; [exact U |]. change (inject_Z 0) with 0. lra.
Qed.

(** Scaling by the unit in the last place and back. *)
Lemma scaled_le q k u : 0 < u -> q <= inject_Z k * u -> q / u <= inject_Z k.
Proof. intros U H. apply Qle_shift_div_r; [exact U | exact H]. Qed.

Lemma scaled_ge q k u : 0 < u -> inject_Z k * u <= q -> inject_Z k <= q / u.
Proof. intros U H. apply Qle_shift_div_l; [exact U | exact H]. Qed.

Lemma nearest_le_grid q k :
  0 < q -> q <= inject_Z k * JS.pow2 (JS.ulp_exponent q) ->
  JS.nearest q <= inject_Z k * JS.pow2 (JS.ulp_exponent q).
Proof.
  intros Hq H. unfold JS.nearest.
  set (u := JS.pow2 _) in *. assert (U : 0 < u) by apply pow2_pos.
  apply Qmult_le_compat_r; [| lra]. rewrite <- Zle_Qle.
  rewrite <- (nearest_even_Z k). apply nearest_even_mono.
  now apply scaled_le.
Qed.

Lemma nearest_ge_grid q k :
  0 < q -> inject_Z k * JS.pow2 (JS.ulp_exponent q) <= q ->
  inject_Z k * JS.pow2 (JS.ulp_exponent q) <= JS.nearest q.
Proof.
  intros Hq H. unfold JS.nearest.
  set (u := JS.pow2 _) in *. assert (U : 0 < u) by apply pow2_pos.
  apply Qmult_le_compat_r; [| lra]. rewrite <- Zle_Qle.
  rewrite <- (nearest_even_Z k) at 1. apply nearest_even_mono.
  now apply scaled_ge.
Qed.

(** A power of two above the unit in the last place is on the grid. *)
Lemma pow2_on_grid e u :
  (u <= e)%Z -> JS.pow2 e == inject_Z (2 ^ (e - u)) * JS.pow2 u.
Proof.
  intros H. rewrite <- pow2_Z by lia. rewrite <- pow2_add.
  now replace (e - u + u)%Z with e by lia.
Qed.

Lemma nearest_mono p q : 0 < p -> p <= q -> JS.nearest p <= JS.nearest q.
Proof.
  intros Hp H. assert (Hq : 0 < q) by lra.
  pose proof (ulp_exponent_mono p q Hp H) as M.
  destruct (Z.eq_dec (JS.ulp_exponent p) (JS.ulp_exponent q)) as [E | E].
  - unfold JS.nearest. rewrite E.
    set (u := JS.pow2 _). assert (U : 0 < u) by apply pow2_pos.
    apply Qmult_le_compat_r; [| lra]. rewrite <- Zle_Qle.
    apply nearest_even_mono. apply Qmult_le_compat_r; [exact H |].
    apply Qlt_le_weak, Qinv_lt_0_compat, U.
  - destruct (floor_log2_spec p Hp) as [_ Up].
    destruct (floor_log2_spec q Hq) as [Lq _].
    pose proof (floor_log2_mono p q Hp H) as F.
    assert (Eq : JS.ulp_exponent q = (JS.floor_log2 q - 52)%Z)
      by (unfold JS.ulp_exponent in *; lia).
    assert (Lt : (JS.floor_log2 p < JS.floor_log2 q)%Z)
      by (unfold JS.ulp_exponent in *; lia).
    apply (Qle_trans _ (JS.pow2 (JS.floor_log2 q))).
    + rewrite (pow2_on_grid (JS.floor_log2 q) (JS.ulp_exponent p))
        by (unfold JS.ulp_exponent in *; lia).
      apply nearest_le_grid; [exact Hp |].
      rewrite <- pow2_on_grid by (unfold JS.ulp_exponent in *; lia).
      pose proof (pow2_le (JS.floor_log2 p + 1) (JS.floor_log2 q)).
      assert (JS.pow2 (JS.floor_log2 p + 1) <= JS.pow2 (JS.floor_log2 q))
        by (apply pow2_le; lia).
      lra.
    + rewrite (pow2_on_grid (JS.floor_log2 q) (JS.ulp_exponent q)) by lia.
      apply nearest_ge_grid; [exact Hq |].
      rewrite <- pow2_on_grid by lia. exact Lq.
Qed.

(** A number of at most 53 significant bits, on a grid that is not finer
    than the least one, is its own nearest. *)
Lemma nearest_exact m w :
  (0 < m < 2 ^ 53)%Z -> (-1074 <= w)%Z ->
  JS.nearest (inject_Z m * JS.pow2 w) == inject_Z m * JS.pow2 w.
Proof.
  intros Hm Hw. set (v := inject_Z m * JS.pow2 w).
  pose proof (pow2_pos w) as W.
  assert (M : 0 < inject_Z m) by (change 0 with (inject_Z 0); rewrite <- Zlt_Qlt; lia).
  assert (V : 0 < v) by (unfold v; nra).
  destruct (Zlog2_bounds m (proj1 Hm)) as [L U].
  assert (B : (Z.log2 m < 53)%Z) by (apply Z.log2_lt_pow2; lia).
  pose proof (Z.log2_nonneg m) as N.
  assert (F : JS.floor_log2 v = (Z.log2 m + w)%Z).
  { apply floor_log2_unique.
    - rewrite pow2_add. unfold v. nra.
    - replace (Z.log2 m + w + 1)%Z with ((Z.log2 m + 1) + w)%Z by lia.
      rewrite pow2_add, pow2_succ. unfold v. nra. }
  unfold JS.nearest. fold v.
  assert (G : (JS.ulp_exponent v <= w)%Z) by (unfold JS.ulp_exponent; lia).
  set (u := JS.ulp_exponent v) in *.
  assert (X : v / JS.pow2 u == inject_Z (m * 2 ^ (w - u))).
  { unfold v. rewrite (pow2_on_grid w u G), inject_Z_mult.
    pose proof (pow2_pos u). field. lra. }
  rewrite (nearest_even_comp _ _ X), nearest_even_Z, inject_Z_mult.
  unfold v. rewrite (pow2_on_grid w u G). ring.
Qed.

End Nearest.

Section Round64.

Lemma round64_comp p q : p == q -> JS.round64 p = JS.round64 q.
Proof. intros E. unfold JS.round64. now rewrite (Qred_complete _ _ E). Qed.

Lemma is_zero_false q : ~ q == 0 -> JS.is_zero q = false.
Proof.
  intros H. unfold JS.is_zero. destruct (Qeq_bool q 0) eqn:E; [| reflexivity].
  apply Qeq_bool_eq in E. contradiction.
Qed.

Lemma Qltb_true p q : JS.Qltb p q = true <-> p < q.
Proof.
  unfold JS.Qltb. rewrite negb_true_iff. split.
  - intros H. apply Qnot_le_lt. intros L. apply Qle_bool_iff in L. congruence.
  - intros H. destruct (Qle_bool q p) eqn:E; [| reflexivity].
    apply Qle_bool_iff in E. exfalso. exact (Qlt_not_le _ _ H E).
Qed.

Lemma Qltb_false p q : JS.Qltb p q = false <-> q <= p.
Proof.
  unfold JS.Qltb. rewrite negb_false_iff. apply Qle_bool_iff.
Qed.

Lemma Qle_bool_false p q : Qle_bool p q = false <-> q < p.
Proof.
  split.
  - intros H. apply Qnot_le_lt. intros L. apply Qle_bool_iff in L. congruence.
  - intros H. destruct (Qle_bool p q) eqn:E; [| reflexivity].
    apply Qle_bool_iff in E. exfalso. exact (Qlt_not_le _ _ H E).
Qed.

Lemma round64_zero q : q == 0 -> JS.round64 q = JS.Fin 0.
Proof. intros E. now rewrite (round64_comp q 0 E). Qed.

(** Rounding a positive rational: overflow to [Infinity], or the nearest
    binary64 value. *)
Lemma round64_pos q :
  0 < q ->
  JS.round64 q
  = if Qle_bool (JS.pow2 1024) (JS.nearest q) then JS.Infinity false
    else JS.Fin (Qred (JS.nearest q)).
Proof.
  intros H. unfold JS.round64.
  pose proof (Qred_correct q) as R.
  rewrite is_zero_false by lra.
  assert (L : JS.Qltb (Qred q) 0 = false) by (apply Qltb_false; lra).
  rewrite L.
  assert (A : Qabs (Qred q) == q) by (rewrite Qabs_pos; lra).
  assert (N : JS.nearest (Qabs (Qred q)) == JS.nearest q)
    by (apply nearest_comp; lra).
  rewrite (Qred_complete _ _ N).
  destruct (Qle_bool (JS.pow2 1024) (JS.nearest q)) eqn:C.
  - apply Qle_bool_iff in C.
    assert (C' : Qle_bool (JS.pow2 1024) (JS.nearest (Qabs (Qred q))) = true)
      by (apply Qle_bool_iff; lra).
    now rewrite C'.
  - apply Qle_bool_false in C.
    assert (C' : Qle_bool (JS.pow2 1024) (JS.nearest (Qabs (Qred q))) = false)
      by (apply Qle_bool_false; lra).
    now rewrite C'.
Qed.

Lemma round64_neg q :
  q < 0 ->
  JS.round64 q
  = if Qle_bool (JS.pow2 1024) (JS.nearest (- q)) then JS.Infinity true
    else JS.Fin (Qred (- JS.nearest (- q))).
Proof.
  intros H. unfold JS.round64.
  pose proof (Qred_correct q) as R.
  rewrite is_zero_false by lra.
  assert (L : JS.Qltb (Qred q) 0 = true) by (apply Qltb_true; lra).
  rewrite L.
  assert (A : Qabs (Qred q) == - q) by (rewrite Qabs_neg; lra).
  assert (N : JS.nearest (Qabs (Qred q)) == JS.nearest (- q))
    by (apply nearest_comp; [rewrite A; lra | exact A]).
  assert (N' : - JS.nearest (Qabs (Qred q)) == - JS.nearest (- q))
    by now rewrite N.
  rewrite (Qred_complete _ _ N').
  destruct (Qle_bool (JS.pow2 1024) (JS.nearest (- q))) eqn:C.
  - apply Qle_bool_iff in C.
    assert (C' : Qle_bool (JS.pow2 1024) (JS.nearest (Qabs (Qred q))) = true)
      by (apply Qle_bool_iff; lra).
    now rewrite C'.
  - apply Qle_bool_false in C.
    assert (C' : Qle_bool (JS.pow2 1024) (JS.nearest (Qabs (Qred q))) = false)
      by (apply Qle_bool_false; lra).
    now rewrite C'.
Qed.

(** The sign of a rounded number is that of the rational it rounds. *)
Lemma round64_cases q :
  (q == 0 /\ JS.round64 q = JS.Fin 0)
  \/ (0 < q
      /\ (JS.pow2 1024 <= JS.nearest q /\ JS.round64 q = JS.Infinity false
          \/ JS.nearest q < JS.pow2 1024
             /\ JS.round64 q = JS.Fin (Qred (JS.nearest q))))
  \/ (q < 0
      /\ (JS.pow2 1024 <= JS.nearest (- q) /\ JS.round64 q = JS.Infinity true
          \/ JS.nearest (- q) < JS.pow2 1024
             /\ JS.round64 q = JS.Fin (Qred (- JS.nearest (- q))))).
Proof.
  destruct (Q_dec q 0) as [[N | P] | Z].
  - right. right. split; [exact N |]. rewrite (round64_neg q N).
    destruct (Qle_bool _ _) eqn:C;
      [left; apply Qle_bool_iff in C | right; apply Qle_bool_false in C];
      now split.
  - right. left. split; [exact P |]. rewrite (round64_pos q P).
    destruct (Qle_bool _ _) eqn:C;
      [left; apply Qle_bool_iff in C | right; apply Qle_bool_false in C];
      now split.
  - left. split; [exact Z | now apply round64_zero].
Qed.

(** Rounding is monotone. *)
Lemma round64_mono p q : p <= q -> JS.le (JS.round64 p) (JS.round64 q) = true.
Proof.
  intros H.
  destruct (round64_cases p)
    as [[Zp ->] | [[Pp [[Op ->] | [Fp ->]]] | [Np [[Op ->] | [Fp ->]]]]];
    destruct (round64_cases q)
      as [[Zq ->] | [[Pq [[Oq ->] | [Fq ->]]] | [Nq [[Oq ->] | [Fq ->]]]]];
    cbn [JS.le]; try reflexivity; try (exfalso; lra);
    try apply Qle_bool_iff; rewrite ?Qred_correct;
    try (pose proof (nearest_nonneg p); pose proof (nearest_nonneg q);
         pose proof (nearest_nonneg (- p)); pose proof (nearest_nonneg (- q));
         lra).
  - pose proof (nearest_mono p q Pp H). exfalso. lra.
  - now apply nearest_mono.
  - pose proof (nearest_mono (- q) (- p)). exfalso. lra.
  - pose proof (nearest_mono (- q) (- p)). lra.
Qed.

(** What rounding yields, when finite, rounds to itself. *)
Lemma nearest_idem q : 0 < q -> 0 < JS.nearest q ->
  JS.nearest (JS.nearest q) == JS.nearest q.
Proof.
  intros Hq Hv.
  destruct (floor_log2_spec q Hq) as [_ U].
  set (u := JS.ulp_exponent q).
  assert (Hu : (-1074 <= u)%Z) by (unfold u, JS.ulp_exponent; lia).
  assert (B : q <= inject_Z (2 ^ 53) * JS.pow2 u).
  { rewrite <- pow2_Z, <- pow2_add by lia.
    assert (JS.pow2 (JS.floor_log2 q + 1) <= JS.pow2 (53 + u))
      by (apply pow2_le; unfold u, JS.ulp_exponent; lia).
    lra. }
  pose proof (pow2_pos u) as Pu.
  assert (M : (JS.nearest_even (q / JS.pow2 u) <= 2 ^ 53)%Z).
  { rewrite <- (nearest_even_Z (2 ^ 53)). apply nearest_even_mono.
    now apply scaled_le. }
  assert (M0 : (0 < JS.nearest_even (q / JS.pow2 u))%Z).
  { unfold JS.nearest in Hv. fold u in Hv.
    rewrite Zlt_Qlt. change (inject_Z 0) with 0. nra. }
  assert (E : JS.nearest q == inject_Z (JS.nearest_even (q / JS.pow2 u)) * JS.pow2 u)
    by reflexivity.
  set (m := JS.nearest_even (q / JS.pow2 u)) in *.
  destruct (Z.eq_dec m (2 ^ 53)) as [T | T].
  - assert (E' : JS.nearest q == inject_Z (2 ^ 52) * JS.pow2 (u + 1)).
    { rewrite E, T, pow2_succ.
      change (inject_Z (2 ^ 53)) with (2 * inject_Z (2 ^ 52)). ring. }
    rewrite (nearest_comp _ _ Hv E'), E'.
    apply nearest_exact; lia.
  - rewrite (nearest_comp _ _ Hv E), E.
    apply nearest_exact; lia.
Qed.

Lemma Fin_inj a b : JS.Fin a = JS.Fin b -> a = b.
Proof. congruence. Qed.

Lemma round64_idem q r : JS.round64 q = JS.Fin r -> JS.round64 r = JS.Fin r.
Proof.
  destruct (round64_cases q)
    as [[Zq ->] | [[Pq [[Oq ->] | [Fq ->]]] | [Nq [[Oq ->] | [Fq ->]]]]];
    try discriminate; intros E; apply Fin_inj in E; subst r.
  - reflexivity.
  - pose proof (nearest_nonneg q Pq) as N.
    destruct (Qle_lt_or_eq _ _ N) as [V | V].
    + rewrite (round64_comp _ _ (Qred_correct _)), (round64_pos _ V).
      pose proof (nearest_idem q Pq V) as I.
      assert (C : Qle_bool (JS.pow2 1024) (JS.nearest (JS.nearest q)) = false)
        by (apply Qle_bool_false; lra).
      now rewrite C, (Qred_complete _ _ I).
    + assert (Z : Qred (JS.nearest q) == 0) by (rewrite Qred_correct; lra).
      rewrite (round64_zero _ Z). f_equal.
      rewrite <- (Qred_complete _ _ V). reflexivity.
  - assert (Pq : 0 < - q) by lra.
    pose proof (nearest_nonneg (- q) Pq) as N.
    destruct (Qle_lt_or_eq _ _ N) as [V | V].
    + assert (X : Qred (- JS.nearest (- q)) < 0) by (rewrite Qred_correct; lra).
      rewrite (round64_neg _ X).
      assert (Y : - Qred (- JS.nearest (- q)) == JS.nearest (- q))
        by (rewrite Qred_correct; ring).
      pose proof (nearest_idem (- q) Pq V) as I.
      assert (Y' : JS.nearest (- Qred (- JS.nearest (- q))) == JS.nearest (- q)).
      { rewrite (nearest_comp _ (JS.nearest (- q))); [exact I | lra | exact Y]. }
      assert (C : Qle_bool (JS.pow2 1024)
                    (JS.nearest (- Qred (- JS.nearest (- q)))) = false)
        by (apply Qle_bool_false; lra).
      rewrite C. f_equal. apply Qred_complete. now rewrite Y'.
    + assert (Z : Qred (- JS.nearest (- q)) == 0) by (rewrite Qred_correct; lra).
      rewrite (round64_zero _ Z). f_equal.
      assert (Z' : 0 == - JS.nearest (- q)) by lra.
      rewrite <- (Qred_complete _ _ Z'). reflexivity.
Qed.

End Round64.

(** Turns the comparisons of finite numbers into order facts of Q. *)
Ltac orders :=
  cbn [JS.lt JS.le] in *;
  repeat match goal with
         | H : JS.Qltb _ _ = true |- _ => apply Qltb_true in H
         | H : JS.Qltb _ _ = false |- _ => apply Qltb_false in H
         | H : Qle_bool _ _ = true |- _ => apply Qle_bool_iff in H
         | |- JS.Qltb _ _ = true => apply Qltb_true
         | |- JS.Qltb _ _ = false => apply Qltb_false
         | |- Qle_bool _ _ = true => apply Qle_bool_iff
         end.

Section Arithmetic.

(** Rounding a rational that lies between two binary64 values yields a
    binary64 value between them. *)
Lemma round64_between lo hi q :
  JS.round64 lo = JS.Fin lo -> JS.round64 hi = JS.Fin hi ->
  lo <= q <= hi ->
  exists r,
    JS.round64 q = JS.Fin r /\ lo <= r <= hi /\ JS.round64 r = JS.Fin r.
Proof.
  intros Hlo Hhi [L H].
  pose proof (round64_mono lo q L) as M1.
  pose proof (round64_mono q hi H) as M2.
  rewrite Hlo in M1. rewrite Hhi in M2.
  destruct (JS.round64 q) as [| [|] | r] eqn:E; cbn [JS.le] in *;
    try discriminate.
  exists r. apply Qle_bool_iff in M1, M2.
  repeat split; auto. exact (round64_idem q r E).
Qed.




End Arithmetic.

Section RoundingError.








End RoundingError.

Section Characters.

Lemma digit_not_space c : JS.is_digit c = true -> JS.is_space c = false.
Proof.
  unfold JS.is_digit, JS.is_space. intros H.
  apply andb_true_iff in H as [H1 H2].
  apply Nat.leb_le in H1. apply Nat.leb_le in H2.
  repeat (apply orb_false_iff; split).
  - apply andb_false_iff. right. apply Nat.leb_gt. lia.
  - apply Nat.eqb_neq. lia.
  - apply Nat.eqb_neq. lia.
Qed.

Lemma dot_is c : JS.is_dot c = true -> c = "."%char.
Proof. unfold JS.is_dot. apply Ascii.eqb_eq. Qed.

Lemma numeric_not_space c :
  JS.is_digit c || JS.is_dot c = true -> JS.is_space c = false.
Proof.
  intros H. apply orb_true_iff in H as [H | H].
  - now apply digit_not_space.
  - apply dot_is in H. subst c. reflexivity.
Qed.

(** A digit or a dot is none of the characters [parseFloat] gives a
    meaning of their own: a sign, the [I] of [Infinity], an exponent mark. *)
Lemma numeric_not_char c (x : ascii) :
  JS.is_digit x || JS.is_dot x = false ->
  JS.is_digit c || JS.is_dot c = true -> Ascii.eqb c x = false.
Proof.
  intros Hx Hc. destruct (Ascii.eqb_spec c x) as [-> | _]; [| reflexivity].
  rewrite Hx in Hc. discriminate.
Qed.

Lemma digit_value_nonneg c : JS.is_digit c = true -> (0 <= JS.digit_value c)%Z.
Proof.
  unfold JS.is_digit, JS.digit_value. intros H.
  apply andb_true_iff in H as [H _]. apply Nat.leb_le in H. lia.
Qed.

End Characters.

Section Strings.

Local Open Scope string_scope.

Lemma replace_non_numeric_only s :
  only_numeric (JS.replace_non_numeric s) = true.
Proof.
  induction s as [| c r IH]; simpl; [reflexivity |].
  destruct (JS.is_digit c || JS.is_dot c) eqn:E; simpl; [| exact IH].
  now rewrite E.
Qed.

Lemma replace_non_numeric_fixed s :
  only_numeric s = true -> JS.replace_non_numeric s = s.
Proof.
  induction s as [| c r IH]; simpl; [reflexivity |].
  intros H. apply andb_true_iff in H as [Hc Hr].
  rewrite Hc, (IH Hr). reflexivity.
Qed.

Lemma span_digits_only s : only_digits (fst (JS.span_digits s)) = true.
Proof.
  induction s as [| c r IH]; simpl; [reflexivity |].
  destruct (JS.is_digit c) eqn:E; [| reflexivity].
  destruct (JS.span_digits r) as [d rest]. simpl in *. now rewrite E.
Qed.

Lemma only_digits_app a b :
  only_digits a = true -> only_digits b = true -> only_digits (a ++ b) = true.
Proof.
  induction a as [| c r IH]; simpl; [auto |].
  intros H Hb. apply andb_true_iff in H as [Hc Hr].
  rewrite Hc. simpl. auto.
Qed.

Lemma digits_value_nonneg s : forall acc,
  only_digits s = true -> (0 <= acc)%Z -> (0 <= JS.digits_value acc s)%Z.
Proof.
  induction s as [| c r IH]; cbn [JS.digits_value only_digits];
    intros acc H Hacc; [exact Hacc |].
  apply andb_true_iff in H as [Hc Hr].
  apply IH; [exact Hr |]. pose proof (digit_value_nonneg c Hc). lia.
Qed.

Lemma trimStart_numeric s : only_numeric s = true -> JS.trimStart s = s.
Proof.
  destruct s as [| c r]; simpl; [reflexivity |].
  intros H. apply andb_true_iff in H as [Hc _].
  now rewrite (numeric_not_space c Hc).
Qed.

Lemma split_sign_numeric s :
  only_numeric s = true -> JS.split_sign s = (false, s).
Proof.
  destruct s as [| c r]; [reflexivity |].
  cbn [only_numeric JS.split_sign].
  intros H. apply andb_true_iff in H as [Hc _].
  rewrite (numeric_not_char c "+"), (numeric_not_char c "-"); auto.
Qed.

Lemma startsWith_Infinity_numeric s :
  only_numeric s = true -> JS.startsWith "Infinity" s = false.
Proof.
  destruct s as [| c r]; [reflexivity |].
  cbn [only_numeric]. intros H. apply andb_true_iff in H as [Hc _].
  change (JS.startsWith "Infinity" (String c r))
    with (Ascii.eqb "I" c && JS.startsWith "nfinity" r).
  rewrite Ascii.eqb_sym, (numeric_not_char c "I"); auto.
Qed.

End Strings.

Section ParseFloat.

Lemma round64_binary64 q : binary64 (JS.round64 q).
Proof.
  destruct (JS.round64 q) as [| neg | r] eqn:E; cbn [binary64]; auto.
  exact (round64_idem q r E).
Qed.

Lemma round64_nonneg q : 0 <= q -> JS.le (JS.Fin 0) (JS.round64 q) = true.
Proof.
  intros H. change (JS.Fin 0) with (JS.round64 0). now apply round64_mono.
Qed.

(** Not [NaN], not below zero and not zero: above zero. *)
Lemma nonneg_truthy_above n :
  JS.le (JS.Fin 0) n = true -> JS.truthy n = true ->
  JS.lt (JS.Fin 0) n = true.
Proof.
  destruct n as [| [|] | q]; cbn [JS.le JS.lt JS.truthy]; try easy.
  intros L T. apply Qle_bool_iff in L. apply Qltb_true.
  apply negb_true_iff in T. unfold JS.is_zero in T.
  apply Qeq_bool_neq in T. apply Qle_lt_or_eq in L as [L | L]; [exact L |].
  exfalso. apply T. symmetry. exact L.
Qed.

(** What [parseFloat] reads from a string that starts with neither white
    space, a sign nor [Infinity]. *)
Lemma parseFloat_unsigned s :
  JS.trimStart s = s -> JS.split_sign s = (false, s) ->
  JS.startsWith "Infinity" s = false ->
  JS.parseFloat s = JS.NaN
  \/ JS.le (JS.Fin 0) (JS.parseFloat s) = true /\ binary64 (JS.parseFloat s).
Proof.
  intros Ht Hs Hi. unfold JS.parseFloat. rewrite Ht, Hs, Hi.
  pose proof (span_digits_only s) as Hip.
  destruct (JS.span_digits s) as [ip r1]. simpl in Hip.
  assert (Hfp : only_digits (fst (JS.fraction_part r1)) = true).
  { unfold JS.fraction_part. destruct r1 as [| c r]; [reflexivity |].
    destruct (JS.is_dot c); [apply span_digits_only | reflexivity]. }
  destruct (JS.fraction_part r1) as [fp r2]. simpl in Hfp.
  destruct (JS.is_empty ip && JS.is_empty fp); [now left | right].
  split; [apply round64_nonneg | apply round64_binary64].
  apply Qmult_le_0_compat.
  - change 0 with (inject_Z 0). rewrite <- Zle_Qle.
    apply digits_value_nonneg; [now apply only_digits_app | lia].
  - apply Qpower_0_le. discriminate.
Qed.

Lemma parseFloat_numeric s :
  only_numeric s = true ->
  JS.parseFloat s = JS.NaN
  \/ JS.le (JS.Fin 0) (JS.parseFloat s) = true /\ binary64 (JS.parseFloat s).
Proof.
  intros H. apply parseFloat_unsigned.
  - now apply trimStart_numeric.
  - now apply split_sign_numeric.
  - now apply startsWith_Infinity_numeric.
Qed.

(** A truthy Number read from digits and dots is above zero. *)
Lemma parseFloat_numeric_truthy s n :
  only_numeric s = true -> JS.parseFloat s = n -> JS.truthy n = true ->
  above_zero n.
Proof.
  intros H <- Ht. destruct (parseFloat_numeric s H) as [E | [L B]];
    [rewrite E in Ht; discriminate |].
  split; [now apply nonneg_truthy_above | exact B].
Qed.

(** A Number that is not below zero is a decimal that is not negative,
    or the positive infinity. *)
Lemma nonneg_cases n :
  JS.le (JS.Fin 0) n = true -> nonneg_decimal n \/ n = JS.Infinity false.
Proof.
  destruct n as [| [|] | q]; cbn [JS.le nonneg_decimal]; try easy; auto.
  intros L. left. now apply Qle_bool_iff.
Qed.

End ParseFloat.

(* ===================================================================== *)
(** * The runs of the program *)
(* ===================================================================== *)

Section Observe.

Variables (newPrice : JS.number) (now : Date) (product : Product.t).

Lemma observe_id :
  Product._id (observe newPrice now product) = Product._id product.
Proof. reflexivity. Qed.

Lemma observe_userId :
  Product.userId (observe newPrice now product) = Product.userId product.
Proof. reflexivity. Qed.

Lemma observe_title :
  Product.title (observe newPrice now product) = Product.title product.
Proof. reflexivity. Qed.

Lemma observe_targetPrice :
  Product.targetPrice (observe newPrice now product)
  = Product.targetPrice product.
Proof. reflexivity. Qed.

Lemma observe_isActive :
  Product.isActive (observe newPrice now product) = Product.isActive product.
Proof. reflexivity. Qed.

Lemma observe_currentPrice :
  Product.currentPrice (observe newPrice now product) = newPrice.
Proof. reflexivity. Qed.

Lemma observe_lastChecked :
  Product.lastChecked (observe newPrice now product) = now.
Proof. reflexivity. Qed.

Lemma observe_priceHistory :
  Product.priceHistory (observe newPrice now product)
  = push_capped (Product.priceHistory product)
      {| PricePoint.price := newPrice; PricePoint.date := now |}.
Proof. reflexivity. Qed.

End Observe.

Section Runs.

Variable w : World.

#[local] Arguments extract : simpl never.
#[local] Arguments usable_price : simpl never.
#[local] Arguments observe : simpl never.
#[local] Arguments price_dropped_below_target : simpl never.
#[local] Arguments mailOptions : simpl never.
#[local] Arguments scrapePrice : simpl never.
#[local] Arguments sendNotification : simpl never.

(** Decides the next oracle or flag the run in the goal depends on. *)
Ltac oracle :=
  match goal with
  | |- context [match axios_get ?w ?k ?u with _ => _ end] =>
      destruct (axios_get w k u)
  | |- context [match save_rejects ?w ?k with _ => _ end] =>
      destruct (save_rejects w k)
  | |- context [match findById_rejects ?w ?k with _ => _ end] =>
      destruct (findById_rejects w k)
  | |- context [match sendMail_rejects ?w ?k with _ => _ end] =>
      destruct (sendMail_rejects w k)
  | |- context [match find_rejects ?w with _ => _ end] =>
      destruct (find_rejects w)
  | |- context [if User.notifications ?u then _ else _] =>
      destruct (User.notifications u)
  | |- context [if negb (User.notifications ?u) then _ else _] =>
      destruct (User.notifications u)
  end.

(** Unfolds the monad, then decides the oracles one after the other. *)
Ltac run :=
  unfold try_catch, save, save_new, User_findById, Product_find_active,
    sendMail, settle, console_log, console_error, emit, throw;
  cbn; unfold Eff_bind, Eff_ret;
  repeat (oracle; cbn);
  rewrite ?app_nil_r, ?observe_title, ?observe_userId; try reflexivity.

Lemma scrapePrice_run k url db :
  scrapePrice w k url db
  = (Returned (scraped w k url), db, scrape_trace w k url).
Proof. unfold scrapePrice, get_document, scraped, scrape_trace. run. Qed.

Lemma sendNotification_run k user product oldPrice newPrice db :
  sendNotification w k user product oldPrice newPrice db
  = (Returned tt, db, notification_trace w k user product oldPrice newPrice).
Proof. unfold sendNotification, notification_trace. run. Qed.

Lemma check_product_run k product db :
  check_product w k product db
  = (Returned tt, check_db w k product db, check_trace w k product db).
Proof.
  unfold check_product, try_catch. cbn. unfold Eff_bind at 1 2.
  rewrite scrapePrice_run.
  unfold check_db, check_trace, saved, swept, new_price, after_save_trace,
    owner.
  destruct (usable_price (scraped w k (Product.url product))) as [n |];
    [| now run].
  unfold Eff_bind at 1 2, save.
  destruct (save_rejects w k) as [m |]; [now run |].
  destruct (price_dropped_below_target _ _ _); [| now run].
  unfold Eff_bind, User_findById, settle.
  destruct (findById_rejects w k) as [m |]; [now run |].
  cbn. destruct (find _ (users db)) as [u |]; [| now run].
  rewrite sendNotification_run. now run.
Qed.

Lemma for_each_run ps : forall k db,
  for_each w k ps db
  = (Returned tt, sweep_db w k ps db, sweep_trace w k ps db).
Proof.
  induction ps as [| p r IH]; intros k db; [reflexivity |].
  cbn. unfold Eff_bind. rewrite check_product_run, IH. reflexivity.
Qed.

Lemma checkPrices_run db :
  find_rejects w = None ->
  checkPrices w db
  = (Returned tt, sweep_db w 0 (active db) db,
     ConsoleLog StartingPriceCheck
     :: sweep_trace w 0 (active db) db ++ [ConsoleLog PriceCheckCompleted]).
Proof.
  intros H. unfold checkPrices, try_catch, Product_find_active, settle.
  cbn. unfold Eff_bind. rewrite H. cbn. rewrite for_each_run. reflexivity.
Qed.

Lemma checkPrices_find_rejected db message :
  find_rejects w = Some message ->
  checkPrices w db
  = (Returned tt, db,
     [ConsoleLog StartingPriceCheck;
      ConsoleError (PriceCheckError message)]).
Proof.
  intros H. unfold checkPrices, try_catch, Product_find_active, settle.
  cbn. unfold Eff_bind. rewrite H. reflexivity.
Qed.

Lemma post_api_products_refused k userId url targetPrice db :
  new_price w k url = None ->
  post_api_products w k userId url targetPrice db
  = (Returned (400%Z, ErrorBody unable_to_scrape), db, scrape_trace w k url).
Proof.
  intros H. unfold post_api_products, try_catch. cbn. unfold Eff_bind.
  rewrite scrapePrice_run. unfold new_price in H. rewrite H.
  destruct (scraped w k url); cbn; now rewrite ?app_nil_r.
Qed.

Lemma post_api_products_accepted k userId url targetPrice db price :
  new_price w k url = Some price ->
  exists d,
    scraped w k url = Some d /\
    post_api_products w k userId url targetPrice db
    = match save_rejects w k with
      | None =>
          (Returned (201%Z,
                     ProductBody (new_Product w k userId url targetPrice price d)),
           set_products
             (products db ++ [new_Product w k userId url targetPrice price d])
             db,
           scrape_trace w k url)
      | Some message =>
          (Returned (500%Z, ErrorBody message), db, scrape_trace w k url)
      end.
Proof.
  intros H. unfold new_price in H.
  destruct (scraped w k url) as [d |] eqn:E; [| discriminate].
  exists d. split; [reflexivity |].
  unfold post_api_products, try_catch. cbn. unfold Eff_bind.
  rewrite scrapePrice_run, E, H. unfold save_new.
  destruct (save_rejects w k); cbn; now rewrite ?app_nil_r.
Qed.

End Runs.

(* ===================================================================== *)
(** * The price history *)
(* ===================================================================== *)

Section History.

Context {A : Type}.

Lemma slice_last_length (n : nat) (l : list A) :
  List.length (slice_last n l) = Nat.min n (List.length l).
Proof. unfold slice_last. rewrite length_skipn. lia. Qed.

Lemma slice_last_short (n : nat) (l : list A) :
  (List.length l <= n)%nat -> slice_last n l = l.
Proof.
  intros H. unfold slice_last.
  replace (List.length l - n)%nat with 0%nat by lia. reflexivity.
Qed.

(** Cutting to the last [n], appending, and cutting again keeps the last
    [n] of the whole. *)
Lemma slice_last_app (n : nat) (l m : list A) :
  slice_last n (slice_last n l ++ m) = slice_last n (l ++ m).
Proof.
  destruct (Nat.le_gt_cases (List.length l) n) as [H | H].
  - now rewrite (slice_last_short n l H).
  - unfold slice_last at 1 3. rewrite !length_app, slice_last_length.
    rewrite !skipn_app, slice_last_length. unfold slice_last.
    rewrite skipn_skipn. f_equal; f_equal; lia.
Qed.

End History.

Section PushCapped.

Lemma push_capped_slice h o : push_capped h o = slice_last 30 (h ++ [o]).
Proof.
  unfold push_capped.
  destruct (Nat.ltb_spec 30 (List.length (h ++ [o]))) as [H | H];
    [reflexivity |].
  symmetry. now apply slice_last_short.
Qed.

Lemma push_capped_length h o :
  List.length (push_capped h o) = Nat.min 30 (S (List.length h)).
Proof.
  rewrite push_capped_slice, slice_last_length, length_app.
  cbn [List.length]. lia.
Qed.



Lemma push_capped_snoc h o :
  push_capped h o = (skipn (List.length (h ++ [o]) - 30) h ++ [o])%list.
Proof.
  rewrite push_capped_slice. unfold slice_last.
  rewrite skipn_app.
  replace (List.length (h ++ [o]) - 30 - List.length h)%nat with 0%nat
    by (rewrite length_app; cbn; lia).
  reflexivity.
Qed.

(** The history after an observation: the last 29 points of the one
    before, then the new point. *)
Lemma push_capped_value h o :
  push_capped h o = (skipn (List.length h - 29) h ++ [o])%list.
Proof.
  rewrite push_capped_snoc, length_app. cbn [List.length].
  now replace (List.length h + 1 - 30)%nat with (List.length h - 29)%nat by lia.
Qed.

Lemma observe_bounded newPrice now product :
  history_bounded (observe newPrice now product).
Proof.
  unfold history_bounded. rewrite observe_priceHistory, push_capped_length.
  lia.
Qed.

End PushCapped.

(* ===================================================================== *)
(** * The stored documents through a sweep *)
(* ===================================================================== *)

Section Stored.

Lemma stored_replace doc db id :
  stored id (set_products (replace_by_id doc (products db)) db)
  = if (id =? Product._id doc)%nat
    then match stored id db with Some _ => Some doc | None => None end
    else stored id db.
Proof.
  unfold stored. cbn [products set_products].
  induction (products db) as [| p r IH]; cbn [replace_by_id find].
  - now destruct (id =? Product._id doc)%nat.
  - destruct (Nat.eqb_spec (Product._id p) (Product._id doc)) as [E | E];
      cbn [find].
    + rewrite E. destruct (Nat.eqb_spec (Product._id doc) id) as [E' | E'].
      * subst id. now rewrite Nat.eqb_refl.
      * destruct (Nat.eqb_spec id (Product._id doc)); [congruence | easy].
    + destruct (Nat.eqb_spec (Product._id p) id) as [E' | E']; [| exact IH].
      destruct (Nat.eqb_spec id (Product._id doc)); [congruence | easy].
Qed.

Lemma Forall_replace (P : Product.t -> Prop) doc l :
  P doc -> Forall P l -> Forall P (replace_by_id doc l).
Proof.
  intros Hd. induction 1 as [| p r Hp Hr IH]; cbn [replace_by_id]; [easy |].
  destruct (Product._id p =? Product._id doc)%nat; auto.
Qed.

(** With distinct ids, a document of the collection is the one stored
    under its id. *)
Lemma stored_In db p :
  NoDup (ids db) -> In p (products db) -> stored (Product._id p) db = Some p.
Proof.
  unfold ids, stored. induction (products db) as [| q r IH]; [easy |].
  cbn [map find In]. intros Hn [-> | Hin].
  - now rewrite Nat.eqb_refl.
  - inversion Hn as [| ? ? Hq Hr]; subst.
    destruct (Nat.eqb_spec (Product._id q) (Product._id p)) as [E | E]; auto.
    exfalso. apply Hq. rewrite E. now apply in_map.
Qed.

Lemma NoDup_ids_filter (f : Product.t -> bool) l :
  NoDup (map Product._id l) -> NoDup (map Product._id (filter f l)).
Proof.
  induction l as [| p r IH]; cbn [map filter]; [easy |].
  intros Hn. inversion Hn as [| ? ? Hp Hr]; subst.
  destruct (f p); cbn [map]; auto.
  constructor; auto. intros Hin. apply Hp.
  apply in_map_iff in Hin as [q [Eq Hq]]. apply filter_In in Hq as [Hq _].
  rewrite <- Eq. now apply in_map.
Qed.

Variable w : World.

Lemma swept_id k p : Product._id (swept w k p) = Product._id p.
Proof.
  unfold swept. destruct (new_price w k (Product.url p)); [| reflexivity].
  now destruct (save_rejects w k).
Qed.

Lemma stored_check_db_other k p db id :
  id <> Product._id p -> stored id (check_db w k p db) = stored id db.
Proof.
  intros H. unfold check_db. destruct (saved w k p); [| reflexivity].
  rewrite stored_replace, swept_id.
  now destruct (Nat.eqb_spec id (Product._id p)).
Qed.

Lemma stored_check_db_self k p db :
  stored (Product._id p) db = Some p ->
  stored (Product._id p) (check_db w k p db) = Some (swept w k p).
Proof.
  intros H. unfold check_db, saved, swept.
  destruct (new_price w k (Product.url p)) as [n |]; [| exact H].
  destruct (save_rejects w k); [exact H |].
  now rewrite stored_replace, observe_id, Nat.eqb_refl, H.
Qed.

Lemma stored_sweep_db_other ps : forall k db id,
  ~ In id (map Product._id ps) ->
  stored id (sweep_db w k ps db) = stored id db.
Proof.
  induction ps as [| p r IH]; intros k db id Hid; [reflexivity |].
  cbn [sweep_db]. cbn [map In] in Hid.
  rewrite IH by tauto. apply stored_check_db_other. intros E. apply Hid. auto.
Qed.

(** The document stored for the [i]-th product of a sweep is the one its
    own step leaves: the steps of the other products do not touch it. *)
Lemma stored_sweep_db ps : forall k db,
  NoDup (map Product._id ps) ->
  (forall p, In p ps -> stored (Product._id p) db = Some p) ->
  forall i p, nth_error ps i = Some p ->
  stored (Product._id p) (sweep_db w k ps db) = Some (swept w (k + i) p).
Proof.
  induction ps as [| q r IH]; intros k db Hn Hs i p Hi.
  - now destruct i.
  - inversion Hn as [| ? ? Hq Hr]; subst. cbn [sweep_db].
    destruct i as [| j]; cbn [nth_error] in Hi.
    + injection Hi as ->. rewrite stored_sweep_db_other by exact Hq.
      rewrite Nat.add_0_r. apply stored_check_db_self. apply Hs. now left.
    + rewrite <- Nat.add_succ_comm. apply IH; auto.
      intros p' Hp'. rewrite stored_check_db_other; [apply Hs; now right |].
      intros E. apply Hq. rewrite <- E. now apply in_map.
Qed.

Lemma sweep_db_bounded ps : forall k db,
  Forall history_bounded (products db) ->
  Forall history_bounded (products (sweep_db w k ps db)).
Proof.
  induction ps as [| p r IH]; intros k db H; [exact H |].
  cbn [sweep_db]. apply IH. unfold check_db, saved, swept.
  destruct (new_price w k (Product.url p)) as [n |]; [| exact H].
  destruct (save_rejects w k); [exact H |].
  cbn [products set_products]. apply Forall_replace; [| exact H].
  apply observe_bounded.
Qed.

End Stored.

(* ===================================================================== *)
(** * Extraction *)
(* ===================================================================== *)

Section Extraction.

Local Open Scope string_scope.

Lemma price_of_text s n :
  (if JS.is_empty s then None else Some (JS.parseFloat s)) = Some n ->
  n = JS.parseFloat s /\ s <> EmptyString.
Proof. destruct s; [discriminate |]. intros [= <-]. now split. Qed.

(** Whatever the store, a price that is not [null] was read by
    [parseFloat] from what [replace] left of some text of the page. *)
Lemma extract_price url doc n :
  Scraped.price (extract url doc) = Some n ->
  exists text,
    n = JS.parseFloat (JS.replace_non_numeric text)
    /\ JS.replace_non_numeric text <> EmptyString.
Proof.
  unfold extract, JS.or_else.
  repeat match goal with
         | |- context [if JS.includes url ?x then _ else _] =>
             destruct (JS.includes url x)
         end;
    cbn beta iota delta [Scraped.price];
    intros H; try discriminate;
    apply price_of_text in H as [-> Hne];
    try match type of Hne with
        | context [if ?c then _ else _] => destruct c
        end;
    eexists; (split; [reflexivity | exact Hne]).
Qed.

Lemma extract_unrecognized url doc :
  unrecognized_store url = true -> Scraped.price (extract url doc) = None.
Proof.
  unfold unrecognized_store, extract. intros H.
  apply negb_true_iff in H. repeat apply orb_false_iff in H as [H ?].
  repeat match goal with
         | E : JS.includes url _ = false |- _ => rewrite E; clear E
         end.
  reflexivity.
Qed.

(** A price both callers accept is a Number above zero. *)
Lemma usable_price_above_zero url doc n :
  usable_price (Some (extract url doc)) = Some n -> above_zero n.
Proof.
  unfold usable_price.
  destruct (Scraped.price (extract url doc)) as [x |] eqn:E; [| discriminate].
  destruct (JS.truthy x) eqn:T; [| discriminate]. intros [= <-].
  apply extract_price in E as [text [E _]].
  apply (parseFloat_numeric_truthy (JS.replace_non_numeric text));
    auto using replace_non_numeric_only.
Qed.

Lemma new_price_above_zero w k url n :
  new_price w k url = Some n -> above_zero n.
Proof.
  unfold new_price, scraped.
  destruct (axios_get w k url) as [doc | m]; [| discriminate].
  apply usable_price_above_zero.
Qed.

Lemma scrape_failed_no_price w k url :
  scrape_failed w k url -> new_price w k url = None.
Proof.
  unfold scrape_failed, new_price, scraped, usable_price.
  intros [[m ->] | [doc [-> ->]]]; reflexivity.
Qed.

End Extraction.

(* ===================================================================== *)
(** * The collection through a sweep *)
(* ===================================================================== *)

Local Open Scope list_scope.

Section SweepList.

Variable w : World.

Lemma replace_by_id_app pre doc p r :
  ~ In (Product._id doc) (map Product._id pre) ->
  Product._id p = Product._id doc ->
  replace_by_id doc (pre ++ p :: r) = pre ++ doc :: r.
Proof.
  intros Hn E. induction pre as [| q pre IH]; cbn [app replace_by_id].
  - now rewrite E, Nat.eqb_refl.
  - cbn [map In] in Hn.
    destruct (Nat.eqb_spec (Product._id q) (Product._id doc)) as [E' | E'];
      [tauto |].
    rewrite IH by tauto. reflexivity.
Qed.

Lemma swept_same k p : same_apart_from_price p (swept w k p).
Proof.
  unfold swept, same_apart_from_price.
  destruct (new_price w k (Product.url p)); [| tauto].
  destruct (save_rejects w k); cbn; tauto.
Qed.

(** The first step of a sweep rewrites its own document in place. *)
Lemma check_db_app k pre p r us :
  ~ In (Product._id p) (map Product._id pre) ->
  check_db w k p {| products := pre ++ p :: r; users := us |}
  = {| products := pre ++ swept w k p :: r; users := us |}.
Proof.
  intros Hn. unfold check_db, swept, saved.
  destruct (new_price w k (Product.url p)) as [n |]; [| reflexivity].
  destruct (save_rejects w k); [reflexivity |].
  unfold set_products. cbn [products users].
  now rewrite replace_by_id_app.
Qed.

Lemma sweep_db_products suf : forall pre k us,
  NoDup (map Product._id (pre ++ suf)) ->
  sweep_db w k (filter Product.isActive suf)
    {| products := pre ++ suf; users := us |}
  = {| products := pre ++ sweep_list w k suf; users := us |}.
Proof.
  induction suf as [| p r IH]; intros pre k us Hn; [reflexivity |].
  assert (Hp : ~ In (Product._id p) (map Product._id pre)).
  { rewrite map_app in Hn. cbn [map] in Hn.
    apply NoDup_remove_2 in Hn. intros Hin. apply Hn.
    apply in_or_app. now left. }
  cbn [filter sweep_list]. destruct (Product.isActive p).
  - cbn [sweep_db]. rewrite check_db_app by exact Hp.
    change (pre ++ swept w k p :: r) with (pre ++ [swept w k p] ++ r).
    rewrite app_assoc, IH.
    + now rewrite <- app_assoc.
    + rewrite <- app_assoc. cbn [app].
      rewrite map_app in *. cbn [map] in *. now rewrite swept_id.
  - change (pre ++ p :: r) with (pre ++ [p] ++ r).
    rewrite app_assoc, IH.
    + now rewrite <- app_assoc.
    + now rewrite <- app_assoc.
Qed.

(** With distinct ids, a sweep maps the collection document by document,
    in place and in order. *)
Lemma checkPrices_products db :
  find_rejects w = None -> NoDup (ids db) ->
  db_of (checkPrices w db)
  = {| products := sweep_list w 0 (products db); users := users db |}.
Proof.
  intros Hf Hn. rewrite (checkPrices_run w db Hf). unfold db_of. cbn [fst snd].
  destruct db as [ps us]. unfold active. cbn [products users].
  exact (sweep_db_products ps [] 0 us Hn).
Qed.

Lemma sweep_list_same l : forall k,
  Forall2 same_apart_from_price l (sweep_list w k l).
Proof.
  induction l as [| p r IH]; intros k; cbn [sweep_list]; [constructor |].
  destruct (Product.isActive p); constructor; auto using swept_same.
  unfold same_apart_from_price. tauto.
Qed.

Lemma sweep_list_inactive l : forall k,
  Forall2 (fun p p' => Product.isActive p = false -> p' = p)
          l (sweep_list w k l).
Proof.
  induction l as [| p r IH]; intros k; cbn [sweep_list]; [constructor |].
  destruct (Product.isActive p) eqn:E; constructor; auto.
  intros H. congruence.
Qed.

Lemma swept_isActive k p :
  Product.isActive (swept w k p) = Product.isActive p.
Proof. now destruct (swept_same k p) as (_ & _ & _ & _ & _ & _ & _ & H & _). Qed.

(** The active documents after a sweep are, position by position, those
    of before as their steps left them. *)
Lemma active_sweep_list l : forall k i p',
  nth_error (filter Product.isActive (sweep_list w k l)) i = Some p' ->
  exists p,
    nth_error (filter Product.isActive l) i = Some p
    /\ p' = swept w (k + i) p.
Proof.
  induction l as [| q r IH]; intros k i p' H; cbn [sweep_list filter] in *.
  - now destruct i.
  - destruct (Product.isActive q) eqn:E; cbn [filter] in H.
    + rewrite swept_isActive, E in H. destruct i as [| j]; cbn [nth_error] in *.
      * injection H as <-. exists q. now rewrite Nat.add_0_r.
      * rewrite <- Nat.add_succ_comm. now apply IH.
    + rewrite E in H. now apply IH.
Qed.

Lemma sweep_list_ids l : forall k,
  map Product._id (sweep_list w k l) = map Product._id l.
Proof.
  induction l as [| p r IH]; intros k; cbn [sweep_list map]; [reflexivity |].
  destruct (Product.isActive p); cbn [map]; now rewrite ?swept_id, IH.
Qed.

(** The active documents keep their positions through a sweep. *)
Lemma sweep_list_active l : forall k i p,
  nth_error (filter Product.isActive l) i = Some p ->
  nth_error (filter Product.isActive (sweep_list w k l)) i
  = Some (swept w (k + i) p).
Proof.
  induction l as [| q r IH]; intros k i p H; cbn [sweep_list filter] in *.
  - now destruct i.
  - destruct (Product.isActive q) eqn:E; cbn [filter].
    + rewrite swept_isActive, E. destruct i as [| j]; cbn [nth_error] in *.
      * injection H as ->. now rewrite Nat.add_0_r.
      * rewrite <- Nat.add_succ_comm. now apply IH.
    + rewrite E. now apply IH.
Qed.

End SweepList.

(* ===================================================================== *)
(** * The claims of the specification *)
(* ===================================================================== *)

Section Normalization.

Local Open Scope string_scope.

(** C7, as the code has it.  Numeric normalization removes every
    character other than a digit or the decimal point before parsing: what
    [replace] returns holds digits and dots only, it leaves a text of
    digits and dots as it is, and every price [scrapePrice] returns that is
    not [null] is [parseFloat] of such a text.  Hence a text and its
    digits-only form yield the same number; both "$1,299.99" and "1299.99"
    yield the Number 1299.99, the binary64 value nearest to that decimal.
    A price that is not [null] is a Number that is [NaN], a decimal that is
    not negative, or [Infinity]; a price the callers accept is a positive
    decimal or [Infinity]. *)
Theorem price_normalization :
  (forall text, only_numeric (JS.replace_non_numeric text) = true)
  /\ (forall text,
        only_numeric text = true -> JS.replace_non_numeric text = text)
  /\ (forall text,
        JS.parseFloat (JS.replace_non_numeric (JS.replace_non_numeric text))
        = JS.parseFloat (JS.replace_non_numeric text))
  /\ (forall url doc n,
        Scraped.price (extract url doc) = Some n ->
        (exists text, n = JS.parseFloat (JS.replace_non_numeric text))
        /\ (n = JS.NaN \/ nonneg_decimal n \/ n = JS.Infinity false)
        /\ binary64 n)
  /\ JS.parseFloat (JS.replace_non_numeric "$1,299.99")
     = JS.round64 (129999 # 100)
  /\ JS.parseFloat (JS.replace_non_numeric "1299.99")
     = JS.round64 (129999 # 100)
  /\ JS.round64 (129999 # 100) = JS.Fin (5717416483970089 # 4398046511104)
  /\ (forall w k url n,
        new_price w k url = Some n ->
        ((exists q, n = JS.Fin q /\ 0 < q) \/ n = JS.Infinity false)
        /\ binary64 n).
Proof.
  split; [exact replace_non_numeric_only |].
  split; [exact replace_non_numeric_fixed |].
  split.
  { intros text.
    now rewrite (replace_non_numeric_fixed _ (replace_non_numeric_only text)). }
  split.
  { intros url doc n H. apply extract_price in H as [text [-> _]].
    split; [now exists text |].
    destruct (parseFloat_numeric _ (replace_non_numeric_only text))
      as [E | [L B]].
    - rewrite E. split; [now left | exact I].
    - split; [right; now apply nonneg_cases | exact B]. }
  split; [reflexivity |]. split; [reflexivity |]. split; [reflexivity |].
  intros w k url n H. destruct (new_price_above_zero _ _ _ _ H) as [L B].
  split; [| exact B]. clear - L.
  destruct n as [| [|] | q]; cbn [JS.lt] in L; try discriminate.
  - now right.
  - left. exists q. split; [reflexivity | now apply Qltb_true].
Qed.

Lemma price_normalization_witness :
  JS.replace_non_numeric "1299.99" = "1299.99"
  /\ (exists text,
        Sample.laptop_price = JS.parseFloat (JS.replace_non_numeric text))
  /\ ((exists q, Sample.laptop_price = JS.Fin q /\ 0 < q)
      \/ Sample.laptop_price = JS.Infinity false).
Proof.
  destruct price_normalization as (_ & Hfix & _ & Hprice & _ & _ & _ & Hnew).
  split; [apply Hfix; reflexivity |].
  split.
  - apply (Hprice Sample.laptop (Sample.page "$1,299.99")). reflexivity.
  - apply (Hnew (Sample.showing "$1,299.99") 0%nat Sample.laptop).
    reflexivity.
Defined.

(** C7, as stated, fails: a price text of 310 digits is read as
    [Infinity], which is no decimal; both callers accept it, and
    registration tracks the product at that price. *)
Lemma overlong_price_is_infinite :
  let text := String "$" (Sample.nines 310) in
  Scraped.price (extract Sample.lamp (Sample.page text))
  = Some (JS.Infinity false)
  /\ ~ nonneg_decimal (JS.Infinity false)
  /\ new_price (Sample.showing text) 0%nat Sample.lamp
     = Some (JS.Infinity false)
  /\ exists product,
       post_api_products (Sample.showing text) 0%nat 7%nat Sample.lamp None
         {| products := []; users := [] |}
       = (Returned (201%Z, ProductBody product),
          {| products := [product]; users := [] |}, [Get Sample.lamp])
       /\ Product.currentPrice product = JS.Infinity false.
Proof.
  cbv zeta. split; [vm_compute; reflexivity |].
  split; [intros [] |]. split; [vm_compute; reflexivity |].
  eexists. split; vm_compute; reflexivity.
Qed.

End Normalization.

Local Open Scope list_scope.

Section Counting.

Lemma count_app f a b : count f (a ++ b) = (count f a + count f b)%nat.
Proof. unfold count. now rewrite filter_app, length_app. Qed.

Lemma count_get_scrape_trace w k url :
  count is_get (scrape_trace w k url) = 1%nat.
Proof. unfold scrape_trace. now destruct (axios_get w k url). Qed.

Lemma count_delay_scrape_trace w k url :
  count is_delay (scrape_trace w k url) = 0%nat.
Proof. unfold scrape_trace. now destruct (axios_get w k url). Qed.

Lemma count_notify_scrape_trace w k url :
  count is_notify (scrape_trace w k url) = 0%nat.
Proof. unfold scrape_trace. now destruct (axios_get w k url). Qed.


End Counting.

Section Registration.

(** C6. Registration makes exactly one request.  Whenever it gets no
    usable price, as for every URL of an unrecognized store, it answers
    with status 400 and the error message and leaves the collection as it
    was; when it gets one and the save goes through, it answers 201 and
    the collection has one more product, whose current price is the
    extracted price and whose history is that single observation. *)
Theorem registration w k userId url targetPrice db :
  let r := post_api_products w k userId url targetPrice db in
  count is_get (trace_of r) = 1%nat
  /\ (new_price w k url = None ->
      result_of r = Returned (400%Z, ErrorBody unable_to_scrape)
      /\ db_of r = db)
  /\ (unrecognized_store url = true -> new_price w k url = None)
  /\ (forall price,
        new_price w k url = Some price -> save_rejects w k = None ->
        exists product,
          result_of r = Returned (201%Z, ProductBody product)
          /\ products (db_of r) = products db ++ [product]
          /\ users (db_of r) = users db
          /\ Product.currentPrice product = price
          /\ Product.priceHistory product
             = [ {| PricePoint.price := price;
                    PricePoint.date := Date_now w k |} ]).
Proof.
  cbv zeta. split; [| split; [| split]].
  - destruct (new_price w k url) as [price |] eqn:E.
    + destruct (post_api_products_accepted w k userId url targetPrice db price E)
        as [d [_ ->]].
      destruct (save_rejects w k); apply count_get_scrape_trace.
    + rewrite post_api_products_refused by exact E.
      apply count_get_scrape_trace.
  - intros E. now rewrite post_api_products_refused by exact E.
  - intros H. unfold new_price, scraped.
    destruct (axios_get w k url) as [doc | m]; [| reflexivity].
    unfold usable_price. now rewrite extract_unrecognized.
  - intros price E Hs.
    destruct (post_api_products_accepted w k userId url targetPrice db price E)
      as [d [_ ->]].
    rewrite Hs. eexists. repeat split.
Qed.

Lemma registration_witness :
  new_price Sample.calm 0 Sample.elsewhere = None
  /\ db_of (post_api_products Sample.calm 0%nat 7%nat Sample.elsewhere None
              (Sample.db []))
     = Sample.db []
  /\ exists product,
       products (db_of (post_api_products Sample.calm 0%nat 7%nat Sample.lamp
                          (Some (JS.of_Z 90)) (Sample.db [])))
       = products (Sample.db []) ++ [product]
       /\ Product.currentPrice product = JS.of_Z 85.
Proof.
  pose proof (registration Sample.calm 0%nat 7%nat Sample.elsewhere None (Sample.db []))
    as (_ & Hnone & Hstore & _).
  pose proof (registration Sample.calm 0%nat 7%nat Sample.lamp (Some (JS.of_Z 90))
                (Sample.db []))
    as (_ & _ & _ & Hsome).
  split; [apply Hstore; reflexivity |].
  split; [apply Hnone, Hstore; reflexivity |].
  destruct (Hsome (JS.of_Z 85)) as (product & _ & Hdb & _ & Hprice & _);
    [reflexivity | reflexivity |].
  exists product. now split.
Defined.

End Registration.

Section UnusablePrice.

(** C5, as the code has it.  A scrape whose price is [null] is not
    persisted, and neither is one whose price is 0: the sweep leaves the
    collection as it was, and registration answers with its error and
    creates nothing. *)
Theorem null_or_zero_price_not_persisted w k url d :
  scraped w k url = Some d ->
  Scraped.price d = None
  \/ (exists q, Scraped.price d = Some (JS.Fin q) /\ q == 0) ->
  (forall product db,
      Product.url product = url -> db_of (check_product w k product db) = db)
  /\ (forall userId targetPrice db,
        result_of (post_api_products w k userId url targetPrice db)
        = Returned (400%Z, ErrorBody unable_to_scrape)
        /\ db_of (post_api_products w k userId url targetPrice db) = db).
Proof.
  intros Hd Hp.
  assert (E : new_price w k url = None).
  { unfold new_price, usable_price. rewrite Hd.
    destruct Hp as [-> | [q [-> Hq]]]; [reflexivity |].
    cbn. unfold JS.is_zero. now rewrite (Qeq_eq_bool _ _ Hq). }
  split.
  - intros product db <-. rewrite check_product_run.
    unfold db_of, check_db, saved. cbn. now rewrite E.
  - intros userId targetPrice db.
    now rewrite post_api_products_refused by exact E.
Qed.

Lemma null_or_zero_price_not_persisted_witness :
  db_of (check_product (Sample.showing "$0.00") 0%nat Sample.item1 (Sample.db []))
  = Sample.db [].
Proof.
  refine (proj1 (null_or_zero_price_not_persisted
                   (Sample.showing "$0.00") 0%nat Sample.lamp
                   (extract Sample.lamp (Sample.page "$0.00")) _ _)
                Sample.item1 (Sample.db []) _).
  - reflexivity.
  - right. exists 0. split; reflexivity.
  - reflexivity.
Defined.

(** C5, as stated, fails: a page showing "$0.00" is scraped to the price 0,
    which is not [null]; yet the sweep does not update the product and
    registration refuses it. *)
Lemma zero_price_is_not_an_observation :
  Scraped.price (extract Sample.lamp (Sample.page "$0.00")) = Some (JS.Fin 0)
  /\ db_of (check_product (Sample.showing "$0.00") 0%nat Sample.item1
              (Sample.db []))
     = Sample.db []
  /\ post_api_products (Sample.showing "$0.00") 0%nat 7%nat Sample.lamp None
       (Sample.db [])
     = (Returned (400%Z, ErrorBody unable_to_scrape), Sample.db [],
        [Get Sample.lamp]).
Proof. repeat split. Qed.

End UnusablePrice.

Section NotificationRule.

Lemma le_positive_truthy n target :
  JS.lt (JS.Fin 0) n = true -> JS.le n target = true ->
  JS.truthy target = true.
Proof.
  destruct n as [| [|] | q], target as [| [|] | t];
    cbn [JS.lt JS.le JS.truthy]; try easy.
  intros Hq H. apply Qltb_true in Hq. apply Qle_bool_iff in H.
  apply negb_true_iff. unfold JS.is_zero.
  destruct (Qeq_bool t 0) eqn:E; [| reflexivity].
  apply Qeq_bool_eq in E. lra.
Qed.

(** For a new price above zero, the test of [checkPrices] is the rule of
    the specification. *)
Lemma dropped_iff_qualifies product now n :
  JS.lt (JS.Fin 0) n = true ->
  price_dropped_below_target (observe n now product)
    (Product.currentPrice product) n = true
  <-> qualifies product n.
Proof.
  intros Hq. unfold price_dropped_below_target, qualifies.
  rewrite observe_targetPrice.
  destruct (Product.targetPrice product) as [target |]; cbn [truthy_opt le_opt].
  - rewrite !andb_true_iff. split.
    + intros [[_ Hle] Hlt]. split; [now exists target | exact Hlt].
    + intros [[t [[= <-] Hle]] Hlt].
      repeat split; auto. now apply (le_positive_truthy n).
  - split; [discriminate |]. now intros [[t [? _]] _].
Qed.

Lemma count_notify_check_trace w k product db newPrice :
  new_price w k (Product.url product) = Some newPrice ->
  count is_notify (check_trace w k product db)
  = if notified w k db product newPrice then 1%nat else 0%nat.
Proof.
  intros H. unfold check_trace, notified, after_save_trace. rewrite H.
  rewrite count_app, count_notify_scrape_trace.
  destruct (save_rejects w k); [reflexivity |].
  change (owner db (observe newPrice (Date_now w k) product))
    with (owner db product).
  destruct (price_dropped_below_target _ _ _);
    destruct (findById_rejects w k); destruct (owner db product) as [u |];
    try reflexivity.
  unfold notification_trace.
  destruct (User.notifications u); [| reflexivity].
  now destruct (sendMail_rejects w k).
Qed.

Lemma notified_iff w k db product n :
  JS.lt (JS.Fin 0) n = true ->
  notified w k db product n = true
  <-> qualifies product n
      /\ save_rejects w k = None
      /\ findById_rejects w k = None
      /\ exists user, owner db product = Some user.
Proof.
  intros Hq. unfold notified.
  destruct (save_rejects w k); [split; [discriminate | now intros (_ & ? & _)] |].
  destruct (findById_rejects w k);
    [split; [discriminate | now intros (_ & _ & ? & _)] |].
  destruct (owner db product) as [u |];
    [| split; [discriminate | now intros (_ & _ & _ & ? & ?)]].
  rewrite dropped_iff_qualifies by exact Hq.
  split; [intros H; split; [exact H | repeat split; eauto] | now intros (? & _)].
Qed.

(** C1, as the code has it.  For a product whose price was extracted, the
    step of the sweep calls the notifier exactly when the rule holds (a
    target is set, the new price is at most the target and below the price
    before the update) and, besides, the update was saved and the lookup of
    the owner returned a user record.  It calls it at most once; never when
    the new price is not below the old one, when it exceeds the target or
    when no target is set. *)
Theorem notifier_invoked_iff w k product db newPrice :
  new_price w k (Product.url product) = Some newPrice ->
  let t := trace_of (check_product w k product db) in
  let invoked :=
    qualifies product newPrice
    /\ save_rejects w k = None
    /\ findById_rejects w k = None
    /\ exists user, owner db product = Some user in
  (count is_notify t = 1%nat <-> invoked)
  /\ (count is_notify t = 0%nat <-> ~ invoked)
  /\ (JS.lt newPrice (Product.currentPrice product) = false ->
      count is_notify t = 0%nat)
  /\ (forall target,
        Product.targetPrice product = Some target ->
        JS.le newPrice target = false -> count is_notify t = 0%nat)
  /\ (Product.targetPrice product = None -> count is_notify t = 0%nat).
Proof.
  intros H. cbv zeta. rewrite check_product_run. unfold trace_of. cbn [snd].
  rewrite (count_notify_check_trace _ _ _ _ _ H).
  pose proof (proj1 (new_price_above_zero _ _ _ _ H)) as Hq.
  pose proof (notified_iff w k db product newPrice Hq) as N.
  destruct (notified w k db product newPrice).
  - assert (I : qualifies product newPrice
                /\ save_rejects w k = None
                /\ findById_rejects w k = None
                /\ exists user, owner db product = Some user)
      by now apply N.
    split; [split; [intros _; exact I | reflexivity] |].
    split; [split; [discriminate | intros Hn; exfalso; exact (Hn I)] |].
    destruct I as [[[t [Ht Hle]] Hlt] _].
    split; [intros Hf; congruence |].
    split; [intros target Ht' Hle'; congruence | intros Hn; congruence].
  - assert (I : ~ (qualifies product newPrice
                   /\ save_rejects w k = None
                   /\ findById_rejects w k = None
                   /\ exists user, owner db product = Some user)).
    { intros I. apply N in I. discriminate. }
    split; [split; [discriminate | intros I'; exfalso; exact (I I')] |].
    split; [split; [intros _; exact I | reflexivity] |].
    split; [reflexivity |]. split; reflexivity.
Qed.

Lemma notifier_invoked_iff_witness :
  count is_notify
    (trace_of (check_product Sample.calm 0%nat Sample.item1
                 (Sample.db [Sample.alice true])))
  = 1%nat.
Proof.
  apply (notifier_invoked_iff Sample.calm 0%nat Sample.item1
           (Sample.db [Sample.alice true]) (JS.of_Z 85)).
  - reflexivity.
  - split; [split; [exists (JS.of_Z 90); split; reflexivity | reflexivity] |].
    split; [reflexivity |]. split; [reflexivity |].
    exists (Sample.alice true). reflexivity.
Defined.

(** C1, as stated, fails: the lamp went from 100 to 85 with a target of
    90, so the rule holds, but its owner has no user record and the
    notifier is not called. *)
Lemma rule_holds_but_owner_missing :
  new_price Sample.calm 0%nat (Product.url Sample.item1) = Some (JS.of_Z 85)
  /\ qualifies Sample.item1 (JS.of_Z 85)
  /\ trace_of (check_product Sample.calm 0%nat Sample.item1 (Sample.db []))
     = [ Get Sample.lamp;
         ConsoleLog (Updated "Desk lamp" (JS.of_Z 100) (JS.of_Z 85));
         SetTimeout 2000 ]
  /\ count is_notify
       (trace_of (check_product Sample.calm 0%nat Sample.item1 (Sample.db [])))
     = 0%nat.
Proof.
  split; [reflexivity |]. split; [| split; reflexivity].
  split; [exists (JS.of_Z 90); split; reflexivity | reflexivity].
Qed.

End NotificationRule.

Section Sweep.

Variable w : World.

(** What a sweep leaves stored for its [i]-th product. *)
Lemma stored_after_sweep db i p :
  find_rejects w = None -> NoDup (ids db) ->
  nth_error (active db) i = Some p ->
  stored (Product._id p) (db_of (checkPrices w db)) = Some (swept w i p).
Proof.
  intros Hf Hn Hi. rewrite (checkPrices_run w db Hf). unfold db_of. cbn [fst snd].
  apply (stored_sweep_db w (active db) 0 db).
  - now apply NoDup_ids_filter.
  - intros q Hq. apply stored_In; [exact Hn |].
    unfold active in Hq. now apply filter_In in Hq.
  - exact Hi.
Qed.

(** What an accepted and saved observation leaves of a product. *)
Lemma swept_observed k p newPrice :
  new_price w k (Product.url p) = Some newPrice -> save_rejects w k = None ->
  Product.currentPrice (swept w k p) = newPrice
  /\ Product.lastChecked (swept w k p) = Date_now w k
  /\ Product.priceHistory (swept w k p)
     = skipn (List.length (Product.priceHistory p) - 29)
             (Product.priceHistory p)
       ++ [ {| PricePoint.price := newPrice; PricePoint.date := Date_now w k |} ]
  /\ same_apart_from_price p (swept w k p).
Proof.
  intros Hp Hs. unfold swept. rewrite Hp, Hs.
  rewrite observe_currentPrice, observe_lastChecked, observe_priceHistory.
  split; [reflexivity |]. split; [reflexivity |].
  split; [apply push_capped_value |].
  unfold same_apart_from_price. cbn. tauto.
Qed.

(** The trace of a sweep holds the trace of each of its steps. *)
Lemma sweep_trace_at ps : forall k db i p,
  nth_error ps i = Some p ->
  exists before after db',
    sweep_trace w k ps db = before ++ check_trace w (k + i) p db' ++ after
    /\ users db' = users db.
Proof.
  induction ps as [| q r IH]; intros k db i p H; [now destruct i |].
  cbn [sweep_trace]. destruct i as [| j]; cbn [nth_error] in H.
  - injection H as ->.
    exists [], (sweep_trace w (S k) r (check_db w k p db)), db.
    rewrite Nat.add_0_r. now split.
  - destruct (IH (S k) (check_db w k q db) j p H) as (b & a & db' & E & U).
    exists (check_trace w k q db ++ b), a, db'.
    rewrite E, <- Nat.add_succ_comm, <- app_assoc.
    split; [reflexivity |]. rewrite U. unfold check_db.
    now destruct (saved w k q).
Qed.

(** C3. In a sweep, a product whose fetch or extraction fails yields no
    price, and a product that yields no price keeps the record it had,
    whole; the sweep goes on to the end, and every product whose price was
    extracted and saved is updated, whatever happened to the products
    before it: the record stored for it carries the new price as its
    current price, the time of its check, and a history that is the last
    29 points of the one before and then the new observation; its other
    fields are as they were. *)
Theorem sweep_isolates_failures db :
  find_rejects w = None -> NoDup (ids db) ->
  result_of (checkPrices w db) = Returned tt
  /\ forall i p,
       nth_error (active db) i = Some p ->
       (scrape_failed w i (Product.url p) ->
        new_price w i (Product.url p) = None)
       /\ (new_price w i (Product.url p) = None ->
           stored (Product._id p) (db_of (checkPrices w db)) = Some p)
       /\ (forall newPrice,
             new_price w i (Product.url p) = Some newPrice ->
             save_rejects w i = None ->
             exists p',
               stored (Product._id p) (db_of (checkPrices w db)) = Some p'
               /\ Product.currentPrice p' = newPrice
               /\ Product.lastChecked p' = Date_now w i
               /\ Product.priceHistory p'
                  = skipn (List.length (Product.priceHistory p) - 29)
                          (Product.priceHistory p)
                    ++ [ {| PricePoint.price := newPrice;
                            PricePoint.date := Date_now w i |} ]
               /\ same_apart_from_price p p').
Proof.
  intros Hf Hn. split; [now rewrite (checkPrices_run w db Hf) |].
  intros i p Hi. rewrite (stored_after_sweep db i p Hf Hn Hi).
  split; [apply scrape_failed_no_price | split].
  - intros E. unfold swept. now rewrite E.
  - intros newPrice Hp Hs. exists (swept w i p).
    split; [reflexivity | now apply swept_observed].
Qed.

(** C9. When the price of a product qualifies for a notification and
    sending the mail fails, the sweep still ends normally and the record
    stored for the product carries the new current price, the time of the
    check and, after the last 29 points of the history, the new
    observation.  When the owner has a user record with notifications on,
    the mail to the owner was handed to the transporter in that sweep; its
    failure is logged, and the step goes on to log the update and to take
    its delay. *)
Theorem update_survives_mail_failure db i p newPrice message :
  find_rejects w = None -> NoDup (ids db) ->
  nth_error (active db) i = Some p ->
  new_price w i (Product.url p) = Some newPrice ->
  save_rejects w i = None ->
  qualifies p newPrice ->
  sendMail_rejects w i = Some message ->
  result_of (checkPrices w db) = Returned tt
  /\ (exists p',
        stored (Product._id p) (db_of (checkPrices w db)) = Some p'
        /\ Product.currentPrice p' = newPrice
        /\ Product.lastChecked p' = Date_now w i
        /\ Product.priceHistory p'
           = skipn (List.length (Product.priceHistory p) - 29)
                   (Product.priceHistory p)
             ++ [ {| PricePoint.price := newPrice;
                     PricePoint.date := Date_now w i |} ])
  /\ (forall user,
        owner db p = Some user -> User.notifications user = true ->
        findById_rejects w i = None ->
        exists before after m,
          trace_of (checkPrices w db)
          = before
            ++ [ SendMail m;
                 ConsoleError (EmailError message);
                 ConsoleLog (Updated (Product.title p)
                               (Product.currentPrice p) newPrice);
                 SetTimeout 2000 ]
            ++ after
          /\ to m = User.email user
          /\ subject m = ("Price Drop Alert: " ++ Product.title p)%string).
Proof.
  intros Hf Hn Hi Hp Hs Hq Hm.
  split; [now rewrite (checkPrices_run w db Hf) |]. split.
  - exists (swept w i p). rewrite (stored_after_sweep db i p Hf Hn Hi).
    destruct (swept_observed i p newPrice Hp Hs) as (C & L & H & _).
    now repeat split.
  - intros user Ho Hu Hl. rewrite (checkPrices_run w db Hf).
    unfold trace_of. cbn [snd].
    destruct (sweep_trace_at (active db) 0 db i p Hi)
      as (b & a & db' & -> & U).
    cbn [Nat.add].
    assert (Ho' : owner db' p = Some user) by (unfold owner in *; now rewrite U).
    unfold check_trace, after_save_trace. rewrite Hp, Hs, Hl.
    change (owner db' (observe newPrice (Date_now w i) p)) with (owner db' p).
    rewrite Ho'.
    pose proof (proj1 (new_price_above_zero _ _ _ _ Hp)) as Hpos.
    rewrite (proj2 (dropped_iff_qualifies p (Date_now w i) newPrice Hpos) Hq).
    unfold notification_trace. rewrite Hu, Hm, observe_title.
    exists (ConsoleLog StartingPriceCheck
            :: b ++ scrape_trace w i (Product.url p)
               ++ [Notify user (observe newPrice (Date_now w i) p)
                     (Product.currentPrice p) newPrice]),
           (a ++ [ConsoleLog PriceCheckCompleted]),
           (mailOptions user (observe newPrice (Date_now w i) p)
              (Product.currentPrice p) newPrice).
    split; [| split; reflexivity].
    cbn [app]. f_equal. rewrite <- !app_assoc. cbn [app]. reflexivity.
Qed.


End Sweep.

Lemma sweep_isolates_failures_witness :
  let after := db_of (checkPrices Sample.calm (Sample.db [])) in
  (exists p1,
      stored 1%nat after = Some p1
      /\ Product.currentPrice p1 = JS.of_Z 85
      /\ Product.lastChecked p1 = 1000%Z
      /\ Product.priceHistory p1
         = [ {| PricePoint.price := JS.of_Z 100; PricePoint.date := 0%Z |};
             {| PricePoint.price := JS.of_Z 85; PricePoint.date := 1000%Z |} ])
  /\ stored 2%nat after = Some Sample.item2
  /\ exists p3,
       stored 3%nat after = Some p3
       /\ Product.currentPrice p3 = Sample.laptop_price
       /\ Product.lastChecked p3 = 1002%Z
       /\ Product.priceHistory p3
          = [ {| PricePoint.price := JS.of_Z 1500; PricePoint.date := 0%Z |};
              {| PricePoint.price := Sample.laptop_price;
                 PricePoint.date := 1002%Z |} ].
Proof.
  assert (Hn : NoDup (ids (Sample.db []))).
  { repeat constructor; cbn; intuition discriminate. }
  destruct (sweep_isolates_failures Sample.calm (Sample.db []) eq_refl Hn)
    as [_ H].
  cbv zeta. split; [| split].
  - destruct (proj2 (proj2 (H 0%nat Sample.item1 eq_refl)) (JS.of_Z 85)
                eq_refl eq_refl)
      as (p1 & S1 & C1 & L1 & H1 & _).
    exists p1. repeat split; assumption.
  - destruct (H 1%nat Sample.item2 eq_refl) as (Hfail & Hkeep & _).
    apply Hkeep, Hfail. left. now exists "timeout of 10000ms exceeded".
  - destruct (proj2 (proj2 (H 2%nat Sample.item3 eq_refl)) Sample.laptop_price
                eq_refl eq_refl)
      as (p3 & S3 & C3 & L3 & H3 & _).
    exists p3. repeat split; assumption.
Defined.

Lemma update_survives_mail_failure_witness :
  (exists p',
      stored 1%nat (db_of (checkPrices Sample.mail_down
                             (Sample.db [Sample.alice true])))
      = Some p'
      /\ Product.currentPrice p' = JS.of_Z 85
      /\ Product.lastChecked p' = 1000%Z
      /\ Product.priceHistory p'
         = [ {| PricePoint.price := JS.of_Z 100; PricePoint.date := 0%Z |};
             {| PricePoint.price := JS.of_Z 85; PricePoint.date := 1000%Z |} ])
  /\ exists before after m,
       trace_of (checkPrices Sample.mail_down (Sample.db [Sample.alice true]))
       = before
         ++ [ SendMail m;
              ConsoleError (EmailError "connect ECONNREFUSED");
              ConsoleLog (Updated "Desk lamp" (JS.of_Z 100) (JS.of_Z 85));
              SetTimeout 2000 ]
         ++ after
       /\ to m = "alice@example.org"%string
       /\ subject m = "Price Drop Alert: Desk lamp"%string.
Proof.
  assert (Hn : NoDup (ids (Sample.db [Sample.alice true]))).
  { repeat constructor; cbn; intuition discriminate. }
  assert (Hq : qualifies Sample.item1 (JS.of_Z 85)).
  { split; [exists (JS.of_Z 90); split; reflexivity | reflexivity]. }
  destruct (update_survives_mail_failure Sample.mail_down
              (Sample.db [Sample.alice true]) 0%nat Sample.item1 (JS.of_Z 85)
              "connect ECONNREFUSED" eq_refl Hn eq_refl eq_refl eq_refl Hq
              eq_refl)
    as (_ & (p' & Hst & Hc & Hl & Hh) & Hmail).
  split; [exists p'; repeat split; assumption |].
  exact (Hmail (Sample.alice true) eq_refl eq_refl eq_refl).
Defined.


Section Retention.

Lemma update_first_bounded id userId f l :
  (forall p, history_bounded p -> history_bounded (f p)) ->
  Forall history_bounded l ->
  Forall history_bounded (snd (update_first id userId f l)).
Proof.
  intros Hf. induction 1 as [| p r Hp Hr IH]; cbn [update_first]; [easy |].
  destruct ((Product._id p =? id)%nat && (Product.userId p =? userId)%nat).
  - cbn. auto.
  - destruct (update_first id userId f r) as [found r']. cbn in *. auto.
Qed.

Lemma findOneAndUpdate_bounded w k id userId f db :
  (forall p, history_bounded p -> history_bounded (f p)) ->
  Forall history_bounded (products db) ->
  Forall history_bounded
    (products (snd (fst (Product_findOneAndUpdate w k id userId f db)))).
Proof.
  intros Hf H. unfold Product_findOneAndUpdate.
  destruct (save_rejects w k); [exact H |].
  pose proof (update_first_bounded id userId f _ Hf H) as B.
  destruct (update_first id userId f (products db)) as [found ps]. exact B.
Qed.

Lemma route_bounded w k id userId f (answer : option Product.t -> Response) db :
  (forall p, history_bounded p -> history_bounded (f p)) ->
  Forall history_bounded (products db) ->
  Forall history_bounded
    (products
       (db_of (try_catch
                 (product <- Product_findOneAndUpdate w k id userId f ;;
                  ret (answer product))
                 (fun message => ret (500%Z, ErrorBody message)) db))).
Proof.
  intros Hf H. pose proof (findOneAndUpdate_bounded w k id userId f db Hf H) as B.
  unfold db_of, try_catch. cbn. unfold Eff_bind.
  destruct (Product_findOneAndUpdate w k id userId f db) as [[[found | m] db1] t];
    exact B.
Qed.

Lemma step_bounded db db' :
  step db db' ->
  Forall history_bounded (products db) ->
  Forall history_bounded (products db').
Proof.
  intros [w k userId url targetPrice db0 | w k userId id targetPrice db0
          | w k userId id db0 | w db0] H.
  - destruct (new_price w k url) as [price |] eqn:E.
    + destruct (post_api_products_accepted w k userId url targetPrice db0 price E)
        as [d [_ ->]].
      destruct (save_rejects w k); [exact H |].
      unfold db_of. cbn. apply Forall_app. split; [exact H |].
      repeat constructor.
    + now rewrite post_api_products_refused by exact E.
  - apply route_bounded; [| exact H]. intros p. now destruct targetPrice.
  - apply route_bounded; [| exact H]. now intros p.
  - destruct (find_rejects w) as [m |] eqn:E.
    + now rewrite (checkPrices_find_rejected w db0 m E).
    + rewrite (checkPrices_run w db0 E). now apply sweep_db_bounded.
Qed.

(** A sweep keeps the ids, and leaves each active product at its position
    and stored under its id as its own step left it. *)
Lemma sweep_tracks w db i p :
  find_rejects w = None -> NoDup (ids db) ->
  nth_error (active db) i = Some p ->
  NoDup (ids (db_of (checkPrices w db)))
  /\ nth_error (active (db_of (checkPrices w db))) i = Some (swept w i p).
Proof.
  intros Hf Hn Hi. rewrite (checkPrices_products w db Hf Hn).
  unfold ids, active in *. cbn [products]. split.
  - now rewrite sweep_list_ids.
  - now apply (sweep_list_active w (products db) 0 i p).
Qed.

Lemma observations_cons w ws i url :
  observations (w :: ws) i url
  = match find_rejects w, new_price w i url, save_rejects w i with
    | None, Some n, None =>
        [ {| PricePoint.price := n; PricePoint.date := Date_now w i |} ]
    | _, _, _ => []
    end ++ observations ws i url.
Proof. reflexivity. Qed.

(** The history of a product after a run of sweeps: the last 30 of what
    it was followed by what the sweeps observed. *)
Lemma sweeps_history ws : forall db i p,
  NoDup (ids db) -> nth_error (active db) i = Some p ->
  (List.length (Product.priceHistory p) <= 30)%nat ->
  exists p',
    stored (Product._id p) (sweeps ws db) = Some p'
    /\ Product.priceHistory p'
       = slice_last 30
           (Product.priceHistory p ++ observations ws i (Product.url p)).
Proof.
  induction ws as [| w r IH]; intros db i p Hn Hi Hl.
  - exists p. split.
    + apply stored_In; [exact Hn |]. apply nth_error_In in Hi.
      unfold active in Hi. now apply filter_In in Hi.
    + cbn [observations flat_map]. rewrite app_nil_r.
      symmetry. now apply slice_last_short.
  - cbn [sweeps fold_left]. fold (sweeps r (db_of (checkPrices w db))).
    rewrite observations_cons.
    destruct (find_rejects w) as [m |] eqn:Hf.
    + rewrite (checkPrices_find_rejected w db m Hf). unfold db_of. cbn [fst snd].
      exact (IH db i p Hn Hi Hl).
    + destruct (sweep_tracks w db i p Hf Hn Hi) as [Hn1 Hi1].
      assert (Hid : Product._id (swept w i p) = Product._id p)
        by apply swept_id.
      assert (Hu : Product.url (swept w i p) = Product.url p)
        by now destruct (swept_same w i p) as (_ & _ & U & _).
      assert (Hh : Product.priceHistory (swept w i p)
                   = slice_last 30
                       (Product.priceHistory p
                        ++ match new_price w i (Product.url p),
                                 save_rejects w i with
                           | Some n, None =>
                               [ {| PricePoint.price := n;
                                    PricePoint.date := Date_now w i |} ]
                           | _, _ => []
                           end)).
      { unfold swept.
        destruct (new_price w i (Product.url p)) as [n |];
          [destruct (save_rejects w i) |];
          rewrite ?app_nil_r, ?observe_priceHistory, ?push_capped_slice;
          try reflexivity; symmetry; now apply slice_last_short. }
      destruct (IH _ i (swept w i p) Hn1 Hi1) as (p' & Hs & Hp).
      { rewrite Hh, slice_last_length. lia. }
      exists p'. rewrite Hid, Hu in *. split; [exact Hs |].
      rewrite Hp, Hh, slice_last_app, <- app_assoc.
      now destruct (new_price w i (Product.url p)) as [n |];
        [destruct (save_rejects w i) |].
Qed.

(** C2. In every database the program can bring about, each product has
    between 1 and 30 price points.  Registration stores the new product
    with a history of one point, the observation it made.  From then on
    the sweeps add their observations: after any run of sweeps, the
    history stored for a product is what it was followed by one point for
    each sweep that got a usable price and saved it, in that order, cut to
    the last 30; so once more than 30 points have been recorded it holds
    exactly the 30 most recent ones, oldest first. *)
Theorem price_history_bounded :
  (forall db, reachable db -> Forall history_bounded (products db))
  /\ (forall w k userId url targetPrice db price,
        new_price w k url = Some price -> save_rejects w k = None ->
        exists product,
          products (db_of (post_api_products w k userId url targetPrice db))
          = products db ++ [product]
          /\ Product.priceHistory product
             = [ {| PricePoint.price := price;
                    PricePoint.date := Date_now w k |} ])
  /\ (forall ws db i p,
        NoDup (ids db) -> nth_error (active db) i = Some p ->
        (List.length (Product.priceHistory p) <= 30)%nat ->
        let recorded :=
          Product.priceHistory p ++ observations ws i (Product.url p) in
        exists p',
          stored (Product._id p) (sweeps ws db) = Some p'
          /\ Product.priceHistory p'
             = skipn (List.length recorded - 30) recorded
          /\ List.length (Product.priceHistory p')
             = Nat.min 30 (List.length recorded)).
Proof.
  split; [| split].
  - induction 1 as [us | db db' _ IH Hs]; [constructor |].
    exact (step_bounded db db' Hs IH).
  - intros w k userId url targetPrice db price Hp Hs.
    destruct (post_api_products_accepted w k userId url targetPrice db price Hp)
      as [d [_ ->]].
    rewrite Hs. eexists. split; reflexivity.
  - intros ws db i p Hn Hi Hl. cbv zeta.
    destruct (sweeps_history ws db i p Hn Hi Hl) as (p' & Hs & Hp).
    exists p'. split; [exact Hs |]. split; [exact Hp |].
    now rewrite Hp, slice_last_length.
Qed.

Lemma price_history_bounded_witness :
  exists p',
    stored 100%nat (sweeps Sample.month Sample.registered_lamp) = Some p'
    /\ map PricePoint.date (Product.priceHistory p')
       = map (fun j => (2000 + Z.of_nat j)%Z) (seq 2 30)
    /\ List.length (Product.priceHistory p') = 30%nat.
Proof.
  assert (Hn : NoDup (ids Sample.registered_lamp)).
  { repeat constructor. intros []. }
  destruct (proj2 (proj2 price_history_bounded) Sample.month
              Sample.registered_lamp 0%nat Sample.fresh_lamp Hn eq_refl)
    as (p' & Hs & Hp & Hl).
  { cbn. lia. }
  exists p'. split; [exact Hs |]. split.
  - rewrite Hp. vm_compute. reflexivity.
  - rewrite Hl. vm_compute. reflexivity.
Defined.

End Retention.

Section Savings.

(** The percentage of a price that went down from a positive Number [o]
    is a whole number from 0 to 100. *)
Lemma percent_range o n :
  JS.round64 o = JS.Fin o -> 0 < o -> 0 <= n <= o ->
  exists z,
    percent_off (JS.Fin o) (JS.Fin n) = JS.Fin (inject_Z z)
    /\ (0 <= z <= 100)%Z.
Proof.
  intros Bo Ho Hn. unfold percent_off. cbn [JS.sub].
  destruct (round64_between 0 o (o - n) eq_refl Bo) as (s & -> & Hs & _);
    [lra |].
  cbn [JS.div].
  assert (E : JS.is_zero o = false) by (apply is_zero_false; lra).
  rewrite E.
  destruct (round64_between 0 1 (s / o) eq_refl eq_refl) as (d & -> & Hd & _).
  { split; [apply Qle_shift_div_l | apply Qle_shift_div_r]; lra. }
  cbn [JS.mul JS.of_Z].
  destruct (round64_between 0 100 (d * inject_Z 100) eq_refl eq_refl)
    as (m & -> & Hm & _).
  { change (inject_Z 100) with 100. lra. }
  cbn [JS.Math_round]. eexists. split; [reflexivity |]. split.
  - apply (Qfloor_resp_le 0). lra.
  - apply (Qfloor_resp_le _ (100 + (1 # 2))). lra.
Qed.





End Savings.

Section Pacing.

Lemma count_delay_check_trace w k product db :
  save_rejects w k = None -> findById_rejects w k = None ->
  count is_delay (check_trace w k product db) = 1%nat.
Proof.
  intros Hs Hl. unfold check_trace, after_save_trace.
  rewrite count_app, count_delay_scrape_trace, Hs, Hl.
  destruct (new_price w k (Product.url product)); [| reflexivity].
  destruct (price_dropped_below_target _ _ _); [| reflexivity].
  destruct (owner db _) as [u |]; [| reflexivity].
  rewrite count_app. unfold notification_trace.
  destruct (User.notifications u); [| reflexivity].
  now destruct (sendMail_rejects w k).
Qed.

(** As long as no database call throws, every product of a sweep is
    followed by one delay, whether its price was extracted or not. *)
Lemma delays_when_nothing_throws w ps : forall k db,
  (forall j, save_rejects w j = None) ->
  (forall j, findById_rejects w j = None) ->
  count is_delay (sweep_trace w k ps db) = List.length ps.
Proof.
  induction ps as [| p r IH]; intros k db Hs Hl; [reflexivity |].
  cbn [sweep_trace List.length].
  now rewrite count_app, count_delay_check_trace, IH.
Qed.

(** C8 at a failing input.  In a sweep of three products where the
    database refuses to save the first two, the request for the second
    product follows the first and the request for the third follows the
    second with no delay in between: the sweep makes one delay, not the two
    that three products call for. *)
Theorem no_delay_after_a_refused_save :
  trace_of (checkPrices Sample.writes_refused (Sample.db []))
  = [ ConsoleLog StartingPriceCheck;
      Get Sample.lamp;
      ConsoleError (ErrorChecking "Desk lamp" "write failed");
      Get Sample.chair;
      ConsoleError (ErrorChecking "Desk lamp" "write failed");
      Get Sample.laptop;
      ConsoleLog (Updated "Desk lamp" (JS.of_Z 1500) (JS.of_Z 85));
      SetTimeout 2000;
      ConsoleLog PriceCheckCompleted ]
  /\ List.length (active (Sample.db [])) = 3%nat
  /\ count is_delay
       (trace_of (checkPrices Sample.writes_refused (Sample.db [])))
     = 1%nat.
Proof. repeat split. Qed.

End Pacing.

Section Examples.

Local Open Scope string_scope.

Example parseFloat_decimal : JS.parseFloat "1299.99" = Sample.laptop_price.
Proof. reflexivity. Qed.

Example parseFloat_tenth :
  JS.parseFloat "0.1" = JS.Fin (3602879701896397 # 36028797018963968).
Proof. reflexivity. Qed.

Example parseFloat_overflow :
  JS.parseFloat (Sample.nines 310) = JS.Infinity false.
Proof. vm_compute. reflexivity. Qed.

Example parseFloat_underflow : JS.parseFloat "1e-400" = JS.Fin 0.
Proof. vm_compute. reflexivity. Qed.

Example parseFloat_signed_exponent :
  JS.parseFloat "  -12.5e1xyz" = JS.Fin (-125 # 1).
Proof. reflexivity. Qed.

Example parseFloat_lone_dot : JS.parseFloat "." = JS.NaN.
Proof. reflexivity. Qed.

Example parseFloat_second_dot : JS.parseFloat "1.2.3" = JS.round64 (6 # 5).
Proof. reflexivity. Qed.

Example parseFloat_trailing_dot : JS.parseFloat "12." = JS.Fin (12 # 1).
Proof. reflexivity. Qed.

Example parseFloat_incomplete_exponent : JS.parseFloat ".5e" = JS.Fin (1 # 2).
Proof. reflexivity. Qed.

Example trim_both_ends : JS.trim "  a b  " = "a b".
Proof. reflexivity. Qed.

Example trim_no_break_space :
  JS.trim (String (ascii_of_nat 160) "a b ") = "a b".
Proof. reflexivity. Qed.

(** Rounding to binary64: a tie goes to the even neighbour, below the
    least exponent the unit stays [2^-1074], and [2^1024] is out of
    range. *)
Example round64_ties_to_even :
  JS.round64 (inject_Z (2 ^ 53 + 1)) = JS.Fin (inject_Z (2 ^ 53))
  /\ JS.round64 (inject_Z (2 ^ 53 + 3)) = JS.Fin (inject_Z (2 ^ 53 + 4)).
Proof. split; vm_compute; reflexivity. Qed.

Example round64_gradual_underflow :
  JS.round64 (JS.pow2 (-1075)) = JS.Fin 0
  /\ JS.round64 (3 * JS.pow2 (-1075)) = JS.round64 (JS.pow2 (-1073))
  /\ JS.round64 (JS.pow2 (-1074)) = JS.Fin (Qred (JS.pow2 (-1074))).
Proof. repeat split; vm_compute; reflexivity. Qed.

Example round64_overflow :
  JS.round64 (JS.pow2 1024) = JS.Infinity false
  /\ JS.round64 (- JS.pow2 1024) = JS.Infinity true
  /\ JS.round64 (JS.pow2 1024 - JS.pow2 970) = JS.Infinity false
  /\ JS.round64 (JS.pow2 1024 - JS.pow2 971)
     = JS.Fin (Qred (JS.pow2 1024 - JS.pow2 971)).
Proof. repeat split; vm_compute; reflexivity. Qed.

(** The arithmetic is that of binary64. *)
Example tenth_plus_two_tenths :
  JS.add (JS.parseFloat "0.1") (JS.parseFloat "0.2")
  = JS.Fin (1351079888211149 # 4503599627370496)
  /\ JS.parseFloat "0.3" = JS.Fin (5404319552844595 # 18014398509481984).
Proof. split; vm_compute; reflexivity. Qed.

Example percent_of_10_and_1_05 :
  percent_off (JS.of_Z 10) (JS.parseFloat "1.05") = JS.of_Z 89.
Proof. vm_compute. reflexivity. Qed.

Example toFixed2_rounds_to_hundredths :
  toFixed2 (JS.parseFloat "200.005") = Str "200.00"
  /\ toFixed2 (JS.parseFloat "2.5") = Str "2.50"
  /\ toFixed2 (JS.parseFloat "0.045") = Str "0.04"
  /\ toFixed2 (JS.parseFloat "-0.001") = Str "-0.00"
  /\ toFixed2 (JS.parseFloat "1e21") = Num (JS.parseFloat "1e21").
Proof. repeat split; vm_compute; reflexivity. Qed.

Example includes_host :
  JS.includes "https://www.amazon.com/dp/B01" "amazon." = true.
Proof. reflexivity. Qed.

(** The notification rule on the three cases of the specification. *)
Example rule_fires_100_90_85 :
  price_dropped_below_target (Sample.item 1%nat Sample.lamp 100%Z (Some 90%Z))
    (JS.of_Z 100) (JS.of_Z 85) = true.
Proof. reflexivity. Qed.

Example rule_silent_85_90_85 :
  price_dropped_below_target (Sample.item 1%nat Sample.lamp 85%Z (Some 90%Z))
    (JS.of_Z 85) (JS.of_Z 85) = false.
Proof. reflexivity. Qed.

Example rule_silent_100_90_95 :
  price_dropped_below_target (Sample.item 1%nat Sample.lamp 100%Z (Some 90%Z))
    (JS.of_Z 100) (JS.of_Z 95) = false.
Proof. reflexivity. Qed.

(** The sweep of the three sample products, the second of which times
    out. *)
Example sweep_of_three :
  trace_of (checkPrices Sample.calm (Sample.db [Sample.alice true]))
  = [ ConsoleLog StartingPriceCheck;
      Get Sample.lamp;
      Notify (Sample.alice true)
        (observe (JS.of_Z 85) 1000%Z Sample.item1) (JS.of_Z 100) (JS.of_Z 85);
      SendMail (mailOptions (Sample.alice true)
                  (observe (JS.of_Z 85) 1000%Z Sample.item1)
                  (JS.of_Z 100) (JS.of_Z 85));
      ConsoleLog (NotificationSentTo "alice@example.org");
      ConsoleLog (Updated "Desk lamp" (JS.of_Z 100) (JS.of_Z 85));
      SetTimeout 2000;
      Get Sample.chair;
      ConsoleError (ScrapingError "timeout of 10000ms exceeded");
      SetTimeout 2000;
      Get Sample.laptop;
      ConsoleLog (Updated "Desk lamp" (JS.of_Z 1500) Sample.laptop_price);
      SetTimeout 2000;
      ConsoleLog PriceCheckCompleted ].
Proof. reflexivity. Qed.

End Examples.

(* ===================================================================== *)
(** * Further properties: the sweep as a whole *)
(* ===================================================================== *)

Section SweepTraces.

Variable w : World.

(** Decides every oracle, test and lookup a step's trace depends on. *)
Ltac step_cases :=
  unfold check_trace, after_save_trace, notification_trace, scrape_trace;
  repeat match goal with
         | |- context [match ?x with _ => _ end] => destruct x
         end.

Lemma requests_check_trace k p db :
  requests (check_trace w k p db) = [Product.url p].
Proof. step_cases; reflexivity. Qed.

Lemma requests_sweep_trace ps : forall k db,
  requests (sweep_trace w k ps db) = map Product.url ps.
Proof.
  induction ps as [| p r IH]; intros k db; [reflexivity |].
  cbn [sweep_trace map]. unfold requests in *.
  rewrite flat_map_app. fold (requests (check_trace w k p db)).
  now rewrite requests_check_trace, IH.
Qed.

Lemma delays_check_trace k p db :
  delays (check_trace w k p db) = [] \/ delays (check_trace w k p db) = [2000%Z].
Proof. step_cases; cbn; auto. Qed.

Lemma delays_check_trace_calm k p db :
  save_rejects w k = None -> findById_rejects w k = None ->
  delays (check_trace w k p db) = [2000%Z].
Proof.
  intros Hs Hl. unfold check_trace, after_save_trace. rewrite Hs, Hl.
  unfold notification_trace, scrape_trace.
  repeat match goal with
         | |- context [match ?x with _ => _ end] => destruct x
         end; reflexivity.
Qed.

Lemma delays_sweep_trace ps : forall k db,
  exists n,
    delays (sweep_trace w k ps db) = repeat 2000%Z n
    /\ (n <= List.length ps)%nat
    /\ (nothing_throws w -> n = List.length ps).
Proof.
  induction ps as [| p r IH]; intros k db.
  - exists 0%nat. repeat split; auto.
  - destruct (IH (S k) (check_db w k p db)) as (n & E & Hle & Hall).
    cbn [sweep_trace List.length]. unfold delays in *. rewrite flat_map_app.
    fold (delays (check_trace w k p db)).
    destruct (delays_check_trace k p db) as [D | D].
    + exists n. rewrite D, E. split; [reflexivity |]. split; [lia |].
      intros [Hs Hl]. rewrite (delays_check_trace_calm k p db (Hs k) (Hl k)) in D.
      discriminate.
    + exists (S n). rewrite D, E. split; [reflexivity |]. split; [lia |].
      intros H. now rewrite (Hall H).
Qed.

End SweepTraces.

Section SweepAsAWhole.

Variable w : World.

Lemma sweep_db_keeps_users ps : forall k db,
  users (sweep_db w k ps db) = users db.
Proof.
  induction ps as [| p r IH]; intros k db; [reflexivity |].
  cbn [sweep_db]. rewrite IH. unfold check_db. now destruct (saved w k p).
Qed.

(** X1. Whatever fails (a request, a database call, the mail channel),
    [checkPrices] completes without throwing and leaves the users as they
    were.  Its trace opens with the starting line and closes with the
    completion line when [Product.find] resolved, with the one line of the
    outer catch clause when it rejected. *)
Theorem checkPrices_always_completes db :
  result_of (checkPrices w db) = Returned tt
  /\ users (db_of (checkPrices w db)) = users db
  /\ hd_error (trace_of (checkPrices w db))
     = Some (ConsoleLog StartingPriceCheck)
  /\ last (trace_of (checkPrices w db)) (ConsoleLog StartingPriceCheck)
     = match find_rejects w with
       | None => ConsoleLog PriceCheckCompleted
       | Some message => ConsoleError (PriceCheckError message)
       end.
Proof.
  destruct (find_rejects w) as [m |] eqn:E.
  - rewrite (checkPrices_find_rejected w db m E). repeat split.
  - rewrite (checkPrices_run w db E). unfold result_of, db_of, trace_of.
    cbn [fst snd hd_error].
    split; [reflexivity |]. split; [apply sweep_db_keeps_users |].
    split; [reflexivity |].
    change (ConsoleLog StartingPriceCheck
            :: sweep_trace w 0 (active db) db ++ [ConsoleLog PriceCheckCompleted])
      with ((ConsoleLog StartingPriceCheck :: sweep_trace w 0 (active db) db)
            ++ [ConsoleLog PriceCheckCompleted]).
    apply last_last.
Qed.

(** X2. A sweep requests the URL of every active product exactly once, in
    the order of the collection, whatever fails along the way, and
    requests nothing else; it makes no request when [Product.find]
    rejects.  A product that was removed from tracking is never
    requested. *)
Theorem sweep_requests_the_active_products db :
  requests (trace_of (checkPrices w db))
  = match find_rejects w with
    | None => map Product.url (active db)
    | Some _ => []
    end.
Proof.
  destruct (find_rejects w) as [m |] eqn:E.
  - now rewrite (checkPrices_find_rejected w db m E).
  - rewrite (checkPrices_run w db E). unfold trace_of. cbn [snd].
    unfold requests. cbn [flat_map app]. rewrite flat_map_app. cbn.
    rewrite app_nil_r. apply requests_sweep_trace.
Qed.

(** X3. In a collection with distinct ids, a sweep keeps the number and
    the order of the documents; in each one it changes at most the current
    price, the time of the last check and the price history, and it leaves
    a document that is not active exactly as it was. *)
Theorem sweep_touches_price_fields_only db :
  find_rejects w = None -> NoDup (ids db) ->
  Forall2 same_apart_from_price
          (products db) (products (db_of (checkPrices w db)))
  /\ Forall2 (fun p p' => Product.isActive p = false -> p' = p)
             (products db) (products (db_of (checkPrices w db))).
Proof.
  intros Hf Hn. rewrite (checkPrices_products w db Hf Hn). cbn [products].
  split; [apply sweep_list_same | apply sweep_list_inactive].
Qed.

(** X4. Every delay of a sweep is one of 2000 ms; there are at most as
    many as active products, and exactly as many (one after each product,
    the last one included) when [Product.find] resolves and no save and no
    user lookup throws. *)
Theorem sweep_delays db :
  exists n,
    delays (trace_of (checkPrices w db)) = repeat 2000%Z n
    /\ (n <= List.length (active db))%nat
    /\ (find_rejects w = None -> nothing_throws w ->
        n = List.length (active db)).
Proof.
  destruct (find_rejects w) as [m |] eqn:E.
  - rewrite (checkPrices_find_rejected w db m E). exists 0%nat.
    split; [reflexivity |]. split; [lia | discriminate].
  - rewrite (checkPrices_run w db E). unfold trace_of. cbn [snd].
    destruct (delays_sweep_trace w (active db) 0 db) as (n & D & Hle & Hall).
    exists n. split; [| split; auto].
    unfold delays in *. cbn [flat_map app]. rewrite flat_map_app, D. cbn.
    now rewrite app_nil_r.
Qed.

Lemma sweep_db_without_prices ps : forall k db,
  (forall i p, nth_error ps i = Some p ->
               new_price w (k + i) (Product.url p) = None) ->
  sweep_db w k ps db = db
  /\ mails (sweep_trace w k ps db) = []
  /\ delays (sweep_trace w k ps db) = repeat 2000%Z (List.length ps).
Proof.
  induction ps as [| p r IH]; intros k db H; [repeat split |].
  assert (E : new_price w k (Product.url p) = None).
  { rewrite <- (Nat.add_0_r k). now apply (H 0%nat). }
  assert (D : check_db w k p db = db).
  { unfold check_db, saved. now rewrite E. }
  cbn [sweep_db sweep_trace List.length repeat]. rewrite D.
  destruct (IH (S k) db) as (Hdb & Hm & Hd).
  { intros i q Hq. rewrite Nat.add_succ_comm. now apply (H (S i)). }
  split; [exact Hdb |].
  unfold mails, delays in *. rewrite !flat_map_app, Hm, Hd.
  unfold check_trace, scrape_trace. rewrite E.
  destruct (axios_get w k (Product.url p)); split; reflexivity.
Qed.

(** X5. A sweep in which no product yields a usable price (every request
    fails, or no page shows one) leaves the whole database exactly as it
    was and sends no mail; it still takes its delay after every product. *)
Theorem sweep_without_prices_changes_nothing db :
  find_rejects w = None ->
  (forall i p, nth_error (active db) i = Some p ->
               new_price w i (Product.url p) = None) ->
  db_of (checkPrices w db) = db
  /\ mails (trace_of (checkPrices w db)) = []
  /\ delays (trace_of (checkPrices w db))
     = repeat 2000%Z (List.length (active db)).
Proof.
  intros Hf H. rewrite (checkPrices_run w db Hf).
  unfold db_of, trace_of. cbn [fst snd].
  destruct (sweep_db_without_prices (active db) 0 db H) as (Hdb & Hm & Hd).
  split; [exact Hdb |].
  unfold mails, delays in *. cbn [flat_map app].
  rewrite !flat_map_app, Hm, Hd. cbn. now rewrite app_nil_r.
Qed.

End SweepAsAWhole.

Lemma sweep_touches_price_fields_only_witness :
  Forall2 same_apart_from_price
    (products (Sample.db []))
    (products (db_of (checkPrices Sample.calm (Sample.db [])))).
Proof.
  apply (sweep_touches_price_fields_only Sample.calm (Sample.db [])).
  - reflexivity.
  - repeat constructor; cbn; intuition discriminate.
Defined.

Lemma sweep_delays_witness :
  exists n,
    delays (trace_of (checkPrices Sample.calm (Sample.db [])))
    = repeat 2000%Z n
    /\ n = 3%nat.
Proof.
  destruct (sweep_delays Sample.calm (Sample.db [])) as (n & D & _ & H).
  exists n. split; [exact D |].
  apply H; [reflexivity |]. split; reflexivity.
Defined.

Lemma sweep_without_prices_changes_nothing_witness :
  db_of (checkPrices (Sample.showing "sold out") (Sample.db []))
  = Sample.db [].
Proof.
  apply (sweep_without_prices_changes_nothing
           (Sample.showing "sold out") (Sample.db [])).
  - reflexivity.
  - intros [| [| [| i]]] p H; cbn in H;
      try (injection H as <-; reflexivity).
    destruct i; discriminate.
Defined.

Section Mails.

Variable w : World.

Lemma lt_irrefl n : JS.lt n n = false.
Proof.
  destruct n as [| [|] | q]; try reflexivity.
  cbn. unfold JS.Qltb. apply negb_false_iff, Qle_bool_iff, Qle_refl.
Qed.

Lemma notified_dropped k db p n :
  notified w k db p n = true ->
  JS.lt n (Product.currentPrice p) = true.
Proof.
  unfold notified, price_dropped_below_target.
  destruct (save_rejects w k); [discriminate |].
  destruct (findById_rejects w k); [discriminate |].
  destruct (owner db p); [| discriminate].
  intros H. now apply andb_true_iff in H as [_ H].
Qed.

Lemma owner_check_db k q db p : owner (check_db w k q db) p = owner db p.
Proof. unfold owner, check_db. now destruct (saved w k q). Qed.

(** The mail of a step, if any: one, made for the owner. *)
Lemma mails_check_trace k p db :
  mails (check_trace w k p db) = []
  \/ exists user n,
       new_price w k (Product.url p) = Some n
       /\ notified w k db p n = true
       /\ owner db p = Some user
       /\ User.notifications user = true
       /\ mails (check_trace w k p db)
          = [mailOptions user (observe n (Date_now w k) p)
               (Product.currentPrice p) n].
Proof.
  unfold check_trace, after_save_trace, notified, mails.
  rewrite flat_map_app.
  assert (S0 : flat_map (fun e => match e with SendMail m => [m] | _ => [] end)
                 (scrape_trace w k (Product.url p)) = []).
  { unfold scrape_trace. now destruct (axios_get w k (Product.url p)). }
  rewrite S0. cbn [app].
  destruct (new_price w k (Product.url p)) as [n |]; [| now left].
  destruct (save_rejects w k); [now left |].
  change (owner db (observe n (Date_now w k) p)) with (owner db p).
  destruct (price_dropped_below_target _ _ _) eqn:D; [| now left].
  destruct (findById_rejects w k); [now left |].
  destruct (owner db p) as [u |]; [| now left].
  unfold notification_trace.
  destruct (User.notifications u) eqn:N; [| now left].
  right. exists u, n. repeat split; auto.
  now destruct (sendMail_rejects w k).
Qed.

Lemma mails_sweep_trace ps : forall k db m,
  In m (mails (sweep_trace w k ps db)) ->
  exists i p user n,
    nth_error ps i = Some p
    /\ new_price w (k + i) (Product.url p) = Some n
    /\ qualifies p n
    /\ owner db p = Some user
    /\ User.notifications user = true
    /\ m = mailOptions user (observe n (Date_now w (k + i)) p)
             (Product.currentPrice p) n.
Proof.
  induction ps as [| p r IH]; intros k db m H; [easy |].
  cbn [sweep_trace] in H. unfold mails in H. rewrite flat_map_app in H.
  apply in_app_or in H as [H | H].
  - fold (mails (check_trace w k p db)) in H.
    destruct (mails_check_trace k p db) as [E | (u & n & Hp & Hn & Ho & Hu & E)];
      rewrite E in H; [easy |].
    destruct H as [<- | []]. exists 0%nat, p, u, n. rewrite Nat.add_0_r.
    pose proof (proj1 (new_price_above_zero _ _ _ _ Hp)) as Hq.
    apply (notified_iff w k db p n Hq) in Hn as [Hn _].
    repeat (split; [first [reflexivity | assumption] |]);
      first [reflexivity | assumption].
  - destruct (IH (S k) (check_db w k p db) m H)
      as (i & p' & u & n & Hi & Hp & Hq & Ho & Hu & E).
    exists (S i), p', u, n. rewrite <- Nat.add_succ_comm.
    rewrite owner_check_db in Ho.
    repeat (split; [first [reflexivity | assumption] |]);
      first [reflexivity | assumption].
Qed.

Lemma mails_sweep_trace_length ps : forall k db,
  (List.length (mails (sweep_trace w k ps db)) <= List.length ps)%nat.
Proof.
  induction ps as [| p r IH]; intros k db; [cbn; lia |].
  cbn [sweep_trace List.length]. unfold mails. rewrite flat_map_app, length_app.
  fold (mails (check_trace w k p db)).
  fold (mails (sweep_trace w (S k) r (check_db w k p db))).
  specialize (IH (S k) (check_db w k p db)).
  destruct (mails_check_trace k p db) as [E | (u & n & _ & _ & _ & _ & E)];
    rewrite E; cbn [List.length]; lia.
Qed.

(** X6. Every mail a sweep hands to the transporter is the price-drop mail
    of an active product whose new price satisfies the notification rule,
    addressed to the user record of its owner, who has notifications
    switched on; a sweep makes at most one mail per active product. *)
Theorem mails_go_to_owners db :
  find_rejects w = None ->
  (List.length (mails (trace_of (checkPrices w db)))
   <= List.length (active db))%nat
  /\ forall m,
       In m (mails (trace_of (checkPrices w db))) ->
       exists i p user newPrice,
         nth_error (active db) i = Some p
         /\ new_price w i (Product.url p) = Some newPrice
         /\ qualifies p newPrice
         /\ owner db p = Some user
         /\ User.notifications user = true
         /\ to m = User.email user
         /\ m = mailOptions user (observe newPrice (Date_now w i) p)
                  (Product.currentPrice p) newPrice.
Proof.
  intros Hf. rewrite (checkPrices_run w db Hf). unfold trace_of. cbn [snd].
  assert (E : mails (ConsoleLog StartingPriceCheck
                     :: sweep_trace w 0 (active db) db
                        ++ [ConsoleLog PriceCheckCompleted])
              = mails (sweep_trace w 0 (active db) db)).
  { unfold mails. cbn [flat_map app]. rewrite flat_map_app. cbn.
    now rewrite app_nil_r. }
  rewrite E. split; [apply mails_sweep_trace_length |].
  intros m H.
  destruct (mails_sweep_trace (active db) 0 db m H)
    as (i & p & u & n & Hi & Hp & Hq & Ho & Hu & ->).
  exists i, p, u, n.
  repeat (split; [first [reflexivity | assumption] |]);
    first [reflexivity | assumption].
Qed.

Lemma silent_check_trace k p db :
  (forall n, new_price w k (Product.url p) = Some n ->
             JS.lt n (Product.currentPrice p) = false) ->
  count is_notify (check_trace w k p db) = 0%nat
  /\ mails (check_trace w k p db) = [].
Proof.
  intros H. split.
  - destruct (new_price w k (Product.url p)) as [n |] eqn:E.
    + rewrite (count_notify_check_trace w k p db n E).
      destruct (notified w k db p n) eqn:N; [| reflexivity].
      apply notified_dropped in N. rewrite (H n eq_refl) in N. discriminate.
    + unfold check_trace. rewrite E, count_app, count_notify_scrape_trace.
      reflexivity.
  - destruct (mails_check_trace k p db) as [E | (u & n & Hp & Hn & _)];
      [exact E |].
    apply notified_dropped in Hn. rewrite (H n Hp) in Hn. discriminate.
Qed.

Lemma silent_sweep_trace ps : forall k db,
  (forall i p n, nth_error ps i = Some p ->
                 new_price w (k + i) (Product.url p) = Some n ->
                 JS.lt n (Product.currentPrice p) = false) ->
  count is_notify (sweep_trace w k ps db) = 0%nat
  /\ mails (sweep_trace w k ps db) = [].
Proof.
  induction ps as [| p r IH]; intros k db H; [split; reflexivity |].
  cbn [sweep_trace].
  destruct (silent_check_trace k p db) as [C M].
  { intros n Hn. apply (H 0%nat p n); [reflexivity | now rewrite Nat.add_0_r]. }
  destruct (IH (S k) (check_db w k p db)) as [C' M'].
  { intros i q n Hi Hn. apply (H (S i) q n); [exact Hi |].
    now rewrite <- Nat.add_succ_comm. }
  split.
  - now rewrite count_app, C, C'.
  - unfold mails in *. now rewrite flat_map_app, M, M'.
Qed.

End Mails.

Section Repetition.

(** X7. After a sweep whose saves all went through, a second sweep that
    gets the same pages notifies nobody and sends no mail, whatever the
    targets are: no price is below the one stored by the first sweep. *)
Theorem second_sweep_is_silent w w' db :
  find_rejects w = None -> find_rejects w' = None ->
  NoDup (ids db) ->
  (forall k, save_rejects w k = None) ->
  (forall k url, axios_get w' k url = axios_get w k url) ->
  count is_notify (trace_of (checkPrices w' (db_of (checkPrices w db))))
  = 0%nat
  /\ mails (trace_of (checkPrices w' (db_of (checkPrices w db)))) = [].
Proof.
  intros Hf Hf' Hn Hs Hg.
  rewrite (checkPrices_run w' _ Hf'). unfold trace_of. cbn [snd].
  rewrite (checkPrices_products w db Hf Hn).
  set (db1 := {| products := sweep_list w 0 (products db); users := users db |}).
  destruct (silent_sweep_trace w' (active db1) 0 db1) as [C M].
  { intros i p' n Hi Hp. unfold active, db1 in Hi. cbn [products] in Hi.
    apply active_sweep_list in Hi as (p & _ & ->). cbn [Nat.add] in *.
    destruct (swept_same w i p) as (_ & _ & Hu & _). rewrite Hu in Hp.
    assert (E : new_price w i (Product.url p) = Some n).
    { unfold new_price, scraped in *. now rewrite <- Hg. }
    unfold swept. rewrite E, Hs, observe_currentPrice. apply lt_irrefl. }
  split.
  - unfold count in *. cbn [filter is_notify]. rewrite filter_app, length_app.
    now rewrite C.
  - unfold mails in *. cbn [flat_map app]. rewrite flat_map_app, M. reflexivity.
Qed.

End Repetition.

Lemma mails_go_to_owners_witness :
  exists i p user,
    nth_error (active (Sample.db [Sample.alice true])) i = Some p
    /\ owner (Sample.db [Sample.alice true]) p = Some user
    /\ to (mailOptions (Sample.alice true)
             (observe (JS.of_Z 85) 1000%Z Sample.item1)
             (JS.of_Z 100) (JS.of_Z 85))
       = User.email user.
Proof.
  destruct (proj2 (mails_go_to_owners Sample.calm
                     (Sample.db [Sample.alice true]) eq_refl)
                  (mailOptions (Sample.alice true)
                     (observe (JS.of_Z 85) 1000%Z Sample.item1)
                     (JS.of_Z 100) (JS.of_Z 85)))
    as (i & p & u & n & Hi & _ & _ & Ho & _ & Ht & _).
  - vm_compute. left. reflexivity.
  - exists i, p, u. repeat split; assumption.
Defined.

Lemma second_sweep_is_silent_witness :
  mails (trace_of (checkPrices Sample.calm
                     (db_of (checkPrices Sample.calm
                               (Sample.db [Sample.alice true])))))
  = [].
Proof.
  apply (second_sweep_is_silent Sample.calm Sample.calm
           (Sample.db [Sample.alice true])).
  - reflexivity.
  - reflexivity.
  - repeat constructor; cbn; intuition discriminate.
  - reflexivity.
  - reflexivity.
Defined.

(* ===================================================================== *)
(** * Further properties: what holds of every tracked product *)
(* ===================================================================== *)

Section Invariants.

Variable P : Product.t -> Prop.

Hypothesis P_new :
  forall w k userId url targetPrice price d,
    new_price w k url = Some price -> scraped w k url = Some d ->
    P (new_Product w k userId url targetPrice price d).
Hypothesis P_retarget : forall t p, P p -> P (Product.set_targetPrice t p).
Hypothesis P_remove : forall p, P p -> P (Product.set_isActive false p).
Hypothesis P_observe :
  forall w k p n,
    P p -> new_price w k (Product.url p) = Some n ->
    P (observe n (Date_now w k) p).

Lemma sweep_db_invariant w ps : forall k db,
  Forall P ps -> Forall P (products db) ->
  Forall P (products (sweep_db w k ps db)).
Proof.
  induction ps as [| p r IH]; intros k db Hps H; [exact H |].
  inversion Hps as [| ? ? Hp Hr]; subst.
  cbn [sweep_db]. apply IH; [exact Hr |]. unfold check_db, saved, swept.
  destruct (new_price w k (Product.url p)) as [n |] eqn:E; [| exact H].
  destruct (save_rejects w k); [exact H |].
  cbn [products set_products]. apply Forall_replace; [| exact H].
  now apply P_observe.
Qed.

Lemma update_first_invariant id userId f l :
  (forall p, P p -> P (f p)) ->
  Forall P l -> Forall P (snd (update_first id userId f l)).
Proof.
  intros Hf. induction 1 as [| p r Hp Hr IH]; cbn [update_first]; [easy |].
  destruct ((Product._id p =? id)%nat && (Product.userId p =? userId)%nat).
  - cbn. auto.
  - destruct (update_first id userId f r) as [found r']. cbn in *. auto.
Qed.

Lemma route_invariant w k id userId f (answer : option Product.t -> Response)
  db :
  (forall p, P p -> P (f p)) ->
  Forall P (products db) ->
  Forall P
    (products
       (db_of (try_catch
                 (product <- Product_findOneAndUpdate w k id userId f ;;
                  ret (answer product))
                 (fun message => ret (500%Z, ErrorBody message)) db))).
Proof.
  intros Hf H. unfold db_of, try_catch, Product_findOneAndUpdate.
  cbn. unfold Eff_bind.
  destruct (save_rejects w k); [exact H |].
  pose proof (update_first_invariant id userId f _ Hf H) as B.
  destruct (update_first id userId f (products db)) as [found ps]. exact B.
Qed.

Lemma step_invariant db db' :
  step db db' -> Forall P (products db) -> Forall P (products db').
Proof.
  intros [w k userId url targetPrice db0 | w k userId id targetPrice db0
          | w k userId id db0 | w db0] H.
  - destruct (new_price w k url) as [price |] eqn:E.
    + destruct (post_api_products_accepted w k userId url targetPrice db0 price E)
        as [d [Hd ->]].
      destruct (save_rejects w k); [exact H |].
      unfold db_of. cbn. apply Forall_app. split; [exact H |].
      constructor; [| constructor]. now apply P_new.
    + now rewrite post_api_products_refused by exact E.
  - apply route_invariant; [| exact H]. intros p Hp.
    destruct targetPrice; [exact Hp | now apply P_retarget].
  - apply route_invariant; [| exact H]. intros p. apply P_remove.
  - destruct (find_rejects w) as [m |] eqn:E.
    + now rewrite (checkPrices_find_rejected w db0 m E).
    + rewrite (checkPrices_run w db0 E). unfold db_of. cbn [fst snd].
      apply sweep_db_invariant; [| exact H].
      unfold active. apply Forall_forall. intros p Hp.
      apply filter_In in Hp as [Hp _].
      now apply (proj1 (Forall_forall P (products db0)) H).
Qed.

(** A property that registration establishes and that retargeting,
    removal and observation keep holds of every product of every
    database the program can bring about. *)
Lemma reachable_invariant db : reachable db -> Forall P (products db).
Proof.
  induction 1 as [us | db db' _ IH Hs]; [constructor |].
  exact (step_invariant db db' Hs IH).
Qed.

End Invariants.

Section TrackedProducts.

Lemma Forall_skipn {A} (Q : A -> Prop) k (l : list A) :
  Forall Q l -> Forall Q (skipn k l).
Proof.
  intros H. rewrite <- (firstn_skipn k l) in H.
  now apply Forall_app in H.
Qed.

Lemma extract_store url doc :
  Scraped.store (extract url doc)
  = match store_label url with Some s => s | None => "Unknown Store" end.
Proof.
  unfold extract, store_label.
  repeat match goal with
         | |- context [if JS.includes url ?x then _ else _] =>
             destruct (JS.includes url x)
         end; reflexivity.
Qed.

Lemma extract_price_label url doc n :
  Scraped.price (extract url doc) = Some n -> store_label url <> None.
Proof.
  unfold extract, store_label.
  repeat match goal with
         | |- context [if JS.includes url ?x then _ else _] =>
             destruct (JS.includes url x)
         end; cbn beta iota delta [Scraped.price]; discriminate.
Qed.

Lemma extract_title url doc :
  Scraped.title (extract url doc) <> EmptyString.
Proof.
  unfold extract, JS.or_else.
  repeat match goal with
         | |- context [if JS.includes url ?x then _ else _] =>
             destruct (JS.includes url x)
         end; cbn beta iota delta [Scraped.title];
    match goal with
    | |- (if JS.is_empty ?s then _ else _) <> _ =>
        destruct (JS.is_empty s) eqn:E;
        [discriminate | intros H; try rewrite H in E; cbn in E; discriminate]
    end.
Qed.

(** What registration accepted was scraped from a page. *)
Lemma new_price_scraped w k url price :
  new_price w k url = Some price ->
  exists doc,
    scraped w k url = Some (extract url doc)
    /\ exists n, Scraped.price (extract url doc) = Some n.
Proof.
  unfold new_price, scraped, usable_price.
  destruct (axios_get w k url) as [doc | m]; [| discriminate].
  destruct (Scraped.price (extract url doc)) as [n |] eqn:E; [| discriminate].
  intros _. exists doc. split; [reflexivity | now exists n].
Qed.

(** X8. In every database the program can bring about, the current price
    of every product and every price of its history is a Number above
    zero: a positive binary64 value or [Infinity], never 0, [NaN] or
    negative. *)
Theorem tracked_prices_are_positive db :
  reachable db -> Forall prices_above_zero (products db).
Proof.
  apply reachable_invariant.
  - intros w k userId url targetPrice price d Hp _.
    pose proof (new_price_above_zero _ _ _ _ Hp) as Hpos.
    split; [exact Hpos | constructor; [exact Hpos | constructor]].
  - now intros t p.
  - now intros p.
  - intros w k p n [_ Hh] Hp.
    pose proof (new_price_above_zero _ _ _ _ Hp) as Hpos.
    split; [exact Hpos |].
    rewrite observe_priceHistory, push_capped_snoc.
    apply Forall_app. split; [now apply Forall_skipn |].
    constructor; [exact Hpos | constructor].
Qed.

(** X9. In every database the program can bring about, the history of
    every product ends with a point that carries its current price. *)
Theorem current_price_is_latest_observation db :
  reachable db -> Forall current_is_latest (products db).
Proof.
  apply reachable_invariant.
  - intros w k userId url targetPrice price d _ _.
    exists [], {| PricePoint.price := price; PricePoint.date := Date_now w k |}.
    now split.
  - now intros t p.
  - now intros p.
  - intros w k p n _ _. eexists _, _. split.
    + rewrite observe_priceHistory. apply push_capped_snoc.
    + reflexivity.
Qed.

(** X10. In every database the program can bring about, every product
    carries the label of the store its URL is recognized as, one of the
    five the scraper knows and never "Unknown Store", and a title that is
    not empty. *)
Theorem tracked_store_is_recognized db :
  reachable db ->
  Forall (fun p =>
            store_recognized p
            /\ In (Product.store p)
                  ["Amazon"; "eBay"; "Walmart"; "Best Buy"; "Target"])
         (products db).
Proof.
  assert (L : forall url s,
             store_label url = Some s ->
             In s ["Amazon"; "eBay"; "Walmart"; "Best Buy"; "Target"]).
  { intros url s. unfold store_label.
    repeat match goal with
           | |- context [if JS.includes url ?x then _ else _] =>
               destruct (JS.includes url x)
           end; intros [= <-]; cbn; tauto. }
  apply reachable_invariant.
  - intros w k userId url targetPrice price d Hp Hd.
    destruct (new_price_scraped w k url price Hp) as (doc & Hd' & n & Hn).
    rewrite Hd' in Hd. injection Hd as <-.
    assert (S : store_label url
                = Some (Scraped.store (extract url doc))).
    { rewrite extract_store.
      pose proof (extract_price_label url doc n Hn).
      now destruct (store_label url). }
    split; [split; [exact S | apply extract_title] | exact (L url _ S)].
  - now intros t p.
  - now intros p.
  - now intros w k p n.
Qed.

End TrackedProducts.

Lemma tracked_prices_are_positive_witness :
  Forall prices_above_zero
    (products (sweeps Sample.month Sample.registered_lamp)).
Proof.
  apply tracked_prices_are_positive.
  unfold sweeps. generalize Sample.month. intros ws.
  assert (R : reachable Sample.registered_lamp).
  { eapply reachable_step; [apply reachable_empty | apply step_register]. }
  revert R. generalize Sample.registered_lamp.
  induction ws as [| w r IH]; intros db R; [exact R |].
  cbn [fold_left]. apply IH.
  eapply reachable_step; [exact R | apply step_sweep].
Defined.

(** An overlong price text makes [Infinity] a tracked price. *)
Example tracked_price_can_be_infinite :
  let db :=
    db_of (post_api_products
             (Sample.showing (String "$" (Sample.nines 310))) 0%nat 7%nat
             Sample.lamp None {| products := []; users := [] |}) in
  reachable db
  /\ map Product.currentPrice (products db) = [JS.Infinity false].
Proof.
  cbv zeta. split.
  - eapply reachable_step; [apply reachable_empty | apply step_register].
  - vm_compute. reflexivity.
Qed.

Lemma current_price_is_latest_observation_witness :
  Forall current_is_latest
    (products (db_of (post_api_products Sample.calm 0%nat 7%nat Sample.lamp None
                        {| products := []; users := [] |}))).
Proof.
  apply current_price_is_latest_observation.
  eapply reachable_step; [apply reachable_empty | apply step_register].
Defined.

Lemma tracked_store_is_recognized_witness :
  Forall (fun p =>
            store_recognized p
            /\ In (Product.store p)
                  ["Amazon"; "eBay"; "Walmart"; "Best Buy"; "Target"]%string)
    (products (db_of (post_api_products Sample.calm 0%nat 7%nat Sample.lamp None
                        {| products := []; users := [] |}))).
Proof.
  apply tracked_store_is_recognized.
  eapply reachable_step; [apply reachable_empty | apply step_register].
Defined.

(* ===================================================================== *)
(** * Further properties: the product routes *)
(* ===================================================================== *)

Section FindOneAndUpdate.

Lemma update_first_none id userId f l :
  (forall p, In p l -> Product._id p = id -> Product.userId p <> userId) ->
  update_first id userId f l = (None, l).
Proof.
  induction l as [| q r IH]; intros H; cbn [update_first]; [reflexivity |].
  destruct (Nat.eqb_spec (Product._id q) id) as [E | E]; cbn [andb].
  - destruct (Nat.eqb_spec (Product.userId q) userId) as [E' | E'].
    + exfalso. apply (H q); auto. now left.
    + rewrite IH; [reflexivity |]. intros p Hp. apply H. now right.
  - rewrite IH; [reflexivity |]. intros p Hp. apply H. now right.
Qed.

Lemma update_first_found f l p :
  NoDup (map Product._id l) -> In p l ->
  (forall q, Product._id (f q) = Product._id q) ->
  update_first (Product._id p) (Product.userId p) f l
  = (Some (f p), replace_by_id (f p) l).
Proof.
  intros Hn Hp Hf. induction l as [| q r IH]; [easy |].
  cbn [map] in Hn. inversion Hn as [| ? ? Hq Hr]; subst.
  cbn [update_first replace_by_id]. rewrite Hf.
  destruct Hp as [-> | Hp].
  - now rewrite !Nat.eqb_refl.
  - destruct (Nat.eqb_spec (Product._id q) (Product._id p)) as [E | E].
    + exfalso. apply Hq. rewrite E. now apply in_map.
    + cbn [andb]. now rewrite (IH Hr Hp).
Qed.

Lemma replace_by_id_ids doc l :
  map Product._id (replace_by_id doc l) = map Product._id l.
Proof.
  induction l as [| p r IH]; cbn [replace_by_id map]; [reflexivity |].
  destruct (Nat.eqb_spec (Product._id p) (Product._id doc)) as [E | E];
    cbn [map]; congruence.
Qed.

Lemma replace_by_id_same doc l :
  NoDup (map Product._id l) -> In doc l -> replace_by_id doc l = l.
Proof.
  intros Hn Hd. induction l as [| q r IH]; [easy |].
  cbn [map] in Hn. inversion Hn as [| ? ? Hq Hr]; subst.
  cbn [replace_by_id]. destruct Hd as [-> | Hd].
  - now rewrite Nat.eqb_refl.
  - destruct (Nat.eqb_spec (Product._id q) (Product._id doc)) as [E | E].
    + exfalso. apply Hq. rewrite E. now apply in_map.
    + now rewrite (IH Hr Hd).
Qed.


Variable w : World.

(** The two routes built on [findOneAndUpdate], spelled out. *)
Lemma update_route_run k id userId f (answer : option Product.t -> Response)
  db :
  try_catch
    (product <- Product_findOneAndUpdate w k id userId f ;;
     ret (answer product))
    (fun message => ret (500%Z, ErrorBody message)) db
  = match save_rejects w k with
    | Some message => (Returned (500%Z, ErrorBody message), db, [])
    | None =>
        (Returned (answer (fst (update_first id userId f (products db)))),
         set_products (snd (update_first id userId f (products db))) db, [])
    end.
Proof.
  unfold try_catch, Product_findOneAndUpdate. cbn. unfold Eff_bind.
  destruct (save_rejects w k); [reflexivity |].
  now destruct (update_first id userId f (products db)).
Qed.

Lemma set_products_same db : set_products (products db) db = db.
Proof. now destruct db. Qed.

(** X11. A request to retarget or to remove a product that names no
    product of the caller (an unknown id, or the id of somebody else's
    product) changes nothing in the database and, when the database
    call resolves, is answered 404 "Product not found". *)
Theorem strangers_cannot_retarget_or_remove k userId id targetPrice db :
  (forall p, In p (products db) ->
             Product._id p = id -> Product.userId p <> userId) ->
  db_of (put_api_products_id w k userId id targetPrice db) = db
  /\ db_of (delete_api_products_id w k userId id db) = db
  /\ (save_rejects w k = None ->
      result_of (put_api_products_id w k userId id targetPrice db)
      = Returned (404%Z, ErrorBody "Product not found")
      /\ result_of (delete_api_products_id w k userId id db)
         = Returned (404%Z, ErrorBody "Product not found")).
Proof.
  intros H. unfold put_api_products_id, delete_api_products_id.
  rewrite !update_route_run, !update_first_none by exact H.
  destruct (save_rejects w k); cbn [db_of result_of fst snd];
    rewrite ?set_products_same; repeat split; discriminate.
Qed.

(** X12. When its owner retargets a product of a collection with distinct
    ids, the answer is 200 with the product as it is stored after the
    request: with the target of the body, a number or [null], in place of
    the old one and nothing else changed; or, when the body has no target
    at all, just as it was, for then nothing is updated and the database
    is left as it was.  Every other document is as before. *)
Theorem owner_retargets_one_product k p targetPrice db :
  NoDup (ids db) -> In p (products db) -> save_rejects w k = None ->
  let r := put_api_products_id w k (Product.userId p) (Product._id p)
             targetPrice db in
  let p' :=
    match targetPrice with
    | Missing => p
    | Present value => Product.set_targetPrice value p
    end in
  result_of r = Returned (200%Z, ProductBody p')
  /\ stored (Product._id p) (db_of r) = Some p'
  /\ (forall id, id <> Product._id p -> stored id (db_of r) = stored id db)
  /\ ids (db_of r) = ids db
  /\ users (db_of r) = users db
  /\ (targetPrice = Missing -> db_of r = db).
Proof.
  intros Hn Hp Hs. cbv zeta. unfold put_api_products_id.
  rewrite update_route_run, Hs, update_first_found; auto;
    [| now destruct targetPrice].
  cbn [result_of db_of fst snd found_or_404].
  assert (I : Product._id (update_targetPrice targetPrice p) = Product._id p)
    by now destruct targetPrice.
  change (match targetPrice with
          | Missing => p
          | Present value => Product.set_targetPrice value p
          end) with (update_targetPrice targetPrice p).
  split; [reflexivity |]. split; [| split; [| split; [| split]]].
  - now rewrite stored_replace, I, Nat.eqb_refl, (stored_In db p Hn Hp).
  - intros id Hid. rewrite stored_replace, I.
    now destruct (Nat.eqb_spec id (Product._id p)).
  - unfold ids. cbn [products set_products]. apply replace_by_id_ids.
  - reflexivity.
  - intros ->. cbn [update_targetPrice].
    rewrite (replace_by_id_same p (products db) Hn Hp).
    apply set_products_same.
Qed.

End FindOneAndUpdate.

Section Removal.

Variables w w' : World.




End Removal.

Lemma strangers_cannot_retarget_or_remove_witness :
  db_of (put_api_products_id Sample.calm 0%nat 8%nat 1%nat
           (Present (Some (JS.of_Z 1))) (Sample.db []))
  = Sample.db [].
Proof.
  apply (strangers_cannot_retarget_or_remove Sample.calm 0%nat 8%nat 1%nat
           (Present (Some (JS.of_Z 1))) (Sample.db [])).
  intros p [<- | [<- | [<- | []]]] _; discriminate.
Defined.

Lemma owner_retargets_one_product_witness :
  stored 1%nat (db_of (put_api_products_id Sample.calm 0%nat 7%nat 1%nat
                         (Present (Some (JS.of_Z 80))) (Sample.db [])))
  = Some (Product.set_targetPrice (Some (JS.of_Z 80)) Sample.item1)
  /\ db_of (put_api_products_id Sample.calm 0%nat 7%nat 1%nat Missing
              (Sample.db []))
     = Sample.db [].
Proof.
  assert (Hn : NoDup (ids (Sample.db []))).
  { repeat constructor; cbn; intuition discriminate. }
  split.
  - apply (owner_retargets_one_product Sample.calm 0%nat Sample.item1
             (Present (Some (JS.of_Z 80))) (Sample.db []) Hn);
      [now left | reflexivity].
  - apply (owner_retargets_one_product Sample.calm 0%nat Sample.item1
             Missing (Sample.db []) Hn);
      [now left | reflexivity | reflexivity].
Defined.


(* ===================================================================== *)
(** * Further properties: the savings analytics *)
(* ===================================================================== *)

Section Tally.

Lemma lt_le a b : JS.lt a b = true -> JS.le a b = true.
Proof.
  destruct a as [| [|] | p], b as [| [|] | q]; cbn [JS.lt JS.le]; try easy.
  intros H. orders. lra.
Qed.

Lemma lt_not_le a b : JS.lt a b = true -> JS.le b a = true -> False.
Proof.
  destruct a as [| [|] | p], b as [| [|] | q]; cbn [JS.lt JS.le]; try easy.
  intros H1 H2. orders. lra.
Qed.

Lemma not_lt_le a b :
  JS.lt a b = false -> nonneg a -> JS.lt (JS.Fin 0) b = true ->
  JS.le b a = true.
Proof.
  unfold nonneg.
  destruct a as [| [|] | p], b as [| [|] | q]; cbn [JS.lt JS.le]; try easy.
  intros H _ _. orders. lra.
Qed.

Lemma le_trans a b c :
  JS.le a b = true -> JS.le b c = true -> JS.le a c = true.
Proof.
  destruct a as [| [|] | p], b as [| [|] | q], c as [| [|] | r]; cbn [JS.lt JS.le];
    try easy.
  intros H1 H2. orders. lra.
Qed.

Lemma positive_le_refl s : JS.lt (JS.Fin 0) s = true -> JS.le s s = true.
Proof.
  destruct s as [| [|] | q]; cbn [JS.lt JS.le]; try easy. intros _. orders. lra.
Qed.

Lemma nonneg_le_refl a : nonneg a -> JS.le a a = true.
Proof.
  unfold nonneg. destruct a as [| [|] | q]; cbn [JS.le]; try easy.
  intros _. orders. lra.
Qed.

Lemma positive_nonneg s : JS.lt (JS.Fin 0) s = true -> nonneg s.
Proof. apply lt_le. Qed.

(** What the operators return is a Number. *)
Lemma sub_binary64 a b : binary64 (JS.sub a b).
Proof.
  destruct a as [| s | p], b as [| t | q]; cbn [JS.sub binary64]; auto.
  - now destruct (Bool.eqb s t).
  - apply round64_binary64.
Qed.

Lemma add_binary64 a b : binary64 (JS.add a b).
Proof.
  destruct a as [| s | p], b as [| t | q]; cbn [JS.add binary64]; auto.
  - now destruct (Bool.eqb s t).
  - apply round64_binary64.
Qed.

(** Adding a positive saving to a total that is not negative. *)
Lemma add_nonneg t s :
  nonneg t -> JS.lt (JS.Fin 0) s = true -> nonneg (JS.add t s).
Proof.
  unfold nonneg.
  destruct t as [| [|] | t], s as [| [|] | s];
    try (cbn [JS.lt JS.le JS.add Bool.eqb]; easy).
  cbn [JS.add]. intros H1 H2. apply round64_nonneg. orders. lra.
Qed.

Lemma add_ge t s :
  nonneg t -> JS.lt (JS.Fin 0) s = true -> binary64 s ->
  JS.le s (JS.add t s) = true.
Proof.
  unfold nonneg.
  destruct t as [| [|] | t], s as [| [|] | s];
    try (cbn [JS.lt JS.le JS.add Bool.eqb binary64]; easy).
  cbn [JS.add binary64]. intros H1 H2 B.
  rewrite <- B at 1. apply round64_mono. orders. lra.
Qed.

Lemma add_above t s :
  nonneg t -> binary64 t -> JS.lt (JS.Fin 0) s = true ->
  JS.le t (JS.add t s) = true.
Proof.
  unfold nonneg.
  destruct t as [| [|] | t], s as [| [|] | s];
    try (cbn [JS.lt JS.le JS.add Bool.eqb binary64]; easy).
  cbn [JS.add binary64]. intros H1 B H2.
  rewrite <- B at 1. apply round64_mono. orders. lra.
Qed.

Lemma add_positive t s :
  nonneg t -> binary64 t -> JS.lt (JS.Fin 0) s = true -> binary64 s ->
  nonneg (JS.add t s)
  /\ JS.le s (JS.add t s) = true
  /\ forall b, JS.le b t = true -> JS.le b (JS.add t s) = true.
Proof.
  intros Ht Bt Hs Bs. split; [now apply add_nonneg |].
  split; [now apply add_ge |].
  intros b Hb. apply (le_trans b t); [exact Hb | now apply add_above].
Qed.

Lemma tally_ok_start : tally_ok no_savings.
Proof. repeat split. Qed.

(** What one round of the loop does, by cases on the product. *)
Lemma tally_cases acc p :
  (tally acc p = acc
   /\ forall s, saving_of p = Some s -> JS.lt (JS.Fin 0) s = false)
  \/ exists first rest s,
       Product.priceHistory p = first :: rest
       /\ saving_of p = Some s
       /\ BestDeal.savings (deal_of p first) = s
       /\ binary64 s
       /\ JS.lt (JS.Fin 0) s = true
       /\ tally acc p
          = if JS.lt (bestDealSavings acc) s
            then {| totalSavings := JS.add (totalSavings acc) s;
                    bestDeal := Some (deal_of p first);
                    bestDealSavings := s |}
            else {| totalSavings := JS.add (totalSavings acc) s;
                    bestDeal := bestDeal acc;
                    bestDealSavings := bestDealSavings acc |}.
Proof.
  unfold tally, saving_of.
  destruct (Product.priceHistory p) as [| first [| second rest]] eqn:H;
    cbn [List.length Nat.ltb Nat.leb].
  - left. split; [reflexivity | discriminate].
  - left. split; [reflexivity | discriminate].
  - destruct (JS.lt (JS.Fin 0)
                (JS.sub (PricePoint.price first) (Product.currentPrice p)))
      eqn:L.
    + right. exists first, (second :: rest). eexists.
      split; [reflexivity |]. split; [reflexivity |].
      split; [reflexivity |]. split; [apply sub_binary64 |].
      split; [exact L |]. reflexivity.
    + left. split; [reflexivity |]. now intros s [= <-].
Qed.

Lemma tally_ok_step acc p : tally_ok acc -> tally_ok (tally acc p).
Proof.
  intros (Ht & Bt & Hb & Hle & Hd).
  destruct (tally_cases acc p)
    as [[-> _] | (first & rest & s & _ & _ & Es & Bs & L & ->)];
    [now repeat split |].
  destruct (add_positive _ s Ht Bt L Bs) as (A1 & A2 & A3).
  pose proof (add_binary64 (totalSavings acc) s) as A0.
  destruct (JS.lt (bestDealSavings acc) s) eqn:B; unfold tally_ok;
    cbn [totalSavings bestDeal bestDealSavings].
  - split; [exact A1 |]. split; [exact A0 |].
    split; [now apply positive_nonneg |].
    split; [exact A2 |]. now split.
  - split; [exact A1 |]. split; [exact A0 |]. split; [exact Hb |].
    split; [now apply A3 |].
    destruct (bestDeal acc) as [b |]; [exact Hd |].
    destruct Hd as [_ Hz]. rewrite Hz in B. congruence.
Qed.

Lemma tally_ok_fold ps : forall acc,
  tally_ok acc -> tally_ok (fold_left tally ps acc).
Proof.
  induction ps as [| p r IH]; intros acc H; [exact H |].
  cbn [fold_left]. apply IH. now apply tally_ok_step.
Qed.

(** The best saving never goes down, and covers the saving of every
    product the loop has seen. *)
Lemma tally_best_step acc p :
  tally_ok acc ->
  JS.le (bestDealSavings acc) (bestDealSavings (tally acc p)) = true
  /\ forall s, saving_of p = Some s -> JS.lt (JS.Fin 0) s = true ->
               JS.le s (bestDealSavings (tally acc p)) = true.
Proof.
  intros (Ht & _ & Hb & Hle & Hd).
  assert (R : JS.le (bestDealSavings acc) (bestDealSavings acc) = true)
    by now apply nonneg_le_refl.
  destruct (tally_cases acc p)
    as [[-> N] | (first & rest & s & _ & Hs & _ & _ & L & ->)].
  - split; [exact R |]. intros s Hs L. rewrite (N s Hs) in L. discriminate.
  - destruct (JS.lt (bestDealSavings acc) s) eqn:B;
      cbn [bestDealSavings].
    + split; [now apply lt_le |].
      intros s' Hs' _. rewrite Hs in Hs'. injection Hs' as <-.
      now apply positive_le_refl.
    + split; [exact R |].
      intros s' Hs' _. rewrite Hs in Hs'. injection Hs' as <-.
      now apply not_lt_le.
Qed.

Lemma tally_best_fold ps : forall acc,
  tally_ok acc ->
  JS.le (bestDealSavings acc) (bestDealSavings (fold_left tally ps acc)) = true
  /\ forall p s,
       In p ps -> saving_of p = Some s -> JS.lt (JS.Fin 0) s = true ->
       JS.le s (bestDealSavings (fold_left tally ps acc)) = true.
Proof.
  induction ps as [| q r IH]; intros acc H.
  - split; [| easy]. destruct H as (_ & _ & Hb & _). now apply nonneg_le_refl.
  - cbn [fold_left].
    destruct (tally_best_step acc q H) as [M1 C1].
    destruct (IH (tally acc q) (tally_ok_step acc q H)) as [M2 C2].
    split; [exact (le_trans _ _ _ M1 M2) |].
    intros p s [<- | Hp] Hs L.
    + exact (le_trans _ _ _ (C1 s Hs L) M2).
    + exact (C2 p s Hp Hs L).
Qed.

(** The best deal is the deal of one of the products seen. *)
Lemma tally_deal_fold ps : forall acc b,
  bestDeal (fold_left tally ps acc) = Some b ->
  bestDeal acc = Some b
  \/ exists p first rest,
       In p ps
       /\ Product.priceHistory p = first :: rest
       /\ JS.lt (JS.Fin 0) (BestDeal.savings b) = true
       /\ b = deal_of p first.
Proof.
  induction ps as [| q r IH]; intros acc b H; [now left |].
  cbn [fold_left] in H. apply IH in H as [H | (p & f & t & Hp & Hh & L & E)].
  - destruct (tally_cases acc q)
      as [[E _] | (first & rest & s & Hh & _ & Es & _ & L & E)]; rewrite E in H;
      [now left |].
    destruct (JS.lt (bestDealSavings acc) s); cbn [bestDeal] in H;
      [| now left].
    injection H as <-. right. exists q, first, rest.
    split; [now left |]. split; [exact Hh |]. split; [| reflexivity].
    now rewrite Es.
  - right. exists p, f, t. split; [now right | auto].
Qed.

(** [toFixed(2)] of a Number that is not negative: a text that starts
    with a digit, or the Number itself when it is too large to be written
    so. *)
Lemma decimal_unsigned n : JS.startsWith "-" (decimal n) = false.
Proof.
  unfold decimal. now destruct (N.to_uint (Z.to_N n)).
Qed.

Lemma toFixed2_nonneg t :
  nonneg t ->
  toFixed2 t <> Num JS.NaN
  /\ forall text, toFixed2 t = Str text -> JS.startsWith "-" text = false.
Proof.
  unfold nonneg. destruct t as [| [|] | q]; cbn [JS.le toFixed2]; try easy.
  intros H. apply Qle_bool_iff in H.
  assert (L : JS.Qltb q 0 = false) by now apply Qltb_false.
  rewrite L. destruct (Qle_bool _ _); split; try easy.
  intros text [= <-]. unfold hundredths.
  pose proof (decimal_unsigned (Qfloor (Qabs q * 100 + (1 # 2)) / 100)) as D.
  cbn [append]. now destruct (decimal _).
Qed.

End Tally.

Section Analytics.

Variable w : World.

Lemma get_api_analytics_savings_run userId db :
  get_api_analytics_savings w userId db
  = match find_rejects w with
    | Some message => (Returned (500%Z, inr message), db, [])
    | None =>
        (Returned
           (200%Z,
            inl (savings_report
                   (filter (fun p => (Product.userId p =? userId)%nat)
                           (products db)))),
         db, [])
    end.
Proof.
  unfold get_api_analytics_savings, try_catch, Product_find, settle. cbn.
  unfold Eff_bind. now destruct (find_rejects w).
Qed.

(** The report the route answers with is that of the caller's products. *)
Lemma analytics_report userId db report :
  result_of (get_api_analytics_savings w userId db)
  = Returned (200%Z, inl report) ->
  report
  = savings_report
      (filter (fun p => (Product.userId p =? userId)%nat) (products db)).
Proof.
  rewrite get_api_analytics_savings_run.
  destruct (find_rejects w); cbn [result_of fst]; [discriminate |].
  now intros [= <-].
Qed.

(** X14. Whatever the stored prices are, what the savings analytics
    reports as the total is [toFixed(2)] of a total that is never negative
    and never NaN: the report never reads NaN and carries no minus sign.
    There is no best deal exactly when that total is 0, and then the report
    reads "0.00"; the saving of a best deal is positive and at most that
    total.  (The report can read "0.00" with a best deal: savings below
    half a cent are rounded away.) *)
Theorem savings_total_and_best_deal userId db report :
  result_of (get_api_analytics_savings w userId db)
  = Returned (200%Z, inl report) ->
  exists total,
    report_totalSavings report = toFixed2 total
    /\ nonneg total
    /\ (report_bestDeal report = None <-> total = JS.Fin 0)
    /\ (report_bestDeal report = None ->
        report_totalSavings report = Str "0.00")
    /\ (forall b,
          report_bestDeal report = Some b ->
          JS.lt (JS.Fin 0) (BestDeal.savings b) = true
          /\ JS.le (BestDeal.savings b) total = true)
    /\ report_totalSavings report <> Num JS.NaN
    /\ (forall text,
          report_totalSavings report = Str text ->
          JS.startsWith "-" text = false).
Proof.
  intros H. rewrite (analytics_report userId db report H).
  unfold savings_report. cbn [report_totalSavings report_bestDeal].
  set (ps := filter _ (products db)).
  destruct (tally_ok_fold ps no_savings tally_ok_start)
    as (Ht & _ & Hb & Hle & Hd).
  exists (totalSavings (fold_left tally ps no_savings)).
  split; [reflexivity |]. split; [exact Ht |].
  destruct (toFixed2_nonneg _ Ht) as [N1 N2].
  destruct (bestDeal (fold_left tally ps no_savings)) as [b |].
  - destruct Hd as [Es Hpos].
    split; [| split; [discriminate | split; [| now split]]].
    + split; [discriminate |]. intros Hz. exfalso.
      rewrite Hz in Hle. exact (lt_not_le _ _ Hpos Hle).
    + intros b' [= <-]. now rewrite Es.
  - destruct Hd as [Hz _].
    split; [now split |]. split; [intros _; now rewrite Hz |].
    split; [discriminate | now split].
Qed.

(** X15. The best deal the savings analytics reports is the largest
    saving: every product of the caller on which it sees a positive
    saving (first price of the history less the current price, for a
    history of more than one point) saves at most as much. *)
Theorem best_deal_is_the_largest_saving userId db report p s :
  result_of (get_api_analytics_savings w userId db)
  = Returned (200%Z, inl report) ->
  In p (products db) -> Product.userId p = userId ->
  saving_of p = Some s -> JS.lt (JS.Fin 0) s = true ->
  exists b,
    report_bestDeal report = Some b
    /\ JS.le s (BestDeal.savings b) = true.
Proof.
  intros H Hp Hu Hs L. rewrite (analytics_report userId db report H).
  unfold savings_report. cbn [report_bestDeal].
  set (ps := filter _ (products db)).
  assert (Hin : In p ps).
  { unfold ps. apply filter_In. split; [exact Hp |]. now apply Nat.eqb_eq. }
  destruct (tally_ok_fold ps no_savings tally_ok_start) as (_ & _ & _ & _ & Hd).
  destruct (tally_best_fold ps no_savings tally_ok_start) as [_ C].
  specialize (C p s Hin Hs L).
  destruct (bestDeal (fold_left tally ps no_savings)) as [b |].
  - destruct Hd as [Es _]. exists b. split; [reflexivity | now rewrite Es].
  - destruct Hd as [_ Hz]. rewrite Hz in C. exfalso.
    exact (lt_not_le _ _ L C).
Qed.

(** X16. When the stored prices are finite and positive, the best deal of
    the savings analytics is the deal of one of the caller's products, and
    its percentage is a whole number from 0 to 100. *)
Theorem best_deal_percent_is_a_percentage userId db report b :
  Forall prices_positive (products db) ->
  result_of (get_api_analytics_savings w userId db)
  = Returned (200%Z, inl report) ->
  report_bestDeal report = Some b ->
  (exists p first rest,
      In p (products db) /\ Product.userId p = userId
      /\ Product.priceHistory p = first :: rest
      /\ b = deal_of p first)
  /\ exists z,
       BestDeal.savingsPercent b = JS.Fin (inject_Z z) /\ (0 <= z <= 100)%Z.
Proof.
  intros Hpos H Hb. rewrite (analytics_report userId db report H) in Hb.
  unfold savings_report in Hb. cbn [report_bestDeal] in Hb.
  apply tally_deal_fold in Hb as [Hb | (p & first & rest & Hp & Hh & L & ->)];
    [discriminate |].
  apply filter_In in Hp as [Hp Hu]. apply Nat.eqb_eq in Hu.
  split; [exists p, first, rest; auto |].
  pose proof (proj1 (Forall_forall _ _) Hpos p Hp) as [[c [Ec [Hc _]]] Hall].
  rewrite Hh in Hall. inversion Hall as [| ? ? [o [Eo [Ho Bo]]] _]; subst.
  unfold deal_of in *. cbn [BestDeal.savings BestDeal.savingsPercent] in *.
  rewrite Ec, Eo in *.
  apply (percent_range o c Bo Ho). split; [lra |].
  destruct (Qlt_le_dec o c) as [N | N]; [exfalso | exact N].
  cbn [JS.sub] in L.
  assert (M : JS.le (JS.round64 (o - c)) (JS.round64 0) = true)
    by (apply round64_mono; lra).
  exact (lt_not_le _ _ L M).
Qed.

Lemma update_first_pointwise id userId f l :
  Forall2 (fun q q' => q' = q \/ q' = f q) l (snd (update_first id userId f l)).
Proof.
  induction l as [| q r IH]; cbn [update_first]; [constructor |].
  destruct ((Product._id q =? id)%nat && (Product.userId q =? userId)%nat).
  - cbn [snd]. constructor; [now right |].
    clear. induction r; constructor; auto.
  - destruct (update_first id userId f r) as [found r']. cbn [snd] in *.
    constructor; [now left | exact IH].
Qed.

Lemma savings_report_removed l l' userId :
  Forall2 (fun q q' => q' = q \/ q' = Product.set_isActive false q) l l' ->
  savings_report (filter (fun p => (Product.userId p =? userId)%nat) l')
  = savings_report (filter (fun p => (Product.userId p =? userId)%nat) l).
Proof.
  intros H. unfold savings_report.
  assert (G : forall acc,
             fold_left tally
               (filter (fun p => (Product.userId p =? userId)%nat) l') acc
             = fold_left tally
                 (filter (fun p => (Product.userId p =? userId)%nat) l) acc
             /\ List.length
                  (filter (fun p => (Product.userId p =? userId)%nat) l')
                = List.length
                    (filter (fun p => (Product.userId p =? userId)%nat) l)).
  { induction H as [| q q' r r' Hq Hr IH]; intros acc; [now split |].
    cbn [filter].
    assert (U : Product.userId q' = Product.userId q)
      by (destruct Hq as [-> | ->]; reflexivity).
    assert (T : forall a, tally a q' = tally a q)
      by (intros a; destruct Hq as [-> | ->]; reflexivity).
    rewrite U. destruct (Product.userId q =? userId)%nat; [| apply IH].
    cbn [fold_left List.length]. rewrite T.
    destruct (IH (tally acc q)) as [-> ->]. now split. }
  destruct (G no_savings) as [-> ->]. reflexivity.
Qed.

(** X17. Removing a product from tracking changes nothing in the savings
    analytics of any user: a removed product still counts among the
    tracked products, in the total and for the best deal. *)
Theorem analytics_ignores_removal w' k userId id caller db :
  result_of (get_api_analytics_savings w caller
               (db_of (delete_api_products_id w' k userId id db)))
  = result_of (get_api_analytics_savings w caller db).
Proof.
  rewrite !get_api_analytics_savings_run.
  destruct (find_rejects w); [reflexivity |]. cbn [result_of fst].
  unfold delete_api_products_id. rewrite update_route_run.
  destruct (save_rejects w' k); [reflexivity |].
  cbn [db_of fst snd products set_products].
  now rewrite (savings_report_removed (products db) _ caller
                 (update_first_pointwise id userId _ (products db))).
Qed.


End Analytics.

Lemma savings_total_and_best_deal_witness :
  report_totalSavings Tracked.report = Str "215.01"
  /\ exists total,
       report_totalSavings Tracked.report = toFixed2 total /\ nonneg total.
Proof.
  split; [vm_compute; reflexivity |].
  destruct (savings_total_and_best_deal Sample.calm 7%nat Tracked.db
              Tracked.report)
    as (total & E & N & _).
  - vm_compute. reflexivity.
  - exists total. now split.
Defined.

(** Savings below half a cent are rounded away: the report reads "0.00"
    although there is a best deal. *)
Example small_savings_read_as_zero :
  let report := savings_report [Tracked.trinket] in
  report_totalSavings report = Str "0.00"
  /\ exists b,
       report_bestDeal report = Some b
       /\ JS.lt (JS.Fin 0) (BestDeal.savings b) = true
       /\ BestDeal.savingsPercent b = JS.of_Z 0.
Proof.
  cbv zeta. split; [vm_compute; reflexivity |].
  eexists. split; [vm_compute; reflexivity |].
  split; vm_compute; reflexivity.
Qed.

Lemma best_deal_is_the_largest_saving_witness :
  exists b,
    report_bestDeal Tracked.report = Some b
    /\ JS.le (JS.of_Z 15) (BestDeal.savings b) = true.
Proof.
  apply (best_deal_is_the_largest_saving Sample.calm 7%nat Tracked.db
           Tracked.report Tracked.lamp (JS.of_Z 15)).
  - vm_compute. reflexivity.
  - vm_compute. left. reflexivity.
  - reflexivity.
  - vm_compute. reflexivity.
  - reflexivity.
Defined.

Lemma best_deal_percent_is_a_percentage_witness :
  exists z,
    BestDeal.savingsPercent
      (deal_of (observe Sample.laptop_price 1002%Z Sample.item3)
         {| PricePoint.price := JS.of_Z 1500; PricePoint.date := 0%Z |})
    = JS.Fin (inject_Z z)
    /\ (0 <= z <= 100)%Z.
Proof.
  assert (Hpos : Forall prices_positive (products Tracked.db)).
  { assert (E : products Tracked.db
                = [ observe (JS.of_Z 85) 1000%Z Sample.item1;
                    Sample.item2;
                    observe Sample.laptop_price 1002%Z Sample.item3 ])
      by (vm_compute; reflexivity).
    rewrite E.
    repeat (constructor
            || (eexists; split; [reflexivity | split; reflexivity])). }
  apply (best_deal_percent_is_a_percentage Sample.calm 7%nat Tracked.db
           Tracked.report _ Hpos); vm_compute; reflexivity.
Defined.


(* ===================================================================== *)
(** * Further properties: accounts and the token middleware *)
(* ===================================================================== *)

Section Accounts.

Lemma NoDup_snoc {A} (l : list A) x : NoDup l -> ~ In x l -> NoDup (l ++ [x]).
Proof.
  induction 1 as [| y l Hy Hl IH]; intros Hx; cbn [app].
  - repeat constructor. easy.
  - constructor.
    + intros Hin. apply in_app_or in Hin as [Hin | [-> | []]]; [tauto |].
      apply Hx. now left.
    + apply IH. intros Hin. apply Hx. now right.
Qed.


(** Registration by cases: an error that changes nothing, or one more
    account whose email and username nobody had. *)
Lemma register_cases c username email password accounts :
  (snd (post_api_auth_register c username email password accounts) = accounts
   /\ exists status message,
        fst (post_api_auth_register c username email password accounts)
        = (status, inr message))
  \/ exists a,
       post_api_auth_register c username email password accounts
       = ((201%Z,
           inl {| token := jwt_sign c (Account._id a) (jwt_now c);
                  session_id := Account._id a;
                  session_username := username;
                  session_email := email |}),
          accounts ++ [a])
       /\ Account.email a = email
       /\ Account.username a = username
       /\ bcrypt_hash c password = Returned (Account.password a)
       /\ User.notifications (Account.user a) = true
       /\ findOne_rejects c = None
       /\ (forall b, In b accounts ->
                     Account.email b <> email /\ Account.username b <> username).
Proof.
  unfold post_api_auth_register.
  destruct (findOne_rejects c) as [m |]; [left; cbn; eauto |].
  destruct (find _ accounts) as [b |] eqn:F; [left; cbn; eauto |].
  destruct (bcrypt_hash c password) as [hashed | m]; [| left; cbn; eauto].
  destruct (user_save_rejects c) as [m |]; [left; cbn; eauto |].
  right. eexists. split; [reflexivity |]. repeat split.
  - intros E. pose proof (find_none _ _ F b H) as N. cbn beta in N.
    apply orb_false_iff in N as [N _]. apply String.eqb_neq in N. tauto.
  - intros E. pose proof (find_none _ _ F b H) as N. cbn beta in N.
    apply orb_false_iff in N as [_ N]. apply String.eqb_neq in N. tauto.
Qed.

(** X19. In every collection of accounts that registration can bring
    about from an empty one, no two accounts share an email and no two
    share a username. *)
Theorem accounts_stay_unique accounts :
  registered accounts ->
  NoDup (map Account.email accounts) /\ NoDup (map Account.username accounts).
Proof.
  induction 1 as [| c username email password accounts _ [IHe IHu]];
    [split; constructor |].
  destruct (register_cases c username email password accounts)
    as [[-> _] | (a & -> & He & Hu & _ & _ & _ & Hnew)]; [now split |].
  cbn [snd]. rewrite !map_app. cbn [map]. split.
  - apply NoDup_snoc; [exact IHe |]. intros Hin.
    apply in_map_iff in Hin as (b & Eb & Hb).
    destruct (Hnew b Hb) as [N _]. congruence.
  - apply NoDup_snoc; [exact IHu |]. intros Hin.
    apply in_map_iff in Hin as (b & Eb & Hb).
    destruct (Hnew b Hb) as [_ N]. congruence.
Qed.

(** Login by cases on what it finds and on what bcrypt answers. *)
Lemma login_cases c email password accounts :
  findOne_rejects c = None ->
  (post_api_auth_login c email password accounts
   = (400%Z, inr "Invalid credentials"%string)
   /\ forall a, In a accounts -> Account.email a <> email)
  \/ exists a,
       In a accounts /\ Account.email a = email
       /\ ((exists message,
              bcrypt_compare c password (Account.password a) = Thrown message
              /\ post_api_auth_login c email password accounts
                 = (500%Z, inr message))
           \/ (bcrypt_compare c password (Account.password a) = Returned false
               /\ post_api_auth_login c email password accounts
                  = (400%Z, inr "Invalid credentials"%string))
           \/ (bcrypt_compare c password (Account.password a) = Returned true
               /\ post_api_auth_login c email password accounts
                  = (200%Z,
                     inl {| token := jwt_sign c (Account._id a) (jwt_now c);
                            session_id := Account._id a;
                            session_username := Account.username a;
                            session_email := Account.email a |}))).
Proof.
  intros Hf. unfold post_api_auth_login. rewrite Hf.
  destruct (find _ accounts) as [a |] eqn:F.
  - apply find_some in F as [Hin He]. apply String.eqb_eq in He.
    right. exists a. split; [exact Hin |]. split; [exact He |].
    destruct (bcrypt_compare c password (Account.password a)) as [[|] | m];
      cbn [negb]; eauto.
  - left. split; [reflexivity |]. intros a Hin E.
    pose proof (find_none _ _ F a Hin) as N. cbn beta in N.
    apply String.eqb_neq in N. contradiction.
Qed.

Lemma login_success c email password accounts s :
  post_api_auth_login c email password accounts = (200%Z, inl s) ->
  exists a,
    In a accounts
    /\ Account.email a = email
    /\ bcrypt_compare c password (Account.password a) = Returned true
    /\ session_id s = Account._id a
    /\ token s = jwt_sign c (Account._id a) (jwt_now c).
Proof.
  unfold post_api_auth_login.
  destruct (findOne_rejects c); [discriminate |].
  destruct (find _ accounts) as [a |] eqn:F; [| discriminate].
  apply find_some in F as [Hin He]. apply String.eqb_eq in He.
  destruct (bcrypt_compare c password (Account.password a)) as [[|] | m] eqn:B;
    cbn [negb]; try discriminate.
  intros [= <-]. exists a. repeat split; auto.
Qed.

(** X20. When the lookup of the account resolves, login answers 200 only
    for an account of that email whose stored password bcrypt accepts for
    the given one, and then with a token signed for that account's id.  An
    unknown email and a wrong password are refused alike, with 400
    "Invalid credentials"; the only other refusal is 500, with the message
    of bcrypt when it rejects the comparison, as it does for a body
    without a password.  So when bcrypt resolves, every refusal reads the
    same. *)
Theorem login_needs_the_password c email password accounts :
  findOne_rejects c = None ->
  (forall s,
      post_api_auth_login c email password accounts = (200%Z, inl s) ->
      exists a,
        In a accounts
        /\ Account.email a = email
        /\ bcrypt_compare c password (Account.password a) = Returned true
        /\ session_id s = Account._id a
        /\ token s = jwt_sign c (Account._id a) (jwt_now c))
  /\ (forall status message,
        post_api_auth_login c email password accounts
        = (status, inr message) ->
        (status = 400%Z /\ message = "Invalid credentials"%string)
        \/ (status = 500%Z
            /\ exists a,
                 In a accounts /\ Account.email a = email
                 /\ bcrypt_compare c password (Account.password a)
                    = Thrown message))
  /\ (forall status s,
        post_api_auth_login c email password accounts = (status, inl s) ->
        status = 200%Z)
  /\ ((forall hashed,
         exists isMatch, bcrypt_compare c password hashed = Returned isMatch) ->
      forall status message,
        post_api_auth_login c email password accounts
        = (status, inr message) ->
        status = 400%Z /\ message = "Invalid credentials"%string).
Proof.
  intros Hf. split; [intros s; apply login_success |].
  destruct (login_cases c email password accounts Hf)
    as [[E _] | (a & Hin & He & [(m & B & E) | [[B E] | [B E]]])];
    rewrite E.
  - split; [intros status message [= <- <-]; now left |].
    split; [discriminate |]. now intros _ status message [= <- <-].
  - split; [intros status message [= <- <-]; right; eauto |].
    split; [discriminate |]. intros R status message [= <- <-].
    destruct (R (Account.password a)) as [b Hb]. congruence.
  - split; [intros status message [= <- <-]; now left |].
    split; [discriminate |]. now intros _ status message [= <- <-].
  - split; [discriminate |].
    split; [now intros status s [= <- _] | discriminate].
Qed.


End Accounts.

Section Middleware.

Local Open Scope string_scope.

Lemma split_no_blank a : no_blank a = true -> split_on_space a = [a].
Proof.
  induction a as [| c r IH]; cbn [no_blank split_on_space]; [reflexivity |].
  intros H. apply andb_true_iff in H as [Hc Hr].
  apply negb_true_iff in Hc. now rewrite Hc, (IH Hr).
Qed.

Lemma split_app a b :
  no_blank a = true ->
  split_on_space (a ++ String " " b) = a :: split_on_space b.
Proof.
  induction a as [| c r IH]; cbn [no_blank append]; intros H.
  - reflexivity.
  - apply andb_true_iff in H as [Hc Hr]. apply negb_true_iff in Hc.
    cbn [split_on_space]. now rewrite Hc, (IH Hr).
Qed.

Lemma app_blank_not_empty a b : JS.is_empty (a ++ String " " b) = false.
Proof. now destruct a. Qed.

Lemma passes_on_second_word c scheme t :
  no_blank scheme = true -> no_blank t = true -> t <> EmptyString ->
  authenticateToken c (Some (scheme ++ " " ++ t))
  = match jwt_verify c t with
    | Some userId => Next userId
    | None => Refused 403 "Invalid token"
    end.
Proof.
  intros Hs Ht Hne. unfold authenticateToken.
  assert (E : JS.is_empty t = false) by (destruct t; [congruence | reflexivity]).
  change (scheme ++ " " ++ t) with (scheme ++ String " " t).
  rewrite app_blank_not_empty, (split_app _ _ Hs), (split_no_blank t Ht).
  cbn [nth_error]. now rewrite E.
Qed.

(** X22. The middleware lets a request through exactly on the word after
    the first space of the Authorization header: a request with no header,
    with a header of one word, or with two spaces after the first word is
    answered 401; otherwise that word alone is given to [jwt.verify], which
    decides between [next] with the decoded user and 403.  The first word
    is not looked at (it need not be "Bearer") and what follows a second
    space is ignored. *)
Theorem middleware_reads_the_second_word c :
  authenticateToken c None = Refused 401 "Access token required"
  /\ (forall word,
        no_blank word = true ->
        authenticateToken c (Some word) = Refused 401 "Access token required")
  /\ (forall scheme rest,
        no_blank scheme = true ->
        authenticateToken c (Some (scheme ++ "  " ++ rest))
        = Refused 401 "Access token required")
  /\ (forall scheme t,
        no_blank scheme = true -> no_blank t = true -> t <> EmptyString ->
        let passage :=
          match jwt_verify c t with
          | Some userId => Next userId
          | None => Refused 403 "Invalid token"
          end in
        authenticateToken c (Some (scheme ++ " " ++ t)) = passage
        /\ forall rest,
             authenticateToken c (Some (scheme ++ " " ++ t ++ " " ++ rest))
             = passage).
Proof.
  split; [reflexivity |]. split; [| split].
  - intros word H. unfold authenticateToken.
    rewrite (split_no_blank word H). now destruct (JS.is_empty word).
  - intros scheme rest H. unfold authenticateToken.
    change (scheme ++ "  " ++ rest) with (scheme ++ String " " (String " " rest)).
    rewrite app_blank_not_empty, (split_app _ _ H). reflexivity.
  - intros scheme t Hs Ht Hne. cbv zeta.
    assert (E : JS.is_empty t = false) by (destruct t; [congruence | reflexivity]).
    split; [now apply passes_on_second_word | intros rest].
    unfold authenticateToken.
    + change (scheme ++ " " ++ t ++ " " ++ rest)
        with (scheme ++ String " " (t ++ String " " rest)).
      rewrite app_blank_not_empty, (split_app _ _ Hs), (split_app _ _ Ht).
      cbn [nth_error]. now rewrite E.
Qed.

(** X23. The token a login answers with opens the protected routes for the
    account that logged in: sent as "Bearer <token>" with a later request,
    it passes the middleware with that account's id, provided [jwt.verify]
    then decodes what [jwt.sign] signed at the login and the token is a
    single word. *)
Theorem login_token_passes_the_middleware c c' email password accounts s :
  post_api_auth_login c email password accounts = (200%Z, inl s) ->
  (forall id, jwt_verify c' (jwt_sign c id (jwt_now c)) = Some id) ->
  (forall id, no_blank (jwt_sign c id (jwt_now c)) = true
              /\ jwt_sign c id (jwt_now c) <> EmptyString) ->
  authenticateToken c' (Some ("Bearer " ++ token s)) = Next (session_id s)
  /\ exists a, In a accounts /\ Account._id a = session_id s
               /\ Account.email a = email.
Proof.
  intros H Hv Hw.
  destruct (login_success c email password accounts s H)
    as (a & Hin & He & _ & Hid & Ht).
  split; [| exists a; auto].
  destruct (Hw (Account._id a)) as [Hb Hn].
  change ("Bearer " ++ token s) with ("Bearer" ++ " " ++ token s).
  rewrite Ht, (passes_on_second_word c' "Bearer" _ eq_refl Hb Hn), Hv, Hid.
  reflexivity.
Qed.

End Middleware.

Lemma leading_ones_ones n rest :
  Keys.leading_ones (Keys.ones n ++ String "." rest) = n.
Proof. induction n as [| n IH]; cbn; congruence. Qed.

Lemma ones_no_blank n rest :
  no_blank rest = true -> no_blank (Keys.ones n ++ rest) = true.
Proof. intros H. induction n as [| n IH]; [exact H | exact IH]. Qed.

Lemma accounts_stay_unique_witness :
  NoDup (map Account.email [Keys.alice])
  /\ NoDup (map Account.username [Keys.alice]).
Proof.
  apply (accounts_stay_unique [Keys.alice]).
  exact (registered_more Keys.crypto "alice" "alice@example.org"
           (Some "secret"%string) [] registered_none).
Defined.

Lemma login_needs_the_password_witness :
  exists a,
    In a [Keys.alice]
    /\ Account.email a = "alice@example.org"%string
    /\ bcrypt_compare Keys.crypto (Some "secret"%string) (Account.password a)
       = Returned true.
Proof.
  destruct (proj1 (login_needs_the_password Keys.crypto "alice@example.org"
                     (Some "secret"%string) [Keys.alice] eq_refl)
                  Keys.session eq_refl)
    as (a & Hin & He & Hb & _).
  exists a. repeat split; assumption.
Defined.

(** A login whose body has no password is answered 500. *)
Example login_without_a_password :
  post_api_auth_login Keys.crypto "alice@example.org" None [Keys.alice]
  = (500%Z, inr "Illegal arguments: undefined, string"%string).
Proof. reflexivity. Qed.


Lemma middleware_reads_the_second_word_witness :
  authenticateToken Keys.crypto (Some "Bearer j1111111"%string) = Next 7%nat.
Proof.
  destruct (middleware_reads_the_second_word Keys.crypto) as (_ & _ & _ & H).
  apply (H "Bearer"%string "j1111111"%string); [reflexivity .. | discriminate].
Defined.

Lemma login_token_passes_the_middleware_witness :
  authenticateToken (Keys.crypto_at 5%Z) (Some "Bearer j1111111.11"%string)
  = Next 7%nat.
Proof.
  apply (login_token_passes_the_middleware Keys.crypto (Keys.crypto_at 5%Z)
           "alice@example.org" (Some "secret"%string) [Keys.alice]
           Keys.session).
  - reflexivity.
  - intros id. cbn. f_equal. apply leading_ones_ones.
  - intros id. split; [apply (ones_no_blank id ".11"); reflexivity |
                       discriminate].
Defined.

(* ===================================================================== *)
(** * Further properties: reading the page *)
(* ===================================================================== *)

Section SecondDot.

Local Open Scope string_scope.

Lemma span_digits_stop a t :
  only_digits a = true ->
  JS.span_digits (a ++ String "." t) = (a, String "." t).
Proof.
  induction a as [| c r IH]; cbn [only_digits append JS.span_digits].
  - reflexivity.
  - intros H. apply andb_true_iff in H as [Hc Hr]. now rewrite Hc, (IH Hr).
Qed.

Lemma span_digits_all b :
  only_digits b = true -> JS.span_digits b = (b, EmptyString).
Proof.
  induction b as [| c r IH]; cbn [only_digits JS.span_digits]; [reflexivity |].
  intros H. apply andb_true_iff in H as [Hc Hr]. now rewrite Hc, (IH Hr).
Qed.

(** A numeral of digits and a dot starts with neither white space, a
    sign nor [Infinity]. *)
Lemma numeral_front a t :
  only_digits a = true ->
  JS.trimStart (a ++ String "." t) = a ++ String "." t
  /\ JS.split_sign (a ++ String "." t) = (false, a ++ String "." t)
  /\ JS.startsWith "Infinity" (a ++ String "." t) = false.
Proof.
  destruct a as [| c r]; [now repeat split |].
  cbn [only_digits append]. intros H. apply andb_true_iff in H as [Hc _].
  assert (N : JS.is_digit c || JS.is_dot c = true) by now rewrite Hc.
  split; [| split].
  - cbn [JS.trimStart]. now rewrite (numeric_not_space c N).
  - cbn [JS.split_sign].
    now rewrite (numeric_not_char c "+"), (numeric_not_char c "-").
  - change (JS.startsWith "Infinity" (String c (r ++ String "." t)))
      with (Ascii.eqb "I" c
            && JS.startsWith "nfinity" (r ++ String "." t)).
    now rewrite Ascii.eqb_sym, (numeric_not_char c "I").
Qed.

(** X24. What [replace] leaves of a price text may hold several dots, and
    [parseFloat] stops at the second one: when the digits and dots of the
    text are [a.b.rest], the price is that of [a.b], whatever [rest] is
    (so "1.299.99" is read as 1.299). *)
Theorem price_is_read_up_to_the_second_dot text a b rest :
  only_digits a = true -> only_digits b = true ->
  JS.replace_non_numeric text = a ++ "." ++ b ++ "." ++ rest ->
  JS.parseFloat (JS.replace_non_numeric text) = JS.parseFloat (a ++ "." ++ b).
Proof.
  intros Ha Hb ->.
  change (a ++ "." ++ b ++ "." ++ rest)
    with (a ++ String "." (b ++ String "." rest)).
  change (a ++ "." ++ b) with (a ++ String "." b).
  destruct (numeral_front a (b ++ String "." rest) Ha) as (T1 & S1 & I1).
  destruct (numeral_front a b Ha) as (T2 & S2 & I2).
  unfold JS.parseFloat.
  rewrite T1, S1, I1, T2, S2, I2, !span_digits_stop by exact Ha.
  cbn [JS.fraction_part JS.is_dot].
  change (Ascii.eqb "." ".") with true. cbv iota.
  rewrite (span_digits_stop b rest Hb), (span_digits_all b Hb).
  reflexivity.
Qed.

Lemma startsWith_app p s : JS.startsWith p (p ++ s) = true.
Proof.
  induction p as [| c r IH]; [now destruct s |].
  cbn [append JS.startsWith]. now rewrite Ascii.eqb_refl, IH.
Qed.

Lemma includes_app pre p post : JS.includes (pre ++ p ++ post) p = true.
Proof.
  induction pre as [| c r IH].
  - cbn [append]. destruct (p ++ post) eqn:E; cbn [JS.includes];
      rewrite <- E, startsWith_app; reflexivity.
  - cbn [append JS.includes]. rewrite IH. apply orb_true_r.
Qed.

(** X25. The store is decided by the five fragments wherever they occur
    in the URL, path and query included, not by the host, and "amazon."
    comes first: every URL that has "amazon." anywhere is scraped as Amazon
    from Amazon's two price selectors, whatever else it contains; a URL is
    of an unrecognized store, with a [null] price, exactly when it has none
    of the five. *)
Theorem store_is_read_anywhere_in_the_url :
  (forall pre post doc,
      let d := extract (pre ++ "amazon." ++ post) doc in
      Scraped.store d = "Amazon"
      /\ Scraped.price d
         = (let s :=
              JS.or_else
                (JS.replace_non_numeric
                   (Cheerio.text doc
                      (Cheerio.first (Cheerio.select ".a-price-whole"))))
                (JS.replace_non_numeric
                   (Cheerio.text doc
                      (Cheerio.first (Cheerio.select ".a-offscreen")))) in
            if JS.is_empty s then None else Some (JS.parseFloat s)))
  /\ (forall url doc,
        Scraped.store (extract url doc) = "Unknown Store"
        <-> unrecognized_store url = true).
Proof.
  split.
  - intros pre post doc. cbv zeta. unfold extract.
    rewrite includes_app. split; reflexivity.
  - intros url doc. rewrite extract_store. unfold store_label, unrecognized_store.
    repeat match goal with
           | |- context [JS.includes url ?x] => destruct (JS.includes url x)
           end; cbn; split; intros H; try discriminate; reflexivity.
Qed.

End SecondDot.

Lemma price_is_read_up_to_the_second_dot_witness :
  JS.parseFloat (JS.replace_non_numeric "EUR 1.299.99")
  = JS.parseFloat "1.299".
Proof.
  apply (price_is_read_up_to_the_second_dot "EUR 1.299.99" "1" "299" "99");
    reflexivity.
Defined.

Lemma store_is_read_anywhere_in_the_url_witness :
  Scraped.store
    (extract "https://www.ebay.com/itm/amazon.-gift-card" (Sample.page "$5"))
  = "Amazon"%string
  /\ Scraped.store (extract Sample.elsewhere (Sample.page "$5"))
     = "Unknown Store"%string.
Proof.
  destruct store_is_read_anywhere_in_the_url as [Hany Hnone].
  split.
  - apply (Hany "https://www.ebay.com/itm/" "-gift-card" (Sample.page "$5")).
  - apply (Hnone Sample.elsewhere (Sample.page "$5")). reflexivity.
Defined.
